(** * Lane merge/split helper of scenariogeneration ([xodr/lane_def.py])

    A shallow embedding of [LaneDef], [_create_lane_lists] and
    [create_lanes_merge_split], and the properties of the timeline
    expansion, the width padding and the lane linking.

    Conventions of the embedding:
    - longitudinal positions and widths are Python numbers that the code
      only compares, copies and subtracts: they are rationals ([Q]), and
      Python's [==] on them is [Qeq];
    - lane counts and the changed-lane index are Python integers ([Z]);
      [sub_lane] may be [None];
    - a raised exception is the [Raise] branch of [result];
    - the [while] loop of [_create_lane_lists] is run with fuel; the fuel
      given by [sweep_fuel] is shown to be always enough. *)

From Stdlib Require Import List ZArith QArith Qminmax Lia Lqa Bool Arith FinFun.
Import ListNotations.

Close Scope Q_scope.
Open Scope nat_scope.

(* ================================================================= *)
(** ** Exceptions *)

Inductive exn : Type :=
| IndexError
| TypeError
| ValueError.

Inductive result (A : Type) : Type :=
| Ok (a : A)
| Raise (e : exn).

Arguments Ok {A} a.
Arguments Raise {A} e.

Definition bind {A B : Type} (c : result A) (k : A -> result B) : result B :=
  match c with
  | Ok a => k a
  | Raise e => Raise e
  end.

Notation "x <- c ;; k" := (bind c (fun x => k))
  (at level 61, c at next level, right associativity).

(** [for x in xs: acc = body(acc, x)], stopping at the first exception. *)
Fixpoint for_each {A S : Type} (xs : list A) (body : S -> A -> result S)
  (acc : S) : result S :=
  match xs with
  | [] => Ok acc
  | x :: xs' => acc' <- body acc x ;; for_each xs' body acc'
  end.

(* ================================================================= *)
(** ** Python lists *)

(** [range(n)] for an integer [n]; empty when [n <= 0]. *)
Definition py_range (n : Z) : list Z := map Z.of_nat (seq 0 (Z.to_nat n)).

(** The position a subscript [i] denotes in a list of length [len]:
    negative subscripts count from the end, anything else out of range
    raises [IndexError]. *)
Definition norm_index (len : nat) (i : Z) : result nat :=
  if ((0 <=? i) && (i <? Z.of_nat len))%Z then Ok (Z.to_nat i)
  else if ((i <? 0) && (- Z.of_nat len <=? i))%Z
       then Ok (Z.to_nat (Z.of_nat len + i))
       else Raise IndexError.

(** [l[i]] *)
Definition py_getitem {A : Type} (l : list A) (i : Z) : result A :=
  k <- norm_index (length l) i ;;
  match nth_error l k with
  | Some x => Ok x
  | None => Raise IndexError
  end.

(** The position at which [l.insert(i, x)] puts [x]: subscripts past the
    end are clamped to the end, negative ones count from the end and are
    clamped to the front. *)
Definition insert_pos (len : nat) (i : Z) : nat :=
  if (i <? 0)%Z then Z.to_nat (Z.max 0 (i + Z.of_nat len))
  else Nat.min (Z.to_nat i) len.

(** [l.insert(i, x)] *)
Definition py_insert {A : Type} (l : list A) (i : Z) (x : A) : list A :=
  let k := insert_pos (length l) i in
  firstn k l ++ x :: skipn k l.

(** [l[i] = x] for a position [i] known to be in range. *)
Fixpoint set_nth {A : Type} (l : list A) (i : nat) (x : A) : list A :=
  match l, i with
  | [], _ => []
  | _ :: t, O => x :: t
  | h :: t, S i' => h :: set_nth t i' x
  end.

(** Truth value of a list: [if l:] *)
Definition nonempty {A : Type} (l : list A) : bool :=
  match l with
  | [] => false
  | _ :: _ => true
  end.

(** Truth value of an optional integer: [if n:] is false for [None]
    and for [0]. *)
Definition truthy (n : option Z) : bool :=
  match n with
  | None => false
  | Some z => negb (z =? 0)%Z
  end.

Definition Qltb (x y : Q) : bool := negb (Qle_bool y x).

(* ================================================================= *)
(** ** [LaneDef] as a value *)

Record LaneDef : Type := mkLaneDef {
  s_start : Q;
  s_end : Q;
  n_lanes_start : Z;
  n_lanes_end : Z;
  sub_lane : option Z;
  lane_start_widths : list Q;
  lane_end_widths : list Q
}.

(** [LaneDef.__init__]: an empty [lane_end_widths] is replaced by a copy
    of [lane_start_widths]. *)
Definition LaneDef_init (s_start s_end : Q) (n_lanes_start n_lanes_end : Z)
  (sub_lane : option Z) (lane_start_widths lane_end_widths : list Q)
  : LaneDef :=
  mkLaneDef s_start s_end n_lanes_start n_lanes_end sub_lane
    lane_start_widths
    (if nonempty lane_end_widths then lane_end_widths
     else lane_start_widths).

Definition set_start_widths (d : LaneDef) (ws : list Q) : LaneDef :=
  mkLaneDef (s_start d) (s_end d) (n_lanes_start d) (n_lanes_end d)
    (sub_lane d) ws (lane_end_widths d).

Definition set_end_widths (d : LaneDef) (ws : list Q) : LaneDef :=
  mkLaneDef (s_start d) (s_end d) (n_lanes_start d) (n_lanes_end d)
    (sub_lane d) (lane_start_widths d) ws.

(** [[default_lane_width for x in range(n)]] *)
Definition default_widths (default_lane_width : Q) (n : Z) : list Q :=
  map (fun _ => default_lane_width) (py_range n).

(** [LaneDef._adjust_lane_widths] *)
Definition _adjust_lane_widths (self : LaneDef) : LaneDef :=
  if truthy (sub_lane self) then
    let sub := match sub_lane self with Some z => z | None => 0%Z end in
    if nonempty (lane_end_widths self)
       && (Z.of_nat (length (lane_end_widths self)) <? n_lanes_start self)%Z
    then
      (* merge *)
      set_end_widths self
        (py_insert (lane_end_widths self) (Z.abs sub - 1) 0%Q)
    else if nonempty (lane_start_widths self)
            && (Z.of_nat (length (lane_start_widths self))
                <? n_lanes_end self)%Z
    then
      (* split *)
      set_start_widths self
        (py_insert (lane_start_widths self) (Z.abs sub - 1) 0%Q)
    else self
  else self.

(** [_check_lane_widths], the local helper of [_create_lane_lists] *)
Definition _check_lane_widths (default_lane_width : Q) (lane : LaneDef)
  : LaneDef :=
  let lane1 :=
    if nonempty (lane_start_widths lane) then lane
    else set_start_widths lane
           (default_widths default_lane_width (n_lanes_start lane)) in
  if nonempty (lane_end_widths lane1) then lane1
  else set_end_widths lane1
         (default_widths default_lane_width (n_lanes_end lane1)).

(* ================================================================= *)
(** ** [LaneDef] as an object holding two list objects

    The width lists are mutable Python lists.  In this second model a
    [LaneDef] holds references into a store of list objects, so that
    sharing between [lane_start_widths] and [lane_end_widths] is
    visible. *)

Module Heap.

Definition ref : Type := nat.
Definition store : Type := list (list Q).

Definition deref (h : store) (r : ref) : list Q := nth r h [].

(** A new list object; its reference is the next free one. *)
Definition alloc (h : store) (l : list Q) : store * ref :=
  (h ++ [l], length h).

Definition assign (h : store) (r : ref) (l : list Q) : store :=
  set_nth h r l.

Record LaneDefObj : Type := mkLaneDefObj {
  o_s_start : Q;
  o_s_end : Q;
  o_n_lanes_start : Z;
  o_n_lanes_end : Z;
  o_sub_lane : option Z;
  o_lane_start_widths : ref;
  o_lane_end_widths : ref
}.

(** [LaneDef.__init__]: [lane_end_widths == []] compares by value;
    [self.lane_start_widths.copy()] is a new list object; otherwise the
    argument itself is stored. *)
Definition init (h : store) (s_start s_end : Q)
  (n_lanes_start n_lanes_end : Z) (sub_lane : option Z)
  (lane_start_widths lane_end_widths : ref) : store * LaneDefObj :=
  if nonempty (deref h lane_end_widths) then
    (h, mkLaneDefObj s_start s_end n_lanes_start n_lanes_end sub_lane
          lane_start_widths lane_end_widths)
  else
    let (h', copy) := alloc h (deref h lane_start_widths) in
    (h', mkLaneDefObj s_start s_end n_lanes_start n_lanes_end sub_lane
           lane_start_widths copy).

(** [list.insert] on the object behind [r] *)
Definition insert (h : store) (r : ref) (i : Z) (x : Q) : store :=
  assign h r (py_insert (deref h r) i x).

(** [LaneDef._adjust_lane_widths], mutating the store *)
Definition _adjust_lane_widths (h : store) (self : LaneDefObj) : store :=
  if truthy (o_sub_lane self) then
    let sub := match o_sub_lane self with Some z => z | None => 0%Z end in
    let ends := deref h (o_lane_end_widths self) in
    let starts := deref h (o_lane_start_widths self) in
    if nonempty ends
       && (Z.of_nat (length ends) <? o_n_lanes_start self)%Z
    then insert h (o_lane_end_widths self) (Z.abs sub - 1) 0%Q
    else if nonempty starts
            && (Z.of_nat (length starts) <? o_n_lanes_end self)%Z
    then insert h (o_lane_start_widths self) (Z.abs sub - 1) 0%Q
    else h
  else h.

(** The value an object denotes in a store. *)
Definition view (h : store) (o : LaneDefObj) : LaneDef :=
  mkLaneDef (o_s_start o) (o_s_end o) (o_n_lanes_start o)
    (o_n_lanes_end o) (o_sub_lane o)
    (deref h (o_lane_start_widths o)) (deref h (o_lane_end_widths o)).

End Heap.

(* ================================================================= *)
(** ** The timeline expansion: [_create_lane_lists] *)

(** The [right] / [left] argument: a constant lane count or a list of
    [LaneDef]. *)
Inductive lane_arg : Type :=
| IntArg (n : Z)
| ListArg (l : list LaneDef).

(** [const_right_lanes] / [const_left_lanes]: the count when the argument
    is not a list, [None] otherwise. *)
Definition const_lanes (arg : lane_arg) : option Z :=
  match arg with
  | IntArg n => Some n
  | ListArg _ => None
  end.

(** The list the sweep walks: the argument itself, or [[]] for a count. *)
Definition def_list (arg : lane_arg) : list LaneDef :=
  match arg with
  | IntArg _ => []
  | ListArg l => l
  end.

(** The variables of the [while] loop.  [right] and [left] are kept in
    the state because [_check_lane_widths] fills the widths of the user's
    descriptors in place and later fillers read them. *)
Record sweep_state : Type := mkSweep {
  right : list LaneDef;
  left : list LaneDef;
  retlanes_right : list LaneDef;
  retlanes_left : list LaneDef;
  present_s : Q;
  r_it : nat;
  l_it : nat
}.

(** What the first half of the loop body finds out about one side:
    [add_<side> = True], or [add_<side> = False] together with
    [next_<side>] and [n_<side>_lanes]. *)
Inductive probe : Type :=
| AddHere (d : LaneDef)
| Later (next : Q) (n_lanes : Z).

Section Sweep.

Variables const_right_lanes const_left_lanes : option Z.
Variables tot_length default_lane_width : Q.

Definition probe_side (side : list LaneDef) (it : nat)
  (const_lanes : option Z) (present_s : Q) : result probe :=
  match nth_error side it with
  | Some d =>
      (* it < len(side) *)
      if Qeq_bool (s_start d) present_s then Ok (AddHere d)
      else Ok (Later (s_start d) (n_lanes_start d))
  | None =>
      match const_lanes with
      | Some n => Ok (Later tot_length n)
      | None =>
          last_def <- py_getitem side (-1) ;;
          Ok (Later tot_length (n_lanes_end last_def))
      end
  end.

(** The same-count descriptor of default widths. *)
Definition default_filler (present_s s_end : Q) (n_lanes : Z) : LaneDef :=
  LaneDef_init present_s s_end n_lanes n_lanes None
    (default_widths default_lane_width n_lanes)
    (default_widths default_lane_width n_lanes).

(** The same-count descriptor of the [if not add_left and not
    add_right] branch for a side given as a list: the widths are
    those the previous descriptor ends with, or those the next one
    starts with, when there are any. *)
Definition carried_filler (side : list LaneDef) (it : nat)
  (present_s s_end : Q) (n_lanes : Z) : result LaneDef :=
  let dflt := default_widths default_lane_width n_lanes in
  ws <- (if it =? length side then
           prev <- py_getitem side (Z.of_nat it - 1) ;;
           Ok (if nonempty (lane_end_widths prev)
               then lane_end_widths prev else dflt)
         else
           next <- py_getitem side (Z.of_nat it) ;;
           Ok (if nonempty (lane_start_widths next)
               then lane_start_widths next else dflt)) ;;
  Ok (LaneDef_init present_s s_end n_lanes n_lanes None ws ws).

Definition filler (const_lanes : option Z) (side : list LaneDef)
  (it : nat) (present_s s_end : Q) (n_lanes : Z) : result LaneDef :=
  match const_lanes with
  | Some _ => Ok (default_filler present_s s_end n_lanes)
  | None => carried_filler side it present_s s_end n_lanes
  end.

(** One turn of the [while] loop. *)
Definition sweep_step (st : sweep_state) : result sweep_state :=
  pr <- probe_side (right st) (r_it st) const_right_lanes (present_s st) ;;
  pl <- probe_side (left st) (l_it st) const_left_lanes (present_s st) ;;
  match pl, pr with
  | Later next_left n_l_lanes, Later next_right n_r_lanes =>
      let s_end := Qmin next_left next_right in
      fr <- filler const_right_lanes (right st) (r_it st)
              (present_s st) s_end n_r_lanes ;;
      fl <- filler const_left_lanes (left st) (l_it st)
              (present_s st) s_end n_l_lanes ;;
      Ok (mkSweep (right st) (left st)
            (retlanes_right st ++ [fr]) (retlanes_left st ++ [fl])
            s_end (r_it st) (l_it st))
  | AddHere dl, AddHere dr =>
      let dl' := _check_lane_widths default_lane_width dl in
      let dr' := _check_lane_widths default_lane_width dr in
      Ok (mkSweep (set_nth (right st) (r_it st) dr')
            (set_nth (left st) (l_it st) dl')
            (retlanes_right st ++ [dr']) (retlanes_left st ++ [dl'])
            (s_end dl') (r_it st + 1) (l_it st + 1))
  | Later _ n_l_lanes, AddHere dr =>
      let dr' := _check_lane_widths default_lane_width dr in
      Ok (mkSweep (set_nth (right st) (r_it st) dr') (left st)
            (retlanes_right st ++ [dr'])
            (retlanes_left st
             ++ [default_filler (present_s st) (s_end dr') n_l_lanes])
            (s_end dr') (r_it st + 1) (l_it st))
  | AddHere dl, Later _ n_r_lanes =>
      let dl' := _check_lane_widths default_lane_width dl in
      Ok (mkSweep (right st) (set_nth (left st) (l_it st) dl')
            (retlanes_right st
             ++ [default_filler (present_s st) (s_end dl') n_r_lanes])
            (retlanes_left st ++ [dl'])
            (s_end dl') (r_it st) (l_it st + 1))
  end.

(** [while present_s < tot_length: ...]; [None] when the fuel runs
    out before the loop ends. *)
Fixpoint sweep (fuel : nat) (st : sweep_state)
  : option (result sweep_state) :=
  if Qltb (present_s st) tot_length then
    match fuel with
    | O => None
    | S fuel' =>
        match sweep_step st with
        | Raise e => Some (Raise e)
        | Ok st' => sweep fuel' st'
        end
    end
  else Some (Ok st).

End Sweep.

Definition sweep_fuel (right left : list LaneDef) : nat :=
  2 * (length right + length left) + 2.

Definition sweep_init (right left : lane_arg) : sweep_state :=
  mkSweep (def_list right) (def_list left) [] [] 0%Q 0 0.

Definition _create_lane_lists (right left : lane_arg)
  (tot_length default_lane_width : Q)
  : option (result (list LaneDef * list LaneDef)) :=
  match sweep (const_lanes right) (const_lanes left) tot_length
          default_lane_width
          (sweep_fuel (def_list right) (def_list left))
          (sweep_init right left) with
  | None => None
  | Some (Raise e) => Some (Raise e)
  | Some (Ok st) =>
      Some (Ok (map _adjust_lane_widths (retlanes_right st),
                map _adjust_lane_widths (retlanes_left st)))
  end.

(* ================================================================= *)
(** ** Lanes, lane sections and links *)

Inductive RoadMarkType : Type :=
| solid
| broken
| broken_broken
| solid_solid
| solid_broken
| broken_solid.

(** [RoadLine(width, length, space, toffset, soffset)] *)
Record RoadLine : Type := mkRoadLine {
  line_width : Q;
  line_length : Q;
  line_space : Q;
  line_toffset : Q;
  line_soffset : Q
}.

(** [RoadMark(marking_type, width)] with the lines added by
    [add_specific_road_line]. *)
Record RoadMark : Type := mkRoadMark {
  marking_type : RoadMarkType;
  marking_width : option Q;
  road_lines : list RoadLine
}.

Definition std_roadmark_solid : RoadMark :=
  mkRoadMark solid (Some (2 # 10)%Q) [].

Definition std_roadmark_broken : RoadMark :=
  mkRoadMark broken (Some (2 # 10)%Q) [mkRoadLine (15 # 100) 3 9 0 0].

Definition std_roadmark_broken_long_line : RoadMark :=
  mkRoadMark broken (Some (2 # 10)%Q) [mkRoadLine (15 # 100) 9 3 0 0].

Definition std_roadmark_broken_tight : RoadMark :=
  mkRoadMark broken (Some (2 # 10)%Q) [mkRoadLine (15 # 100) 3 3 0 0].

Definition std_roadmark_broken_broken : RoadMark :=
  mkRoadMark broken_broken None
    [mkRoadLine (2 # 10) 3 3 (2 # 10) 0;
     mkRoadLine (2 # 10) 3 3 (- (2 # 10)) 0].

Definition std_roadmark_solid_solid : RoadMark :=
  mkRoadMark solid_solid None
    [mkRoadLine (2 # 10) 0 0 (2 # 10) 0;
     mkRoadLine (2 # 10) 0 0 (- (2 # 10)) 0].

Definition std_roadmark_solid_broken : RoadMark :=
  mkRoadMark solid_broken None
    [mkRoadLine (2 # 10) 0 0 (2 # 10) 0;
     mkRoadLine (2 # 10) 3 3 (- (2 # 10)) 0].

Definition std_roadmark_broken_solid : RoadMark :=
  mkRoadMark broken_solid None
    [mkRoadLine (2 # 10) 3 3 (2 # 10) 0;
     mkRoadLine (2 # 10) 0 0 (- (2 # 10)) 0].

(** Modelled from the spec: the class [Lane] of [lane.py], which is not
    part of the given sources.  A lane carries the four coefficients of
    its width polynomial [a + b*x + c*x^2 + d*x^3] and the road marks
    added by [add_roadmark]. *)
Record Lane : Type := mkLane {
  lane_a : Q;
  lane_b : Q;
  lane_c : Q;
  lane_d : Q;
  lane_roadmarks : list RoadMark
}.

(** Modelled from the spec: [Lane(lane_width)], the lane of constant
    width [lane_width] (priority 5 of the width selection). *)
Definition constant_lane (lane_width : Q) (rm : RoadMark) : Lane :=
  mkLane lane_width 0 0 0 [rm].

(** Modelled from the spec: the class [LaneSection] of [lane.py];
    [LaneSection(s, centerlane)], [add_right_lane] and [add_left_lane]
    append in call order. *)
Record LaneSection : Type := mkLaneSection {
  section_s : Q;
  centerlane : Lane;
  rightlanes : list Lane;
  leftlanes : list Lane
}.

Inductive side : Type :=
| RightSide
| LeftSide.

Definition side_lanes (sd : side) (sec : LaneSection) : list Lane :=
  match sd with
  | RightSide => rightlanes sec
  | LeftSide => leftlanes sec
  end.

(** A lane object of the built structure: the [at_index]-th lane on
    [on_side] of the [in_section]-th lane section. *)
Record lane_id : Type := mkLaneId {
  in_section : nat;
  on_side : side;
  at_index : nat
}.

(** Modelled from the spec: a link record of [LaneLinker] ([links.py]),
    the pair of a predecessor and a successor lane recorded by
    [add_link]. *)
Record link : Type := mkLink {
  link_pre : lane_id;
  link_succ : lane_id
}.

(** Modelled from the spec: the class [Lanes]; every lane section is
    added together with the one lane linker. *)
Record Lanes : Type := mkLanes {
  lanesections : list LaneSection;
  lanelinker : list link
}.

(** Modelled from the spec: [get_coeffs_for_poly3] of [utils.py], the
    width-transition solver.  For a positive [length] the cubic
    [a + b*x + c*x^2 + d*x^3] has value [lane_offset] at [0], value
    [lane_width_end] at [length] and slope [0] at both ends; it reports
    an error when [length <= 0].  [zero_start] only documents the
    direction.  Every call in [create_lanes_merge_split] passes
    [lane_width_end]. *)
Definition get_coeffs_for_poly3 (length lane_offset : Q) (zero_start : bool)
  (lane_width_end : Q) : result (Q * Q * Q * Q) :=
  if Qle_bool length 0 then Raise ValueError
  else
    let dw := (lane_width_end - lane_offset)%Q in
    Ok (lane_offset, 0%Q,
        (3 * dw / (length * length))%Q,
        (- (2) * dw / (length * length * length))%Q).

(** [Lane(a=coeff[0], b=coeff[1], c=coeff[2], d=coeff[3])] followed by
    [add_roadmark(rm)] *)
Definition poly_lane (coeff : Q * Q * Q * Q) (rm : RoadMark) : Lane :=
  let '(a, b, c, d) := coeff in mkLane a b c d [rm].

(** [np.abs(sub_lane) - 1] and [sub_lane - 1]; both raise on [None]. *)
Definition abs_minus_one (sub_lane : option Z) : result Z :=
  match sub_lane with
  | Some z => Ok (Z.abs z - 1)%Z
  | None => Raise TypeError
  end.

Definition minus_one (sub_lane : option Z) : result Z :=
  match sub_lane with
  | Some z => Ok (z - 1)%Z
  | None => Raise TypeError
  end.

(** [cond and i == index]: [index] is only evaluated when [cond] holds. *)
Definition and_at (cond : bool) (index : result Z) (i : Z) : result bool :=
  if cond then k <- index ;; Ok (i =? k)%Z else Ok false.

(** The lane whose widths are read from the descriptor at [i]. *)
Definition transition_lane (ld : LaneDef) (i : Z) (zero_start : bool)
  (rm : RoadMark) : result Lane :=
  let length := (s_end ld - s_start ld)%Q in
  w0 <- py_getitem (lane_start_widths ld) i ;;
  w1 <- py_getitem (lane_end_widths ld) i ;;
  coeff <- get_coeffs_for_poly3 length w0 zero_start w1 ;;
  Ok (poly_lane coeff rm).

(** The last three branches of the width selection, shared by both
    sides. *)
Definition plain_lane (ld : LaneDef) (lane_width : Q)
  (lane_width_end : option Q) (i : Z) (rm : RoadMark) : result Lane :=
  match lane_width_end with
  | Some lwe =>
      if negb (Qeq_bool lane_width lwe) then
        coeff <- get_coeffs_for_poly3 (s_end ld - s_start ld)%Q
                   lane_width false lwe ;;
        Ok (poly_lane coeff rm)
      else if nonempty (lane_start_widths ld)
      then transition_lane ld i false rm
      else Ok (constant_lane lane_width rm)
  | None =>
      if nonempty (lane_start_widths ld)
      then transition_lane ld i false rm
      else Ok (constant_lane lane_width rm)
  end.

Definition outer_roadmark (ld : LaneDef) (i : Z) : RoadMark :=
  if (i =? Z.max (n_lanes_start ld) (n_lanes_end ld) - 1)%Z
  then std_roadmark_solid else std_roadmark_broken.

(** Body of [for i in range(max(right_lane[ls].n_lanes_start, ...))] *)
Definition right_lane_at (ld : LaneDef) (lane_width : Q)
  (lane_width_end : option Q) (i : Z) : result Lane :=
  let rm := outer_roadmark ld i in
  merging <- and_at (n_lanes_start ld >? n_lanes_end ld)%Z
               (abs_minus_one (sub_lane ld)) i ;;
  if merging then transition_lane ld i false rm
  else
    splitting <- and_at (n_lanes_start ld <? n_lanes_end ld)%Z
                   (abs_minus_one (sub_lane ld)) i ;;
    if splitting then transition_lane ld i true rm
    else plain_lane ld lane_width lane_width_end i rm.

(** Body of [for i in range(max(left_lane[ls].n_lanes_start, ...))] *)
Definition left_lane_at (ld : LaneDef) (lane_width : Q)
  (lane_width_end : option Q) (i : Z) : result Lane :=
  let rm := outer_roadmark ld i in
  splitting <- and_at (n_lanes_start ld <? n_lanes_end ld)%Z
                 (minus_one (sub_lane ld)) i ;;
  if splitting then transition_lane ld i true rm
  else
    merging <- and_at (n_lanes_start ld >? n_lanes_end ld)%Z
                 (minus_one (sub_lane ld)) i ;;
    if merging then transition_lane ld i false rm
    else plain_lane ld lane_width lane_width_end i rm.

(** The lanes of one side of one section, in the order they are added. *)
Definition side_lanes_of (lane_at : LaneDef -> Q -> option Q -> Z -> result Lane)
  (ld : LaneDef) (lane_width : Q) (lane_width_end : option Q)
  : result (list Lane) :=
  for_each (py_range (Z.max (n_lanes_start ld) (n_lanes_end ld)))
    (fun lanes i =>
       lane <- lane_at ld lane_width lane_width_end i ;;
       Ok (lanes ++ [lane]))
    [].

(** Body of [for ls in range(len(left_lane))] *)
Definition build_lanesection (right_lane left_lane : list LaneDef)
  (center_road_mark : RoadMark) (lane_width : Q)
  (lane_width_end : option Q) (ls : Z) : result LaneSection :=
  let lc := mkLane 0 0 0 0 [center_road_mark] in
  l <- py_getitem left_lane ls ;;
  r <- py_getitem right_lane ls ;;
  rights <- side_lanes_of right_lane_at r lane_width lane_width_end ;;
  lefts <- side_lanes_of left_lane_at l lane_width lane_width_end ;;
  Ok (mkLaneSection (s_start l) lc rights lefts).

Definition build_lanesections (right_lane left_lane : list LaneDef)
  (center_road_mark : RoadMark) (lane_width : Q)
  (lane_width_end : option Q) : result (list LaneSection) :=
  for_each (py_range (Z.of_nat (length left_lane)))
    (fun secs ls =>
       lsec <- build_lanesection right_lane left_lane center_road_mark
                 lane_width lane_width_end ls ;;
       Ok (secs ++ [lsec]))
    [].

(* ================================================================= *)
(** ** The lane linker *)

(** [lanesections[k].rightlanes[j]] (or [.leftlanes[j]]) as a lane
    object; both subscripts follow Python's rules. *)
Definition lane_at (sd : side) (secs : list LaneSection) (k j : Z)
  : result lane_id :=
  pos <- norm_index (length secs) k ;;
  sec <- match nth_error secs pos with
         | Some s => Ok s
         | None => Raise IndexError
         end ;;
  idx <- norm_index (length (side_lanes sd sec)) j ;;
  Ok (mkLaneId pos sd idx).

(** [sub_lane < x] and [sub_lane > x]; comparing [None] with an integer
    raises. *)
Definition sub_ltb (sub : option Z) (x : Z) : result bool :=
  match sub with
  | Some z => Ok (z <? x)%Z
  | None => Raise TypeError
  end.

Definition sub_gtb (sub : option Z) (x : Z) : result bool :=
  match sub with
  | Some z => Ok (z >? x)%Z
  | None => Raise TypeError
  end.

(** [lanelinker.add_link(pre, succ)]: the arguments are evaluated left
    to right. *)
Definition add_link (links : list link) (pre succ : result lane_id)
  : result (list link) :=
  p <- pre ;;
  s <- succ ;;
  Ok (links ++ [mkLink p s]).

Section Boundary.

(** [pre j] is [lanesections[i - 1].<side>lanes[j]] and [succ j] is
    [lanesections[i].<side>lanes[j]]. *)
Variables pre succ : Z -> result lane_id.

Definition same_at (links : list link) (j : Z) : result (list link) :=
  add_link links (pre j) (succ j).

Definition right_split_at (sub : option Z) (links : list link) (j : Z)
  : result (list link) :=
  lt <- sub_ltb sub (- (j + 1))%Z ;;
  if lt then add_link links (pre j) (succ j)
  else
    gt <- sub_gtb sub (- (j + 1))%Z ;;
    if gt then add_link links (pre (j - 1)%Z) (succ j)
    else Ok links.

Definition right_merge_at (sub : option Z) (links : list link) (j : Z)
  : result (list link) :=
  lt <- sub_ltb sub (- (j + 1))%Z ;;
  if lt then add_link links (pre j) (succ j)
  else
    gt <- sub_gtb sub (- (j + 1))%Z ;;
    if gt then add_link links (pre j) (succ (j - 1)%Z)
    else Ok links.

Definition left_split_at (sub : option Z) (links : list link) (j : Z)
  : result (list link) :=
  lt <- sub_ltb sub (j + 1)%Z ;;
  if lt then add_link links (pre (j - 1)%Z) (succ j)
  else
    gt <- sub_gtb sub (j + 1)%Z ;;
    if gt then add_link links (pre j) (succ j)
    else Ok links.

Definition left_merge_at (sub : option Z) (links : list link) (j : Z)
  : result (list link) :=
  lt <- sub_ltb sub (j + 1)%Z ;;
  if lt then add_link links (pre j) (succ (j - 1)%Z)
  else
    gt <- sub_gtb sub (j + 1)%Z ;;
    if gt then add_link links (pre j) (succ j)
    else Ok links.

(** Body of [for i in range(1, len(right_lane))], with
    [prev = right_lane[i - 1]] and [cur = right_lane[i]]. *)
Definition link_right_boundary (prev cur : LaneDef) (links : list link)
  : result (list link) :=
  if (n_lanes_end cur >? n_lanes_start cur)%Z then
    for_each (py_range (n_lanes_end prev + 1))
      (right_split_at (sub_lane cur)) links
  else if (n_lanes_end prev <? n_lanes_start prev)%Z then
    for_each (py_range (n_lanes_end prev + 1))
      (right_merge_at (sub_lane prev)) links
  else
    for_each (py_range (n_lanes_end prev)) same_at links.

(** Body of [for i in range(1, len(left_lane))]. *)
Definition link_left_boundary (prev cur : LaneDef) (links : list link)
  : result (list link) :=
  if (n_lanes_end cur >? n_lanes_start cur)%Z then
    for_each (py_range (n_lanes_end prev + 1))
      (left_split_at (sub_lane cur)) links
  else if (n_lanes_end prev <? n_lanes_start prev)%Z then
    for_each (py_range (n_lanes_end prev + 1))
      (left_merge_at (sub_lane prev)) links
  else
    for_each (py_range (n_lanes_end prev)) same_at links.

Definition link_boundary (sd : side) (prev cur : LaneDef)
  (links : list link) : result (list link) :=
  match sd with
  | RightSide => link_right_boundary prev cur links
  | LeftSide => link_left_boundary prev cur links
  end.

End Boundary.

(** One of the two linking loops of [create_lanes_merge_split]. *)
Definition link_side (sd : side) (lane_defs : list LaneDef)
  (secs : list LaneSection) (links : list link) : result (list link) :=
  for_each (map Z.of_nat (seq 1 (length lane_defs - 1)))
    (fun links i =>
       cur <- py_getitem lane_defs i ;;
       prev <- py_getitem lane_defs (i - 1)%Z ;;
       link_boundary (lane_at sd secs (i - 1)%Z) (lane_at sd secs i)
         sd prev cur links)
    links.

(* ================================================================= *)
(** ** [create_lanes_merge_split] *)

Definition create_lanes_merge_split (right_lane_def left_lane_def : lane_arg)
  (road_length : Q) (center_road_mark : RoadMark) (lane_width : Q)
  (lane_width_end : option Q) : option (result Lanes) :=
  match _create_lane_lists right_lane_def left_lane_def road_length
          lane_width with
  | None => None
  | Some (Raise e) => Some (Raise e)
  | Some (Ok (right_lane, left_lane)) =>
      Some (secs <- build_lanesections right_lane left_lane
                      center_road_mark lane_width lane_width_end ;;
            links <- link_side RightSide right_lane secs [] ;;
            links <- link_side LeftSide left_lane secs links ;;
            Ok (mkLanes secs links))
  end.

(* ================================================================= *)
(** ** Predicates used in the statements *)

(** [new] is [old] with exactly one [0] put in at subscript [i] the way
    [list.insert] does it: [old] is cut at position [min(i, len(old))]
    and the zero goes between the two parts. *)
Definition zero_inserted_at (i : Z) (old new : list Q) : Prop :=
  exists before after,
    old = before ++ after /\
    new = before ++ 0%Q :: after /\
    length before = Nat.min (Z.to_nat i) (length old).

(** The two conditions [_adjust_lane_widths] tests, in its order. *)
Definition merge_padding_due (self : LaneDef) : bool :=
  nonempty (lane_end_widths self)
  && (Z.of_nat (length (lane_end_widths self)) <? n_lanes_start self)%Z.

Definition split_padding_due (self : LaneDef) : bool :=
  nonempty (lane_start_widths self)
  && (Z.of_nat (length (lane_start_widths self)) <? n_lanes_end self)%Z.

(** Descriptors not yet consumed by the sweep. *)
Definition pending (st : sweep_state) : nat :=
  (length (right st) - r_it st) + (length (left st) - l_it st).

(** The sweep stands at the end of the road or at the start of the next
    descriptor of one side: the next turn of the loop, if any, consumes
    a descriptor. *)
Definition settled (tot_length : Q) (st : sweep_state) : Prop :=
  Qltb (present_s st) tot_length = false \/
  (exists d, nth_error (right st) (r_it st) = Some d /\
             Qeq_bool (s_start d) (present_s st) = true) \/
  (exists d, nth_error (left st) (l_it st) = Some d /\
             Qeq_bool (s_start d) (present_s st) = true).

(** A lane of constant width [w]: the width polynomial has value [w]
    and no higher coefficient. *)
Definition constant_width (w : Q) (lane : Lane) : Prop :=
  (lane_a lane == w)%Q /\ (lane_b lane == 0)%Q /\
  (lane_c lane == 0)%Q /\ (lane_d lane == 0)%Q.

(** The number of lane objects the builder creates on one side of the
    section of descriptor [d]. *)
Definition section_lane_count (d : LaneDef) : nat :=
  Z.to_nat (Z.max (n_lanes_start d) (n_lanes_end d)).

(** The tests of the linker: the successor descriptor is a split, the
    predecessor descriptor is a merge. *)
Definition is_split (d : LaneDef) : bool :=
  (n_lanes_end d >? n_lanes_start d)%Z.

Definition is_merge (d : LaneDef) : bool :=
  (n_lanes_end d <? n_lanes_start d)%Z.

(** The list position of the changed lane: right lanes are numbered
    [-1, -2, ...] outward from the centre, left lanes [1, 2, ...]. *)
Definition changed_position (sd : side) (sub : Z) : Z :=
  match sd with
  | RightSide => (- sub - 1)%Z
  | LeftSide => (sub - 1)%Z
  end.

(** [lanesections[k].<side>lanes[j]] when section [k] exists and has [n]
    lanes on that side. *)
Definition section_lane (k : nat) (sd : side) (n : nat) (j : Z)
  : result lane_id :=
  idx <- norm_index n j ;;
  Ok (mkLaneId k sd idx).

(** The link from lane [i] of section [k] to lane [j] of the next. *)
Definition link_across (k : nat) (sd : side) (i j : nat) : link :=
  mkLink (mkLaneId k sd i) (mkLaneId (S k) sd j).

(** The loop bodies of the linker for a split and for a merge, written
    with the list position [p] of the changed lane; both sides' bodies
    are instances of them. *)
Definition split_body (pre succ : Z -> result lane_id) (p : Z)
  (links : list link) (j : Z) : result (list link) :=
  if (j <? p)%Z then add_link links (pre j) (succ j)
  else if (j >? p)%Z then add_link links (pre (j - 1)%Z) (succ j)
  else Ok links.

Definition merge_body (pre succ : Z -> result lane_id) (p : Z)
  (links : list link) (j : Z) : result (list link) :=
  if (j <? p)%Z then add_link links (pre j) (succ j)
  else if (j >? p)%Z then add_link links (pre j) (succ (j - 1)%Z)
  else Ok links.

(** The links a split at position [p] and a merge at position [p]
    produce for the loop index [j], in a section pair [k], [k + 1]. *)
Definition split_links_at (k : nat) (sd : side) (p j : Z) : list link :=
  if (j <? p)%Z then [link_across k sd (Z.to_nat j) (Z.to_nat j)]
  else if (j >? p)%Z then [link_across k sd (Z.to_nat (j - 1)) (Z.to_nat j)]
  else [].

Definition merge_links_at (k : nat) (sd : side) (p j : Z) : list link :=
  if (j <? p)%Z then [link_across k sd (Z.to_nat j) (Z.to_nat j)]
  else if (j >? p)%Z then [link_across k sd (Z.to_nat j) (Z.to_nat (j - 1))]
  else [].



(** A descriptor after [_check_lane_widths]: one width per lane. *)
Definition normalized (d : LaneDef) : Prop :=
  (0 <= n_lanes_start d)%Z /\ (0 <= n_lanes_end d)%Z /\
  length (lane_start_widths d) = Z.to_nat (n_lanes_start d) /\
  length (lane_end_widths d) = Z.to_nat (n_lanes_end d).

(** Whether [_adjust_lane_widths] pads the end widths (merge) or the
    start widths (split) of a normalised descriptor, read off its
    counts and its changed-lane index. *)
Definition pads_end (d : LaneDef) : bool :=
  truthy (sub_lane d)
  && (1 <=? n_lanes_end d)%Z && (n_lanes_end d <? n_lanes_start d)%Z.

Definition pads_start (d : LaneDef) : bool :=
  truthy (sub_lane d)
  && (1 <=? n_lanes_start d)%Z && (n_lanes_start d <? n_lanes_end d)%Z.

(** The lengths of the width lists of an expanded descriptor: the lane
    count, plus one for the list that received the zero placeholder. *)
Definition padded_lengths (d : LaneDef) : Prop :=
  length (lane_start_widths d)
  = Z.to_nat (n_lanes_start d) + (if pads_start d then 1 else 0) /\
  length (lane_end_widths d)
  = Z.to_nat (n_lanes_end d) + (if pads_end d then 1 else 0).


(** The descriptors of one side are in order, do not overlap, have
    positive length and lie between [lo] and [tot_length]. *)
Fixpoint ordered_from (lo tot_length : Q) (side : list LaneDef) : Prop :=
  match side with
  | [] => True
  | d :: rest =>
      (lo <= s_start d)%Q /\ (s_start d < s_end d)%Q /\
      (s_end d <= tot_length)%Q /\ ordered_from (s_end d) tot_length rest
  end.

(** The constraint the docstring of [create_lanes_merge_split] puts on
    the two sides: a right and a left descriptor cover the same
    interval or do not overlap. *)
Definition co_located (r l : LaneDef) : Prop :=
  (s_start r == s_start l /\ s_end r == s_end l)%Q \/
  (s_end r <= s_start l)%Q \/ (s_end l <= s_start r)%Q.

Definition aligned (right left : list LaneDef) : Prop :=
  forall r l, In r right -> In l left -> co_located r l.

(** A side given as a list holds at least one descriptor. *)
Definition valid_side (tot_length : Q) (arg : lane_arg) : Prop :=
  match arg with
  | IntArg _ => True
  | ListArg l => l <> [] /\ ordered_from 0 tot_length l
  end.

(** The intervals of a timeline follow each other without gap or
    overlap from [lo] to [hi], each of positive length. *)
Fixpoint tiles (lo hi : Q) (timeline : list LaneDef) : Prop :=
  match timeline with
  | [] => (lo == hi)%Q
  | d :: rest =>
      (s_start d == lo)%Q /\ (s_start d < s_end d)%Q /\
      tiles (s_end d) hi rest
  end.

(** Two timelines have the same interval boundaries, element for
    element. *)
Definition same_boundaries (a b : list LaneDef) : Prop :=
  Forall2 (fun x y => (s_start x == s_start y /\ s_end x == s_end y)%Q) a b.

(** What the sweep keeps true for aligned input. *)
Record tiling_inv (cr cl : option Z) (tot_length : Q) (st : sweep_state)
  : Prop := mkTilingInv {
  inv_r_it : r_it st <= length (right st);
  inv_l_it : l_it st <= length (left st);
  inv_r_some : cr = None -> right st <> [];
  inv_l_some : cl = None -> left st <> [];
  inv_r_ordered :
    ordered_from (present_s st) tot_length (skipn (r_it st) (right st));
  inv_l_ordered :
    ordered_from (present_s st) tot_length (skipn (l_it st) (left st));
  inv_aligned :
    aligned (skipn (r_it st) (right st)) (skipn (l_it st) (left st));
  inv_within : (present_s st <= tot_length)%Q;
  inv_tiles_r : tiles 0 (present_s st) (retlanes_right st);
  inv_tiles_l : tiles 0 (present_s st) (retlanes_left st);
  inv_same : same_boundaries (retlanes_right st) (retlanes_left st)
}.

(** An interval that has a lane at its start has positive length. *)
Definition nondegenerate (d : LaneDef) : Prop :=
  (1 <= n_lanes_start d)%Z -> (s_start d < s_end d)%Q.

(** A descriptor with a lane at its start has start widths. *)
Definition has_start_widths (d : LaneDef) : Prop :=
  (1 <= n_lanes_start d)%Z -> nonempty (lane_start_widths d) = true.

(** What the sweep keeps true whatever the input: both timelines grow
    together and every emitted descriptor has its start widths. *)
Definition emitted_inv (st : sweep_state) : Prop :=
  length (retlanes_right st) = length (retlanes_left st) /\
  Forall has_start_widths (retlanes_right st) /\
  Forall has_start_widths (retlanes_left st).

(** A lane section built for the descriptors [r] and [l]. *)
Definition section_complete (sec : LaneSection) (r l : LaneDef) : Prop :=
  section_s sec = s_start l /\
  length (rightlanes sec) = section_lane_count r /\
  length (leftlanes sec) = section_lane_count l.

(** The intervals of a timeline follow each other from [lo] to [hi]:
    each starts where the one before ends.  Nothing is said about
    their lengths. *)
Fixpoint chained (lo hi : Q) (timeline : list LaneDef) : Prop :=
  match timeline with
  | [] => (lo == hi)%Q
  | d :: rest => (s_start d == lo)%Q /\ chained (s_end d) hi rest
  end.

(** Two timelines start their intervals at the same positions. *)
Definition same_starts (a b : list LaneDef) : Prop :=
  Forall2 (fun x y => (s_start x == s_start y)%Q) a b.

(** What the sweep keeps true of the positions for every input. *)
Definition starts_inv (st : sweep_state) : Prop :=
  same_starts (retlanes_right st) (retlanes_left st) /\
  chained 0 (present_s st) (retlanes_left st).

(** A descriptor of [n] lanes throughout, without changed lane, all
    widths the default width. *)
Definition plain_default (w : Q) (n : Z) (d : LaneDef) : Prop :=
  n_lanes_start d = n /\ n_lanes_end d = n /\ sub_lane d = None /\
  lane_start_widths d = default_widths w n /\
  lane_end_widths d = default_widths w n.

(** A link joins two lanes that exist, on side [sd], of two lane
    sections that follow each other. *)
Definition joins_adjacent (sd : side) (secs : list LaneSection) (l : link)
  : Prop :=
  exists sp sc,
    nth_error secs (in_section (link_pre l)) = Some sp /\
    nth_error secs (in_section (link_succ l)) = Some sc /\
    in_section (link_succ l) = S (in_section (link_pre l)) /\
    on_side (link_pre l) = sd /\ on_side (link_succ l) = sd /\
    at_index (link_pre l) < length (side_lanes sd sp) /\
    at_index (link_succ l) < length (side_lanes sd sc).

(* ================================================================= *)
(** * Properties *)

(** ** Comparisons and Python lists *)

Lemma Qltb_true (x y : Q) : Qltb x y = true <-> (x < y)%Q.
Proof.
  unfold Qltb. rewrite negb_true_iff.
  destruct (Qle_bool y x) eqn:E.
  - apply Qle_bool_iff in E. split; [discriminate | intros H; exfalso; lra].
  - split; [intros _ | reflexivity].
    destruct (Qlt_le_dec x y) as [H | H]; [exact H |].
    apply Qle_bool_iff in H. congruence.
Qed.

Lemma Qltb_false (x y : Q) : Qltb x y = false <-> (y <= x)%Q.
Proof.
  unfold Qltb. rewrite negb_false_iff. apply Qle_bool_iff.
Qed.

Lemma in_py_range (n j : Z) : In j (py_range n) <-> (0 <= j < n)%Z.
Proof.
  unfold py_range. rewrite in_map_iff. split.
  - intros [k [<- Hk]]. apply in_seq in Hk. lia.
  - intros H. exists (Z.to_nat j). split; [lia | apply in_seq; lia].
Qed.

Lemma py_range_length (n : Z) : length (py_range n) = Z.to_nat n.
Proof. unfold py_range. now rewrite length_map, length_seq. Qed.

Lemma py_range_nonpos (n : Z) : (n <= 0)%Z -> py_range n = [].
Proof.
  intros H. unfold py_range. replace (Z.to_nat n) with 0 by lia. reflexivity.
Qed.

Lemma py_range_succ (n : Z) :
  (0 <= n)%Z -> py_range (n + 1) = py_range n ++ [n].
Proof.
  intros H. unfold py_range.
  replace (Z.to_nat (n + 1)) with (S (Z.to_nat n)) by lia.
  rewrite seq_S, map_app. cbn. now rewrite Z2Nat.id.
Qed.

Lemma py_range_NoDup (n : Z) : NoDup (py_range n).
Proof.
  unfold py_range. apply Injective_map_NoDup.
  - intros x y. apply Nat2Z.inj.
  - apply seq_NoDup.
Qed.

Lemma norm_index_in_range (len : nat) (i : Z) :
  (0 <= i < Z.of_nat len)%Z -> norm_index len i = Ok (Z.to_nat i).
Proof.
  intros H. unfold norm_index.
  replace ((0 <=? i) && (i <? Z.of_nat len))%Z with true; [reflexivity |].
  symmetry. apply andb_true_iff. split; [apply Z.leb_le | apply Z.ltb_lt]; lia.
Qed.

Lemma norm_index_past_end (len : nat) (i : Z) :
  (Z.of_nat len <= i)%Z -> norm_index len i = Raise IndexError.
Proof.
  intros H. unfold norm_index.
  replace (i <? Z.of_nat len)%Z with false by (symmetry; apply Z.ltb_ge; lia).
  replace (i <? 0)%Z with false by (symmetry; apply Z.ltb_ge; lia).
  now rewrite andb_false_r.
Qed.

Lemma norm_index_last (len : nat) :
  0 < len -> norm_index len (-1) = Ok (len - 1).
Proof.
  intros H. unfold norm_index. cbn [Z.leb Z.compare andb Z.ltb].
  replace (- Z.of_nat len <=? -1)%Z with true
    by (symmetry; apply Z.leb_le; lia).
  f_equal. lia.
Qed.

Lemma norm_index_bound (len : nat) (i : Z) (k : nat) :
  norm_index len i = Ok k -> k < len.
Proof.
  unfold norm_index.
  destruct ((0 <=? i) && (i <? Z.of_nat len))%Z eqn:E1.
  - apply andb_true_iff in E1 as [H1 H2].
    apply Z.leb_le in H1. apply Z.ltb_lt in H2. intros [= <-]. lia.
  - destruct ((i <? 0) && (- Z.of_nat len <=? i))%Z eqn:E2; [| discriminate].
    apply andb_true_iff in E2 as [H1 H2].
    apply Z.ltb_lt in H1. apply Z.leb_le in H2. intros [= <-]. lia.
Qed.

Lemma norm_index_raises (len : nat) (i : Z) (e : exn) :
  norm_index len i = Raise e -> e = IndexError.
Proof.
  unfold norm_index.
  destruct ((0 <=? i) && (i <? Z.of_nat len))%Z; [discriminate |].
  destruct ((i <? 0) && (- Z.of_nat len <=? i))%Z; [discriminate |].
  now intros [= <-].
Qed.

Lemma py_getitem_in_range {A : Type} (l : list A) (i : nat) (x : A) :
  nth_error l i = Some x -> py_getitem l (Z.of_nat i) = Ok x.
Proof.
  intros H. unfold py_getitem.
  rewrite norm_index_in_range.
  - cbn. now rewrite Nat2Z.id, H.
  - assert (i < length l) by (apply nth_error_Some; congruence). lia.
Qed.

Lemma py_getitem_raises {A : Type} (l : list A) (i : Z) (e : exn) :
  py_getitem l i = Raise e -> e = IndexError.
Proof.
  unfold py_getitem. destruct (norm_index (length l) i) eqn:E; cbn.
  - destruct (nth_error l a); [discriminate | now intros [= <-]].
  - intros [= <-]. eapply norm_index_raises; eauto.
Qed.

Lemma set_nth_length {A : Type} (l : list A) (i : nat) (x : A) :
  length (set_nth l i x) = length l.
Proof.
  revert i. induction l as [| h t IH]; intros [| i]; cbn; auto.
Qed.

Lemma nth_error_set_nth_eq {A : Type} (l : list A) (i : nat) (x : A) :
  i < length l -> nth_error (set_nth l i x) i = Some x.
Proof.
  revert i. induction l as [| h t IH]; intros [| i] H; cbn in *;
    try lia; auto.
  apply IH. lia.
Qed.

Lemma nth_error_set_nth_neq {A : Type} (l : list A) (i j : nat) (x : A) :
  i <> j -> nth_error (set_nth l i x) j = nth_error l j.
Proof.
  revert i j. induction l as [| h t IH]; intros [| i] [| j] H; cbn;
    try reflexivity; try congruence.
  apply IH. congruence.
Qed.

Lemma insert_pos_nonneg (len : nat) (i : Z) :
  (0 <= i)%Z -> insert_pos len i = Nat.min (Z.to_nat i) len.
Proof.
  intros H. unfold insert_pos.
  now replace (i <? 0)%Z with false by (symmetry; apply Z.ltb_ge; lia).
Qed.

Lemma insert_pos_le (len : nat) (i : Z) : insert_pos len i <= len.
Proof.
  unfold insert_pos. destruct (i <? 0)%Z eqn:E; [| lia].
  apply Z.ltb_lt in E. lia.
Qed.

Lemma py_insert_length {A : Type} (l : list A) (i : Z) (x : A) :
  length (py_insert l i x) = S (length l).
Proof.
  unfold py_insert. pose proof (insert_pos_le (length l) i) as H.
  rewrite length_app. cbn [length].
  rewrite length_firstn, length_skipn. lia.
Qed.

(** What [l.insert(i, x)] does for [i >= 0]: the list is cut at
    position [min(i, len(l))] and [x] is put between the two parts. *)
Lemma py_insert_split {A : Type} (l : list A) (i : Z) (x : A) :
  (0 <= i)%Z ->
  exists before after,
    l = before ++ after /\
    py_insert l i x = before ++ x :: after /\
    length before = Nat.min (Z.to_nat i) (length l).
Proof.
  intros H. unfold py_insert. rewrite (insert_pos_nonneg _ _ H).
  set (k := Nat.min (Z.to_nat i) (length l)).
  exists (firstn k l), (skipn k l). repeat split.
  - symmetry. apply firstn_skipn.
  - rewrite length_firstn. lia.
Qed.

(* ================================================================= *)
(** ** [_adjust_lane_widths] *)

Lemma adjust_unfold (self : LaneDef) (sub : Z) :
  sub_lane self = Some sub -> sub <> 0%Z ->
  _adjust_lane_widths self =
  if merge_padding_due self then
    set_end_widths self (py_insert (lane_end_widths self) (Z.abs sub - 1) 0%Q)
  else if split_padding_due self then
    set_start_widths self
      (py_insert (lane_start_widths self) (Z.abs sub - 1) 0%Q)
  else self.
Proof.
  intros Hs Hz. unfold _adjust_lane_widths, merge_padding_due,
    split_padding_due. rewrite Hs. cbn [truthy].
  replace (sub =? 0)%Z with false by (symmetry; apply Z.eqb_neq; exact Hz).
  reflexivity.
Qed.

Lemma adjust_falsy (self : LaneDef) :
  truthy (sub_lane self) = false -> _adjust_lane_widths self = self.
Proof. intros H. unfold _adjust_lane_widths. now rewrite H. Qed.

Lemma zero_inserted_by_py_insert (l : list Q) (sub : Z) :
  sub <> 0%Z -> zero_inserted_at (Z.abs sub - 1) l (py_insert l (Z.abs sub - 1) 0%Q).
Proof.
  intros Hz. unfold zero_inserted_at.
  apply py_insert_split. lia.
Qed.

(** C5. For a descriptor whose changed-lane index [sub_lane] is set and
    not zero: if [lane_end_widths] is non-empty and shorter than
    [n_lanes_start] (merge), exactly one [0] is inserted into
    [lane_end_widths] by [insert(abs(sub_lane) - 1, 0)] and nothing else
    changes; otherwise, if [lane_start_widths] is non-empty and shorter
    than [n_lanes_end] (split), exactly one [0] is inserted into
    [lane_start_widths] in the same way and nothing else changes; when
    neither condition holds, or [sub_lane] is unset, the descriptor is
    returned unchanged.  The two insertions exclude each other. *)
Theorem adjust_lane_widths_cases (self : LaneDef) :
  (sub_lane self = None -> _adjust_lane_widths self = self) /\
  (forall sub : Z,
      sub_lane self = Some sub -> sub <> 0%Z ->
      (merge_padding_due self = true ->
       _adjust_lane_widths self =
         set_end_widths self
           (py_insert (lane_end_widths self) (Z.abs sub - 1) 0%Q) /\
       zero_inserted_at (Z.abs sub - 1) (lane_end_widths self)
         (lane_end_widths (_adjust_lane_widths self)) /\
       lane_start_widths (_adjust_lane_widths self)
         = lane_start_widths self) /\
      (merge_padding_due self = false -> split_padding_due self = true ->
       _adjust_lane_widths self =
         set_start_widths self
           (py_insert (lane_start_widths self) (Z.abs sub - 1) 0%Q) /\
       zero_inserted_at (Z.abs sub - 1) (lane_start_widths self)
         (lane_start_widths (_adjust_lane_widths self)) /\
       lane_end_widths (_adjust_lane_widths self)
         = lane_end_widths self) /\
      (merge_padding_due self = false -> split_padding_due self = false ->
       _adjust_lane_widths self = self)).
Proof.
  split.
  - intros Hn. apply adjust_falsy. now rewrite Hn.
  - intros sub Hs Hz. rewrite (adjust_unfold self sub Hs Hz).
    repeat split.
    + now rewrite H.
    + rewrite H. cbn. now apply zero_inserted_by_py_insert.
    + now rewrite H.
    + now rewrite H, H0.
    + rewrite H, H0. cbn. now apply zero_inserted_by_py_insert.
    + now rewrite H, H0.
    + intros H H0. now rewrite H, H0.
Qed.

(** The merge descriptor [LaneDef(20, 40, 3, 2, 3, [3, 3, 3], [3, 3])]
    gets its zero at the end of [lane_end_widths]. *)
Lemma adjust_lane_widths_cases_witness :
  _adjust_lane_widths (mkLaneDef 20 40 3 2 (Some 3%Z) [3; 3; 3]%Q [3; 3]%Q)
  = set_end_widths (mkLaneDef 20 40 3 2 (Some 3%Z) [3; 3; 3]%Q [3; 3]%Q)
      [3; 3; 0]%Q.
Proof.
  exact (proj1 (proj1 (proj2 (adjust_lane_widths_cases
           (mkLaneDef 20 40 3 2 (Some 3%Z) [3; 3; 3]%Q [3; 3]%Q))
           3%Z eq_refl ltac:(discriminate)) eq_refl)).
Defined.

(* ================================================================= *)
(** ** Sharing of the width lists *)

Lemma deref_alloc_old (h : Heap.store) (l : list Q) (r : Heap.ref) :
  r < length h -> Heap.deref (fst (Heap.alloc h l)) r = Heap.deref h r.
Proof.
  intros H. unfold Heap.deref, Heap.alloc. cbn. now apply app_nth1.
Qed.

Lemma deref_alloc_new (h : Heap.store) (l : list Q) :
  Heap.deref (fst (Heap.alloc h l)) (snd (Heap.alloc h l)) = l.
Proof.
  unfold Heap.deref, Heap.alloc. cbn.
  rewrite app_nth2 by lia. now rewrite Nat.sub_diag.
Qed.

Lemma deref_assign_other (h : Heap.store) (r r' : Heap.ref) (l : list Q) :
  r <> r' -> Heap.deref (Heap.assign h r l) r' = Heap.deref h r'.
Proof.
  unfold Heap.deref, Heap.assign. revert r r'.
  induction h as [| x h IH]; intros [| r] [| r'] H; cbn;
    try reflexivity; try congruence.
  apply IH. congruence.
Qed.

Lemma deref_assign_same (h : Heap.store) (r : Heap.ref) (l : list Q) :
  r < length h -> Heap.deref (Heap.assign h r l) r = l.
Proof.
  unfold Heap.deref, Heap.assign. revert r.
  induction h as [| x h IH]; intros [| r] H; cbn in *; try lia; auto.
  apply IH. lia.
Qed.

Lemma deref_nonempty_valid (h : Heap.store) (r : Heap.ref) :
  Heap.deref h r <> [] -> r < length h.
Proof.
  intros H. destruct (Nat.lt_ge_cases r (length h)) as [Hlt | Hge]; auto.
  exfalso. apply H. unfold Heap.deref. now apply nth_overflow.
Qed.

(** When the two width lists are different objects, the store-level
    [_adjust_lane_widths] does to the object what the value-level one
    does to the value. *)
Lemma heap_adjust_refines (h : Heap.store) (o : Heap.LaneDefObj) :
  Heap.o_lane_start_widths o <> Heap.o_lane_end_widths o ->
  Heap.o_lane_start_widths o < length h ->
  Heap.o_lane_end_widths o < length h ->
  Heap.view (Heap._adjust_lane_widths h o) o
  = _adjust_lane_widths (Heap.view h o).
Proof.
  intros Hne Hs He.
  unfold Heap._adjust_lane_widths, _adjust_lane_widths. cbn.
  destruct (truthy (Heap.o_sub_lane o)); [| reflexivity].
  destruct (nonempty (Heap.deref h (Heap.o_lane_end_widths o)) && _).
  - unfold Heap.view, Heap.insert, set_end_widths. cbn.
    rewrite deref_assign_same by assumption.
    rewrite deref_assign_other by congruence. reflexivity.
  - destruct (nonempty (Heap.deref h (Heap.o_lane_start_widths o)) && _);
      [| reflexivity].
    unfold Heap.view, Heap.insert, set_start_widths. cbn.
    rewrite deref_assign_same by assumption.
    rewrite deref_assign_other by congruence. reflexivity.
Qed.

(** The constructor stores a non-empty [lane_end_widths] argument
    itself: a caller passing one list object for both arguments gets a
    descriptor whose two width lists are the same object. *)
Lemma init_keeps_given_end_list (h : Heap.store) (s e : Q) (ns ne : Z)
  (sub : option Z) (sw ew : Heap.ref) :
  Heap.deref h ew <> [] ->
  Heap.init h s e ns ne sub sw ew
  = (h, Heap.mkLaneDefObj s e ns ne sub sw ew).
Proof.
  intros H. unfold Heap.init.
  destruct (Heap.deref h ew); [congruence | reflexivity].
Qed.

(** C10. A [LaneDef] constructed with a non-empty [lane_start_widths]
    and an empty [lane_end_widths] holds, as [lane_end_widths], a new
    list object with the same elements as [lane_start_widths]: the two
    references differ, inserting anything into [lane_end_widths] leaves
    [lane_start_widths] as it was, and so does [_adjust_lane_widths]
    whenever it pads [lane_end_widths] (the merge case). *)
Theorem init_copies_start_widths (h : Heap.store) (s e : Q) (ns ne : Z)
  (sub : option Z) (sw ew : Heap.ref) :
  Heap.deref h sw <> [] ->
  Heap.deref h ew = [] ->
  let h' := fst (Heap.init h s e ns ne sub sw ew) in
  let o := snd (Heap.init h s e ns ne sub sw ew) in
  Heap.o_lane_start_widths o = sw /\
  Heap.o_lane_end_widths o <> Heap.o_lane_start_widths o /\
  Heap.deref h' (Heap.o_lane_start_widths o) = Heap.deref h sw /\
  Heap.deref h' (Heap.o_lane_end_widths o) = Heap.deref h sw /\
  (forall (i : Z) (x : Q),
      let h'' := Heap.insert h' (Heap.o_lane_end_widths o) i x in
      Heap.deref h'' (Heap.o_lane_start_widths o) = Heap.deref h sw /\
      Heap.deref h'' (Heap.o_lane_end_widths o)
        = py_insert (Heap.deref h sw) i x) /\
  (truthy sub = true ->
   (Z.of_nat (length (Heap.deref h sw)) <? ns)%Z = true ->
   let h'' := Heap._adjust_lane_widths h' o in
   Heap.deref h'' (Heap.o_lane_start_widths o) = Heap.deref h sw /\
   length (Heap.deref h'' (Heap.o_lane_end_widths o))
     = S (length (Heap.deref h sw))).
Proof.
  intros Hsw Hew.
  pose proof (deref_nonempty_valid h sw Hsw) as Hvalid.
  unfold Heap.init. rewrite Hew. cbn [nonempty].
  change (let (h', copy) := Heap.alloc h (Heap.deref h sw) in
          (h', Heap.mkLaneDefObj s e ns ne sub sw copy))
    with (fst (Heap.alloc h (Heap.deref h sw)),
          Heap.mkLaneDefObj s e ns ne sub sw
            (snd (Heap.alloc h (Heap.deref h sw)))).
  cbn [fst snd Heap.o_lane_start_widths Heap.o_lane_end_widths].
  set (h' := fst (Heap.alloc h (Heap.deref h sw))).
  set (r := snd (Heap.alloc h (Heap.deref h sw))).
  assert (Hr : r = length h) by reflexivity.
  assert (Hlen : length h' = S (length h)).
  { unfold h', Heap.alloc. cbn. rewrite length_app. cbn. lia. }
  assert (Hold : Heap.deref h' sw = Heap.deref h sw)
    by (apply deref_alloc_old; assumption).
  assert (Hnew : Heap.deref h' r = Heap.deref h sw)
    by (apply deref_alloc_new).
  assert (Hins : forall (i : Z) (x : Q),
             Heap.deref (Heap.insert h' r i x) sw = Heap.deref h sw /\
             Heap.deref (Heap.insert h' r i x) r
               = py_insert (Heap.deref h sw) i x).
  { intros i x. unfold Heap.insert. split.
    - rewrite deref_assign_other by lia. exact Hold.
    - rewrite deref_assign_same by lia. now rewrite Hnew. }
  repeat split; try assumption; try lia; try apply Hins.
  - unfold Heap._adjust_lane_widths.
    cbn [Heap.o_sub_lane Heap.o_lane_end_widths Heap.o_lane_start_widths
         Heap.o_n_lanes_start Heap.o_n_lanes_end].
    rewrite H, Hnew, H0.
    destruct (Heap.deref h sw) eqn:E; [congruence |].
    cbn [nonempty andb]. apply Hins.
  - unfold Heap._adjust_lane_widths.
    cbn [Heap.o_sub_lane Heap.o_lane_end_widths Heap.o_lane_start_widths
         Heap.o_n_lanes_start Heap.o_n_lanes_end].
    rewrite H, Hnew, H0.
    destruct (Heap.deref h sw) eqn:E; [congruence |].
    cbn [nonempty andb].
    destruct (Hins (Z.abs match sub with Some z => z | None => 0 end - 1)%Z
                0%Q) as [_ ->].
    apply py_insert_length.
Qed.

(** [LaneDef(0, 10, 4, 3, 4, lane_start_widths=[3, 3, 3])] in a store
    holding that list and the empty default list. *)
Lemma init_copies_start_widths_witness :
  let h := [[3; 3; 3]%Q; []] in
  let h' := fst (Heap.init h 0 10 4 3 (Some 4%Z) 0 1) in
  let o := snd (Heap.init h 0 10 4 3 (Some 4%Z) 0 1) in
  Heap.o_lane_end_widths o <> Heap.o_lane_start_widths o /\
  Heap.deref (Heap._adjust_lane_widths h' o) (Heap.o_lane_start_widths o)
  = [3; 3; 3]%Q.
Proof.
  pose proof (init_copies_start_widths [[3; 3; 3]%Q; []] 0 10 4 3
                (Some 4%Z) 0 1 ltac:(discriminate) eq_refl) as H.
  cbv zeta in H.
  destruct H as [_ [Hne [_ [_ [_ Hadj]]]]].
  split; [exact Hne | exact (proj1 (Hadj eq_refl eq_refl))].
Defined.

(* ================================================================= *)
(** ** One turn of the sweep *)

Lemma check_s_start (w : Q) (d : LaneDef) :
  s_start (_check_lane_widths w d) = s_start d.
Proof.
  unfold _check_lane_widths.
  destruct (nonempty (lane_start_widths d)); cbn;
    match goal with |- context [nonempty ?l] => destruct (nonempty l) end;
    reflexivity.
Qed.

Lemma check_s_end (w : Q) (d : LaneDef) :
  s_end (_check_lane_widths w d) = s_end d.
Proof.
  unfold _check_lane_widths.
  destruct (nonempty (lane_start_widths d)); cbn;
    match goal with |- context [nonempty ?l] => destruct (nonempty l) end;
    reflexivity.
Qed.

Lemma probe_side_add (tot : Q) (side : list LaneDef) (it : nat)
  (c : option Z) (p : Q) (d : LaneDef) :
  probe_side tot side it c p = Ok (AddHere d) <->
  nth_error side it = Some d /\ Qeq_bool (s_start d) p = true.
Proof.
  unfold probe_side. split.
  - destruct (nth_error side it) as [d' |] eqn:E.
    + destruct (Qeq_bool (s_start d') p) eqn:Q; intros [= <-]; auto.
    + destruct c; [discriminate |].
      destruct (py_getitem side (-1)); discriminate.
  - intros [-> ->]. reflexivity.
Qed.

Lemma probe_side_later (tot : Q) (side : list LaneDef) (it : nat)
  (c : option Z) (p next : Q) (n : Z) :
  probe_side tot side it c p = Ok (Later next n) ->
  (exists d, nth_error side it = Some d /\
             Qeq_bool (s_start d) p = false /\
             next = s_start d /\ n = n_lanes_start d) \/
  (nth_error side it = None /\ next = tot /\
   (c = Some n \/
    c = None /\ exists d, py_getitem side (-1) = Ok d /\ n = n_lanes_end d)).
Proof.
  unfold probe_side.
  destruct (nth_error side it) as [d |] eqn:E.
  - destruct (Qeq_bool (s_start d) p) eqn:Q; intros [= <- <-].
    left. exists d. auto.
  - destruct c as [k |].
    + intros [= <- <-]. right. auto.
    + destruct (py_getitem side (-1)) as [d |] eqn:G; cbn; [| discriminate].
      intros [= <- <-]. right. repeat split; auto. right. eauto.
Qed.

(** C4 (as amended). When both sides have a descriptor starting at the
    current position, one turn of the loop consumes both (each is
    normalised and appended to its timeline, both cursors advance) and
    the position advances to the left descriptor's [s_end]; that is
    [min(left.s_end, right.s_end)] whenever the left descriptor does not
    end after the right one. *)
Theorem sweep_step_both_sides (cr cl : option Z) (tot w : Q)
  (st : sweep_state) (dr dl : LaneDef) :
  nth_error (right st) (r_it st) = Some dr ->
  nth_error (left st) (l_it st) = Some dl ->
  (s_start dr == present_s st)%Q ->
  (s_start dl == present_s st)%Q ->
  exists st',
    sweep_step cr cl tot w st = Ok st' /\
    r_it st' = r_it st + 1 /\
    l_it st' = l_it st + 1 /\
    retlanes_right st' = retlanes_right st ++ [_check_lane_widths w dr] /\
    retlanes_left st' = retlanes_left st ++ [_check_lane_widths w dl] /\
    present_s st' = s_end dl /\
    ((s_end dl <= s_end dr)%Q ->
     (present_s st' == Qmin (s_end dl) (s_end dr))%Q).
Proof.
  intros Hr Hl Er El.
  apply Qeq_bool_iff in Er. apply Qeq_bool_iff in El.
  unfold sweep_step.
  rewrite (proj2 (probe_side_add tot _ _ cr _ dr) (conj Hr Er)).
  rewrite (proj2 (probe_side_add tot _ _ cl _ dl) (conj Hl El)).
  cbn [bind]. eexists. split; [reflexivity |].
  cbn [r_it l_it retlanes_right retlanes_left present_s].
  rewrite check_s_end. repeat split.
  intros Hle. symmetry. now apply Q.min_l.
Qed.

Lemma sweep_step_both_sides_witness :
  exists st',
    sweep_step None None 60 3
      (mkSweep [mkLaneDef 0 20 1 2 (Some (-2)%Z) [] []]
               [mkLaneDef 0 20 2 3 (Some 3%Z) [] []] [] [] 0 0 0)
    = Ok st' /\ present_s st' = 20%Q.
Proof.
  destruct (sweep_step_both_sides None None 60 3
              (mkSweep [mkLaneDef 0 20 1 2 (Some (-2)%Z) [] []]
                       [mkLaneDef 0 20 2 3 (Some 3%Z) [] []] [] [] 0 0 0)
              (mkLaneDef 0 20 1 2 (Some (-2)%Z) [] [])
              (mkLaneDef 0 20 2 3 (Some 3%Z) [] [])
              eq_refl eq_refl ltac:(reflexivity) ltac:(reflexivity))
    as [st' [Hstep [_ [_ [_ [_ [Hs _]]]]]]].
  exists st'. split; [exact Hstep | exact Hs].
Defined.

(** C4 (as stated) fails: with a left descriptor on [0, 10) and a right
    one on [0, 5), both are consumed and the position becomes [10], not
    [min(10, 5)]. *)
Lemma both_sides_advance_past_min :
  let dr := mkLaneDef 0 5 1 1 None [] [] in
  let dl := mkLaneDef 0 10 1 1 None [] [] in
  exists st',
    sweep_step None None 10 3 (mkSweep [dr] [dl] [] [] 0 0 0) = Ok st' /\
    r_it st' = 1 /\ l_it st' = 1 /\
    ~ (present_s st' == Qmin (s_end dl) (s_end dr))%Q.
Proof.
  cbv zeta. eexists. split; [reflexivity |].
  cbn [r_it l_it present_s]. repeat split.
  unfold _check_lane_widths. cbn. intros H. discriminate H.
Qed.

(* ================================================================= *)
(** ** The sweep ends *)

Lemma nth_error_pending {A : Type} (l : list A) (i : nat) (x : A) :
  nth_error l i = Some x -> i < length l.
Proof. intros H. apply nth_error_Some. congruence. Qed.

(** A turn of the loop either consumes a descriptor, or moves to the
    start of the next descriptor or to the end of the road; the second
    happens only where no descriptor starts. *)
Lemma sweep_step_progress (cr cl : option Z) (tot w : Q)
  (st st' : sweep_state) :
  sweep_step cr cl tot w st = Ok st' ->
  pending st' < pending st \/
  (pending st' = pending st /\ settled tot st' /\
   (forall d, nth_error (right st) (r_it st) = Some d ->
              Qeq_bool (s_start d) (present_s st) = false) /\
   (forall d, nth_error (left st) (l_it st) = Some d ->
              Qeq_bool (s_start d) (present_s st) = false)).
Proof.
  unfold sweep_step.
  destruct (probe_side tot (right st) (r_it st) cr (present_s st))
    as [pr |] eqn:Pr; cbn [bind]; [| discriminate].
  destruct (probe_side tot (left st) (l_it st) cl (present_s st))
    as [pl |] eqn:Pl; cbn [bind]; [| discriminate].
  destruct pl as [dl | nl kl], pr as [dr | nr kr].
  - (* both sides *)
    apply probe_side_add in Pr as [Hr _]. apply probe_side_add in Pl as [Hl _].
    apply nth_error_pending in Hr, Hl.
    intros [= <-]. left. unfold pending. cbn.
    rewrite !set_nth_length. lia.
  - (* left only *)
    apply probe_side_add in Pl as [Hl _]. apply nth_error_pending in Hl.
    intros [= <-]. left. unfold pending. cbn.
    rewrite !set_nth_length. lia.
  - (* right only *)
    apply probe_side_add in Pr as [Hr _]. apply nth_error_pending in Hr.
    intros [= <-]. left. unfold pending. cbn.
    rewrite !set_nth_length. lia.
  - (* neither *)
    destruct (filler w cr (right st) (r_it st) (present_s st)
                (Qmin nl nr) kr) as [fr |]; cbn [bind]; [| discriminate].
    destruct (filler w cl (left st) (l_it st) (present_s st)
                (Qmin nl nr) kl) as [fl |]; cbn [bind]; [| discriminate].
    intros [= <-]. right. split; [reflexivity |]. split.
    + unfold settled. cbn [present_s right left r_it l_it].
      destruct (Q.min_dec nl nr) as [E | E].
      * apply probe_side_later in Pl
          as [[d [Hd [_ [-> _]]]] | [_ [-> _]]].
        -- right. right. exists d. split; [exact Hd |].
           apply Qeq_bool_iff. now symmetry.
        -- left. apply Qltb_false. rewrite E. apply Qle_refl.
      * apply probe_side_later in Pr
          as [[d [Hd [_ [-> _]]]] | [_ [-> _]]].
        -- right. left. exists d. split; [exact Hd |].
           apply Qeq_bool_iff. now symmetry.
        -- left. apply Qltb_false. rewrite E. apply Qle_refl.
    + split; intros d Hd.
      * apply probe_side_later in Pr
          as [[d' [Hd' [Hq _]]] | [Hn _]]; congruence.
      * apply probe_side_later in Pl
          as [[d' [Hd' [Hq _]]] | [Hn _]]; congruence.
Qed.

(** Twice the number of pending descriptors, plus two, is enough fuel;
    one turn less is needed where the sweep is settled. *)
Lemma sweep_fuel_enough (cr cl : option Z) (tot w : Q) (fuel : nat) :
  forall st : sweep_state,
    2 * pending st + 2 <= fuel \/
    (settled tot st /\ 2 * pending st + 1 <= fuel) ->
    exists r, sweep cr cl tot w fuel st = Some r.
Proof.
  induction fuel as [| fuel IH]; intros st Hfuel.
  - exfalso. lia.
  - cbn [sweep].
    destruct (Qltb (present_s st) tot) eqn:Hlt; [| eauto].
    destruct (sweep_step cr cl tot w st) as [st' |] eqn:Hstep; [| eauto].
    apply IH.
    destruct (sweep_step_progress _ _ _ _ _ _ Hstep)
      as [Hless | [Hsame [Hset [Hr Hl]]]].
    + left. lia.
    + destruct Hfuel as [Hfuel | [[Hend | [[d [Hd Hq]] | [d [Hd Hq]]]] _]].
      * right. split; [exact Hset | lia].
      * congruence.
      * rewrite (Hr d Hd) in Hq. discriminate.
      * rewrite (Hl d Hd) in Hq. discriminate.
Qed.

Lemma create_lane_lists_returns (right left : lane_arg) (tot w : Q) :
  exists r, _create_lane_lists right left tot w = Some r.
Proof.
  unfold _create_lane_lists.
  destruct (sweep_fuel_enough (const_lanes right) (const_lanes left) tot w
              (sweep_fuel (def_list right) (def_list left))
              (sweep_init right left)) as [r Hr].
  - left. unfold pending, sweep_fuel, sweep_init. cbn. lia.
  - rewrite Hr. destruct r; eauto.
Qed.

(** C7. For every input (in particular every positive road length and
    all finite descriptor lists) the build ends: the sweep of
    [_create_lane_lists] leaves its loop within the fuel [sweep_fuel]
    gives it, and [create_lanes_merge_split] produces an outcome, a lane
    structure or an exception. *)
Theorem create_lanes_merge_split_terminates
  (right_lane_def left_lane_def : lane_arg) (road_length : Q)
  (center_road_mark : RoadMark) (lane_width : Q)
  (lane_width_end : option Q) :
  (exists lists,
      _create_lane_lists right_lane_def left_lane_def road_length lane_width
      = Some lists) /\
  (exists outcome,
      create_lanes_merge_split right_lane_def left_lane_def road_length
        center_road_mark lane_width lane_width_end = Some outcome).
Proof.
  destruct (create_lane_lists_returns right_lane_def left_lane_def
              road_length lane_width) as [r Hr].
  split; [eauto |].
  unfold create_lanes_merge_split. rewrite Hr.
  destruct r as [[rl ll] | e]; eauto.
Qed.

(* ================================================================= *)
(** ** Loops that collect *)

Lemma for_each_app {A S : Type} (xs ys : list A) (body : S -> A -> result S)
  (acc : S) :
  for_each (xs ++ ys) body acc
  = (acc' <- for_each xs body acc ;; for_each ys body acc').
Proof.
  revert acc. induction xs as [| x xs IH]; intros acc; cbn; [reflexivity |].
  destruct (body acc x); cbn; [apply IH | reflexivity].
Qed.

(** A loop whose body appends what [g] yields collects [flat_map]. *)
Lemma for_each_collect {A B : Type} (xs : list A) (g : A -> result (list B))
  (h : A -> list B) (acc : list B) :
  (forall x, In x xs -> g x = Ok (h x)) ->
  for_each xs (fun acc x => ys <- g x ;; Ok (acc ++ ys)) acc
  = Ok (acc ++ flat_map h xs).
Proof.
  revert acc. induction xs as [| x xs IH]; intros acc H; cbn.
  - now rewrite app_nil_r.
  - rewrite (H x) by (now left). cbn.
    rewrite IH by (intros y Hy; apply H; now right).
    now rewrite app_assoc.
Qed.

Lemma for_each_ext {A S : Type} (xs : list A) (f g : S -> A -> result S)
  (acc : S) :
  (forall a x, In x xs -> f a x = g a x) ->
  for_each xs f acc = for_each xs g acc.
Proof.
  revert acc. induction xs as [| x xs IH]; intros acc H; cbn; [reflexivity |].
  rewrite (H acc x) by (now left).
  destruct (g acc x); cbn; [| reflexivity].
  apply IH. intros a' y Hy. apply H. now right.
Qed.

(** A loop whose body appends one element collects [map]. *)
Lemma for_each_map {A B : Type} (xs : list A) (g : A -> result B)
  (f : A -> B) (acc : list B) :
  (forall x, In x xs -> g x = Ok (f x)) ->
  for_each xs (fun acc x => y <- g x ;; Ok (acc ++ [y])) acc
  = Ok (acc ++ map f xs).
Proof.
  revert acc. induction xs as [| x xs IH]; intros acc H; cbn.
  - now rewrite app_nil_r.
  - rewrite (H x) by (now left). cbn.
    rewrite IH by (intros y Hy; apply H; now right).
    now rewrite <- app_assoc.
Qed.

(** What a collecting loop returns, whatever its body yields. *)
Lemma for_each_map_inv {A B : Type} (xs : list A) (g : A -> result B)
  (acc out : list B) :
  for_each xs (fun acc x => y <- g x ;; Ok (acc ++ [y])) acc = Ok out ->
  exists ys, out = acc ++ ys /\ Forall2 (fun x y => g x = Ok y) xs ys.
Proof.
  revert acc. induction xs as [| x xs IH]; intros acc; cbn.
  - intros [= <-]. exists []. split; [now rewrite app_nil_r | constructor].
  - destruct (g x) as [y |] eqn:G; cbn; [| discriminate].
    intros H. apply IH in H as [ys [-> HF]].
    exists (y :: ys). split; [now rewrite <- app_assoc |].
    constructor; assumption.
Qed.

(* ================================================================= *)
(** ** Constant lane counts on both sides *)

Lemma Qmin_same (x : Q) : Qmin x x = x.
Proof.
  unfold Qmin, GenericMinMax.gmin. destruct (x ?= x)%Q; reflexivity.
Qed.

Lemma default_widths_length (w : Q) (n : Z) :
  length (default_widths w n) = Z.to_nat n.
Proof. unfold default_widths. now rewrite length_map, py_range_length. Qed.

Lemma default_widths_getitem (w : Q) (n i : Z) :
  (0 <= i < n)%Z -> py_getitem (default_widths w n) i = Ok w.
Proof.
  intros H. unfold py_getitem.
  rewrite norm_index_in_range by (rewrite default_widths_length; lia).
  cbn [bind]. unfold default_widths, py_range.
  rewrite map_map.
  assert (Hk : Z.to_nat i < length (seq 0 (Z.to_nat n)))
    by (rewrite length_seq; lia).
  rewrite nth_error_map.
  destruct (nth_error (seq 0 (Z.to_nat n)) (Z.to_nat i)) eqn:E;
    [reflexivity |].
  apply nth_error_None in E. lia.
Qed.

Lemma default_widths_nonempty (w : Q) (n : Z) :
  (0 < n)%Z -> nonempty (default_widths w n) = true.
Proof.
  intros H. pose proof (default_widths_length w n) as L.
  destruct (default_widths w n); [cbn in L; lia | reflexivity].
Qed.

Lemma default_filler_fields (w s e : Q) (n : Z) :
  default_filler w s e n
  = mkLaneDef s e n n None (default_widths w n) (default_widths w n).
Proof.
  unfold default_filler, LaneDef_init.
  now destruct (nonempty (default_widths w n)).
Qed.

Lemma adjust_default_filler (w s e : Q) (n : Z) :
  _adjust_lane_widths (default_filler w s e n) = default_filler w s e n.
Proof. apply adjust_falsy. now rewrite default_filler_fields. Qed.

Lemma Zgtb_irrefl (n : Z) : (n >? n)%Z = false.
Proof. rewrite Z.gtb_ltb. apply Z.ltb_irrefl. Qed.

(** Without a count change and with widths that do not change, the
    solver is asked for a transition from [w] to [w] over a positive
    length: the lane has constant width. *)
Lemma default_transition_constant (w s e : Q) (n i : Z) (rm : RoadMark) :
  (s < e)%Q -> (0 <= i < n)%Z ->
  exists lane,
    transition_lane (default_filler w s e n) i false rm = Ok lane /\
    constant_width w lane.
Proof.
  intros Hlen Hi. rewrite default_filler_fields.
  unfold transition_lane. cbn [lane_start_widths lane_end_widths s_start s_end].
  rewrite default_widths_getitem by assumption. cbn [bind].
  unfold get_coeffs_for_poly3.
  replace (Qle_bool (e - s) 0) with false.
  2: { symmetry. apply not_true_iff_false. rewrite Qle_bool_iff. lra. }
  cbn [bind poly_lane]. eexists. split; [reflexivity |].
  unfold constant_width. cbn [lane_a lane_b lane_c lane_d].
  repeat split; try reflexivity; unfold Qdiv; ring.
Qed.

Lemma default_plain_lane_constant (w s e : Q) (n i : Z)
  (lwe : option Q) (rm : RoadMark) :
  (s < e)%Q -> (0 <= i < n)%Z ->
  (forall x, lwe = Some x -> (w == x)%Q) ->
  exists lane,
    plain_lane (default_filler w s e n) w lwe i rm = Ok lane /\
    constant_width w lane.
Proof.
  intros Hlen Hi Hlwe. unfold plain_lane.
  assert (Hne : nonempty (lane_start_widths (default_filler w s e n)) = true).
  { rewrite default_filler_fields. cbn. apply default_widths_nonempty. lia. }
  destruct lwe as [x |].
  - replace (Qeq_bool w x) with true
      by (symmetry; apply Qeq_bool_iff; now apply Hlwe).
    cbn [negb]. rewrite Hne. now apply default_transition_constant.
  - rewrite Hne. now apply default_transition_constant.
Qed.

Lemma default_side_lane_constant (w s e : Q) (n i : Z) (lwe : option Q) :
  (s < e)%Q -> (0 <= i < n)%Z ->
  (forall x, lwe = Some x -> (w == x)%Q) ->
  (exists lane,
      right_lane_at (default_filler w s e n) w lwe i = Ok lane /\
      constant_width w lane) /\
  (exists lane,
      left_lane_at (default_filler w s e n) w lwe i = Ok lane /\
      constant_width w lane).
Proof.
  intros Hlen Hi Hlwe.
  unfold right_lane_at, left_lane_at.
  pose proof (default_filler_fields w s e n) as F.
  assert (Hs : n_lanes_start (default_filler w s e n) = n) by now rewrite F.
  assert (He : n_lanes_end (default_filler w s e n) = n) by now rewrite F.
  rewrite Hs, He, Zgtb_irrefl, Z.ltb_irrefl. cbn [and_at bind].
  split; now apply default_plain_lane_constant.
Qed.

(** The lanes of a side built from a default filler. *)
Lemma default_side_lanes (w s e : Q) (n : Z) (lwe : option Q) :
  (s < e)%Q ->
  (forall x, lwe = Some x -> (w == x)%Q) ->
  (exists lanes,
      side_lanes_of right_lane_at (default_filler w s e n) w lwe = Ok lanes /\
      length lanes = Z.to_nat n /\ Forall (constant_width w) lanes) /\
  (exists lanes,
      side_lanes_of left_lane_at (default_filler w s e n) w lwe = Ok lanes /\
      length lanes = Z.to_nat n /\ Forall (constant_width w) lanes).
Proof.
  intros Hlen Hlwe.
  pose proof (default_filler_fields w s e n) as F.
  assert (Hs : n_lanes_start (default_filler w s e n) = n) by now rewrite F.
  assert (He : n_lanes_end (default_filler w s e n) = n) by now rewrite F.
  unfold side_lanes_of. rewrite Hs, He, Z.max_id.
  assert (Hall : forall (f : LaneDef -> Q -> option Q -> Z -> result Lane),
             (forall i, (0 <= i < n)%Z ->
                        exists lane,
                          f (default_filler w s e n) w lwe i = Ok lane /\
                          constant_width w lane) ->
             exists lanes,
               for_each (py_range n)
                 (fun lanes i =>
                    lane <- f (default_filler w s e n) w lwe i ;;
                    Ok (lanes ++ [lane])) [] = Ok lanes /\
               length lanes = Z.to_nat n /\
               Forall (constant_width w) lanes).
  { intros f Hf.
    set (dflt := mkLane w 0 0 0 []).
    set (pick := fun i => match f (default_filler w s e n) w lwe i with
                          | Ok lane => lane
                          | Raise _ => dflt
                          end).
    exists (map pick (py_range n)). split; [| split].
    - rewrite (for_each_map (py_range n)
                 (f (default_filler w s e n) w lwe) pick []); [reflexivity |].
      intros i Hi. apply in_py_range in Hi.
      destruct (Hf i Hi) as [lane [Hl _]]. unfold pick. now rewrite Hl.
    - now rewrite length_map, py_range_length.
    - apply Forall_map, Forall_forall. intros i Hi. apply in_py_range in Hi.
      destruct (Hf i Hi) as [lane [Hl Hc]]. unfold pick. now rewrite Hl. }
  split; apply Hall; intros i Hi;
    apply (default_side_lane_constant w s e n i lwe Hlen Hi Hlwe).
Qed.

Lemma create_lane_lists_constant (nr nl : Z) (L w : Q) :
  (0 < L)%Q ->
  _create_lane_lists (IntArg nr) (IntArg nl) L w
  = Some (Ok ([default_filler w 0 L nr], [default_filler w 0 L nl])).
Proof.
  intros HL.
  assert (Hstep : sweep_step (Some nr) (Some nl) L w
                    (mkSweep [] [] [] [] 0 0 0)
                  = Ok (mkSweep [] [] [default_filler w 0 L nr]
                          [default_filler w 0 L nl] L 0 0)).
  { unfold sweep_step, probe_side, filler.
    cbn [right left r_it l_it present_s nth_error bind retlanes_right
         retlanes_left app].
    now rewrite Qmin_same. }
  unfold _create_lane_lists, sweep_fuel, sweep_init.
  cbn [def_list const_lanes length Nat.add Nat.mul sweep present_s].
  replace (Qltb 0 L) with true by (symmetry; now apply Qltb_true).
  rewrite Hstep. cbn [present_s].
  replace (Qltb L L) with false by (symmetry; apply Qltb_false, Qle_refl).
  cbn [retlanes_right retlanes_left map].
  now rewrite !adjust_default_filler.
Qed.

(** C9. With a constant lane count on both sides, a positive road
    length and no distinct end-of-road width, the expansion yields the
    single interval from [0] to [road_length] on each side and the
    build yields exactly one lane section, at [s = 0], with as many
    lanes per side as the counts say, every lane of constant width
    [lane_width]; there is nothing to link. *)
Theorem constant_counts_one_constant_section (nr nl : Z) (road_length : Q)
  (center_road_mark : RoadMark) (lane_width : Q)
  (lane_width_end : option Q) :
  (0 < road_length)%Q ->
  (forall e, lane_width_end = Some e -> (lane_width == e)%Q) ->
  exists sec,
    _create_lane_lists (IntArg nr) (IntArg nl) road_length lane_width
    = Some (Ok ([default_filler lane_width 0 road_length nr],
                [default_filler lane_width 0 road_length nl])) /\
    create_lanes_merge_split (IntArg nr) (IntArg nl) road_length
      center_road_mark lane_width lane_width_end
    = Some (Ok (mkLanes [sec] [])) /\
    section_s sec = 0%Q /\
    length (rightlanes sec) = Z.to_nat nr /\
    length (leftlanes sec) = Z.to_nat nl /\
    Forall (constant_width lane_width) (rightlanes sec) /\
    Forall (constant_width lane_width) (leftlanes sec).
Proof.
  intros HL Hlwe.
  pose proof (create_lane_lists_constant nr nl road_length lane_width HL)
    as Hlists.
  destruct (default_side_lanes lane_width 0 road_length nr lane_width_end
              HL Hlwe) as [[rights [Hr [Hrlen Hrc]]] _].
  destruct (default_side_lanes lane_width 0 road_length nl lane_width_end
              HL Hlwe) as [_ [lefts [Hl [Hllen Hlc]]]].
  exists (mkLaneSection 0 (mkLane 0 0 0 0 [center_road_mark]) rights lefts).
  split; [exact Hlists |]. split.
  - assert (Hsecs : build_lanesections
                      [default_filler lane_width 0 road_length nr]
                      [default_filler lane_width 0 road_length nl]
                      center_road_mark lane_width lane_width_end
                    = Ok [mkLaneSection 0 (mkLane 0 0 0 0 [center_road_mark])
                            rights lefts]).
    { unfold build_lanesections.
      change (py_range (Z.of_nat (length [default_filler lane_width 0
                                            road_length nl])))
        with [0%Z].
      cbn [for_each]. unfold build_lanesection.
      change (py_getitem [default_filler lane_width 0 road_length nl] 0)
        with (Ok (default_filler lane_width 0 road_length nl)).
      change (py_getitem [default_filler lane_width 0 road_length nr] 0)
        with (Ok (default_filler lane_width 0 road_length nr)).
      cbn [bind]. rewrite Hr, Hl. cbn [bind app].
      now rewrite default_filler_fields. }
    unfold create_lanes_merge_split. rewrite Hlists, Hsecs. reflexivity.
  - cbn. auto.
Qed.

(** Two lanes on the right, one on the left, on a road of length 60
    with lane width 3. *)
Lemma constant_counts_one_constant_section_witness :
  exists sec,
    create_lanes_merge_split (IntArg 2) (IntArg 1) 60 std_roadmark_solid 3
      None
    = Some (Ok (mkLanes [sec] [])) /\
    length (rightlanes sec) = 2 /\
    Forall (constant_width 3) (rightlanes sec).
Proof.
  destruct (constant_counts_one_constant_section 2 1 60 std_roadmark_solid
              3 None ltac:(reflexivity) ltac:(discriminate))
    as [sec [_ [Hb [_ [Hr [_ [Hc _]]]]]]].
  exists sec. split; [exact Hb |]. split; [exact Hr | exact Hc].
Defined.

(* ================================================================= *)
(** ** The linker at one boundary *)

Lemma for_each_flat {A B : Type} (xs : list A)
  (body : list B -> A -> result (list B)) (h : A -> list B) (acc : list B) :
  (forall a x, In x xs -> body a x = Ok (a ++ h x)) ->
  for_each xs body acc = Ok (acc ++ flat_map h xs).
Proof.
  revert acc. induction xs as [| x xs IH]; intros acc H; cbn.
  - now rewrite app_nil_r.
  - rewrite (H acc x) by (now left). cbn.
    rewrite IH by (intros a y Hy; apply H; now right).
    now rewrite app_assoc.
Qed.

Lemma NoDup_flat_map_key {A B K : Type} (key : B -> K) (h : A -> list B)
  (xs : list A) :
  NoDup xs ->
  (forall x, In x xs -> NoDup (map key (h x))) ->
  (forall x y a b, In x xs -> In y xs -> In a (h x) -> In b (h y) ->
                   key a = key b -> x = y) ->
  NoDup (map key (flat_map h xs)).
Proof.
  induction xs as [| x xs IH]; intros Hnd Hone Hinj; cbn; [constructor |].
  inversion Hnd as [| ? ? Hx Hxs]; subst.
  rewrite map_app. apply NoDup_app.
  - apply Hone. now left.
  - apply IH; auto.
    + intros y Hy. apply Hone. now right.
    + intros y z a b Hy Hz. apply Hinj; now right.
  - intros kk Hk1 Hk2.
    apply in_map_iff in Hk1 as [a [Ha1 Ha2]].
    apply in_map_iff in Hk2 as [b [Hb1 Hb2]].
    apply in_flat_map in Hb2 as [y [Hy Hb2]].
    assert (x = y).
    { apply (Hinj x y a b); auto; [now left | now right | congruence]. }
    subst y. contradiction.
Qed.

Lemma lane_at_section (sd : side) (secs : list LaneSection) (k : nat)
  (sec : LaneSection) (j : Z) :
  nth_error secs k = Some sec ->
  lane_at sd secs (Z.of_nat k) j
  = section_lane k sd (length (side_lanes sd sec)) j.
Proof.
  intros H. unfold lane_at, section_lane.
  rewrite norm_index_in_range
    by (apply nth_error_pending in H; lia).
  cbn [bind]. rewrite Nat2Z.id, H. reflexivity.
Qed.

Lemma section_lane_in_range (k : nat) (sd : side) (n : nat) (j : Z) :
  (0 <= j < Z.of_nat n)%Z ->
  section_lane k sd n j = Ok (mkLaneId k sd (Z.to_nat j)).
Proof.
  intros H. unfold section_lane. now rewrite norm_index_in_range.
Qed.

Lemma section_lane_past_end (k : nat) (sd : side) (n : nat) (j : Z) :
  (Z.of_nat n <= j)%Z -> section_lane k sd n j = Raise IndexError.
Proof.
  intros H. unfold section_lane. now rewrite norm_index_past_end.
Qed.

Lemma section_lane_raises (k : nat) (sd : side) (n : nat) (j : Z) (e : exn) :
  section_lane k sd n j = Raise e -> e = IndexError.
Proof.
  unfold section_lane. destruct (norm_index n j) eqn:E; cbn;
    [discriminate |].
  intros [= <-]. eapply norm_index_raises; eauto.
Qed.

Section OneChange.

Variables pre succ : Z -> result lane_id.

Lemma ltb_swap (sub j : Z) : (sub <? - (j + 1))%Z = (j <? - sub - 1)%Z.
Proof.
  destruct (Z.ltb_spec sub (- (j + 1))), (Z.ltb_spec j (- sub - 1)); lia.
Qed.

Lemma gtb_swap (sub j : Z) : (sub >? - (j + 1))%Z = (j >? - sub - 1)%Z.
Proof.
  rewrite !Z.gtb_ltb.
  destruct (Z.ltb_spec (- (j + 1)) sub), (Z.ltb_spec (- sub - 1) j); lia.
Qed.

Lemma ltb_shift (sub j : Z) : (sub <? j + 1)%Z = (j >? sub - 1)%Z.
Proof.
  rewrite Z.gtb_ltb.
  destruct (Z.ltb_spec sub (j + 1)), (Z.ltb_spec (sub - 1) j); lia.
Qed.

Lemma gtb_shift (sub j : Z) : (sub >? j + 1)%Z = (j <? sub - 1)%Z.
Proof.
  rewrite Z.gtb_ltb.
  destruct (Z.ltb_spec (j + 1) sub), (Z.ltb_spec j (sub - 1)); lia.
Qed.

Lemma ltb_gtb_excl (j p : Z) : (j <? p)%Z = true -> (j >? p)%Z = false.
Proof.
  rewrite Z.gtb_ltb. intros H. apply Z.ltb_lt in H. apply Z.ltb_ge. lia.
Qed.

Lemma right_split_at_body (sub : Z) (links : list link) (j : Z) :
  right_split_at pre succ (Some sub) links j
  = split_body pre succ (changed_position RightSide sub) links j.
Proof.
  unfold right_split_at, split_body, sub_ltb, sub_gtb, changed_position.
  cbn [bind]. now rewrite ltb_swap, gtb_swap.
Qed.

Lemma right_merge_at_body (sub : Z) (links : list link) (j : Z) :
  right_merge_at pre succ (Some sub) links j
  = merge_body pre succ (changed_position RightSide sub) links j.
Proof.
  unfold right_merge_at, merge_body, sub_ltb, sub_gtb, changed_position.
  cbn [bind]. now rewrite ltb_swap, gtb_swap.
Qed.

Lemma left_split_at_body (sub : Z) (links : list link) (j : Z) :
  left_split_at pre succ (Some sub) links j
  = split_body pre succ (changed_position LeftSide sub) links j.
Proof.
  unfold left_split_at, split_body, sub_ltb, sub_gtb, changed_position.
  cbn [bind]. rewrite ltb_shift, gtb_shift.
  destruct (j <? sub - 1)%Z eqn:E.
  - now rewrite (ltb_gtb_excl _ _ E).
  - reflexivity.
Qed.

Lemma left_merge_at_body (sub : Z) (links : list link) (j : Z) :
  left_merge_at pre succ (Some sub) links j
  = merge_body pre succ (changed_position LeftSide sub) links j.
Proof.
  unfold left_merge_at, merge_body, sub_ltb, sub_gtb, changed_position.
  cbn [bind]. rewrite ltb_shift, gtb_shift.
  destruct (j <? sub - 1)%Z eqn:E.
  - now rewrite (ltb_gtb_excl _ _ E).
  - reflexivity.
Qed.

End OneChange.

Section KnownSections.

(** Section [k] has [P] lanes on the side looked at, section [k + 1]
    has [C]. *)
Variables (k : nat) (sd : side) (P C : nat).

Let pre := section_lane k sd P.
Let succ := section_lane (S k) sd C.

Lemma add_link_in_range (links : list link) (i j : Z) :
  (0 <= i < Z.of_nat P)%Z -> (0 <= j < Z.of_nat C)%Z ->
  add_link links (pre i) (succ j)
  = Ok (links ++ [link_across k sd (Z.to_nat i) (Z.to_nat j)]).
Proof.
  intros Hi Hj. unfold add_link, pre, succ.
  now rewrite !section_lane_in_range.
Qed.

Lemma add_link_raises (links : list link) (i j : Z) (e : exn) :
  add_link links (pre i) (succ j) = Raise e -> e = IndexError.
Proof.
  unfold add_link, pre, succ.
  destruct (section_lane k sd P i) eqn:E1; cbn.
  - destruct (section_lane (S k) sd C j) eqn:E2; cbn; [discriminate |].
    intros [= <-]. eapply section_lane_raises; eauto.
  - intros [= <-]. eapply section_lane_raises; eauto.
Qed.

Lemma same_loop (n : Z) (acc : list link) :
  (n <= Z.of_nat P)%Z -> (n <= Z.of_nat C)%Z ->
  for_each (py_range n) (same_at pre succ) acc
  = Ok (acc ++ flat_map
                 (fun j => [link_across k sd (Z.to_nat j) (Z.to_nat j)])
                 (py_range n)).
Proof.
  intros HP HC. apply for_each_flat. intros a j Hj.
  apply in_py_range in Hj. unfold same_at.
  apply add_link_in_range; lia.
Qed.

Lemma split_loop (n p : Z) (acc : list link) :
  (0 <= p <= n)%Z -> (n <= Z.of_nat P)%Z -> (n + 1 <= Z.of_nat C)%Z ->
  for_each (py_range (n + 1)) (split_body pre succ p) acc
  = Ok (acc ++ flat_map (split_links_at k sd p) (py_range (n + 1))).
Proof.
  intros Hp HP HC. apply for_each_flat. intros a j Hj.
  apply in_py_range in Hj. unfold split_body, split_links_at.
  destruct (Z.ltb_spec j p).
  - apply add_link_in_range; lia.
  - rewrite Z.gtb_ltb. destruct (Z.ltb_spec p j).
    + apply add_link_in_range; lia.
    + now rewrite app_nil_r.
Qed.

Lemma merge_loop (n p : Z) (acc : list link) :
  (0 <= p <= n)%Z -> (n + 1 <= Z.of_nat P)%Z -> (n <= Z.of_nat C)%Z ->
  for_each (py_range (n + 1)) (merge_body pre succ p) acc
  = Ok (acc ++ flat_map (merge_links_at k sd p) (py_range (n + 1))).
Proof.
  intros Hp HP HC. apply for_each_flat. intros a j Hj.
  apply in_py_range in Hj. unfold merge_body, merge_links_at.
  destruct (Z.ltb_spec j p).
  - apply add_link_in_range; lia.
  - rewrite Z.gtb_ltb. destruct (Z.ltb_spec p j).
    + apply add_link_in_range; lia.
    + now rewrite app_nil_r.
Qed.

End KnownSections.

(** The links of a split, a merge and an unchanged boundary. *)

Lemma in_same_links (k : nat) (sd : side) (n : Z) (l : link) :
  In l (flat_map (fun j => [link_across k sd (Z.to_nat j) (Z.to_nat j)])
          (py_range n)) <->
  exists j : nat, (Z.of_nat j < n)%Z /\ l = link_across k sd j j.
Proof.
  rewrite in_flat_map. split.
  - intros [j [Hj [<- | []]]]. apply in_py_range in Hj.
    exists (Z.to_nat j). split; [lia | reflexivity].
  - intros [j [Hj ->]]. exists (Z.of_nat j). split.
    + apply in_py_range. lia.
    + left. now rewrite Nat2Z.id.
Qed.

Lemma in_split_links (k : nat) (sd : side) (n p : Z) (l : link) :
  (0 <= p)%Z ->
  In l (flat_map (split_links_at k sd p) (py_range (n + 1))) <->
  exists i j : nat,
    l = link_across k sd i j /\ (Z.of_nat j <= n)%Z /\
    ((i = j /\ (Z.of_nat j < p)%Z) \/ (j = S i /\ (p < Z.of_nat j)%Z)).
Proof.
  intros Hp. rewrite in_flat_map. unfold split_links_at. split.
  - intros [j [Hj Hl]]. apply in_py_range in Hj.
    destruct (Z.ltb_spec j p).
    + destruct Hl as [<- | []].
      exists (Z.to_nat j), (Z.to_nat j). repeat split; [lia |]. left. lia.
    + rewrite Z.gtb_ltb in Hl. destruct (Z.ltb_spec p j).
      * destruct Hl as [<- | []].
        exists (Z.to_nat (j - 1)), (Z.to_nat j).
        repeat split; [lia |]. right. lia.
      * destruct Hl.
  - intros [i [j [-> [Hj [[-> Hlt] | [-> Hgt]]]]]].
    + exists (Z.of_nat j). split; [apply in_py_range; lia |].
      destruct (Z.ltb_spec (Z.of_nat j) p); [| lia].
      left. now rewrite Nat2Z.id.
    + exists (Z.of_nat (S i)). split; [apply in_py_range; lia |].
      destruct (Z.ltb_spec (Z.of_nat (S i)) p); [lia |].
      rewrite Z.gtb_ltb. destruct (Z.ltb_spec p (Z.of_nat (S i))); [| lia].
      left. f_equal; f_equal; lia.
Qed.

Lemma in_merge_links (k : nat) (sd : side) (n p : Z) (l : link) :
  (0 <= p)%Z ->
  In l (flat_map (merge_links_at k sd p) (py_range (n + 1))) <->
  exists i j : nat,
    l = link_across k sd i j /\ (Z.of_nat i <= n)%Z /\
    ((i = j /\ (Z.of_nat i < p)%Z) \/ (i = S j /\ (p < Z.of_nat i)%Z)).
Proof.
  intros Hp. rewrite in_flat_map. unfold merge_links_at. split.
  - intros [j [Hj Hl]]. apply in_py_range in Hj.
    destruct (Z.ltb_spec j p).
    + destruct Hl as [<- | []].
      exists (Z.to_nat j), (Z.to_nat j). repeat split; [lia |]. left. lia.
    + rewrite Z.gtb_ltb in Hl. destruct (Z.ltb_spec p j).
      * destruct Hl as [<- | []].
        exists (Z.to_nat j), (Z.to_nat (j - 1)).
        repeat split; [lia |]. right. lia.
      * destruct Hl.
  - intros [i [j [-> [Hi [[<- Hlt] | [-> Hgt]]]]]].
    + exists (Z.of_nat i). split; [apply in_py_range; lia |].
      destruct (Z.ltb_spec (Z.of_nat i) p); [| lia].
      left. now rewrite Nat2Z.id.
    + exists (Z.of_nat (S j)). split; [apply in_py_range; lia |].
      destruct (Z.ltb_spec (Z.of_nat (S j)) p); [lia |].
      rewrite Z.gtb_ltb. destruct (Z.ltb_spec p (Z.of_nat (S j))); [| lia].
      left. f_equal; f_equal; lia.
Qed.

(** No lane is linked twice on either end. *)

Ltac one_link H :=
  repeat match type of H with
    | In _ (if ?c then _ else _) => destruct c eqn:?
    end;
  cbn in H; first [contradiction | destruct H as [<- | []]].

Ltac order_facts :=
  repeat match goal with
    | H : (_ <? _)%Z = true |- _ => apply Z.ltb_lt in H
    | H : (_ <? _)%Z = false |- _ => apply Z.ltb_ge in H
    | H : (_ >? _)%Z = true |- _ => rewrite Z.gtb_ltb in H
    | H : (_ >? _)%Z = false |- _ => rewrite Z.gtb_ltb in H
    | H : In _ (py_range _) |- _ => apply in_py_range in H
    end.

Ltac short_list :=
  repeat match goal with
    | |- context [if ?c then _ else _] => destruct c
    end;
  cbn; repeat constructor; cbn; tauto.

Lemma split_links_NoDup (k : nat) (sd : side) (n p : Z) :
  (0 <= p)%Z ->
  NoDup (map link_pre (flat_map (split_links_at k sd p) (py_range (n + 1))))
  /\
  NoDup (map link_succ (flat_map (split_links_at k sd p) (py_range (n + 1)))).
Proof.
  intros Hp. split; apply NoDup_flat_map_key; try apply py_range_NoDup.
  - intros x _. unfold split_links_at. short_list.
  - intros x y a b Hx Hy Ha Hb Hk. unfold split_links_at in Ha, Hb.
    one_link Ha; one_link Hb; order_facts;
      cbn in Hk; injection Hk as Hk; lia.
  - intros x _. unfold split_links_at. short_list.
  - intros x y a b Hx Hy Ha Hb Hk. unfold split_links_at in Ha, Hb.
    one_link Ha; one_link Hb; order_facts;
      cbn in Hk; injection Hk as Hk; lia.
Qed.

Lemma merge_links_NoDup (k : nat) (sd : side) (n p : Z) :
  (0 <= p)%Z ->
  NoDup (map link_pre (flat_map (merge_links_at k sd p) (py_range (n + 1))))
  /\
  NoDup (map link_succ (flat_map (merge_links_at k sd p) (py_range (n + 1)))).
Proof.
  intros Hp. split; apply NoDup_flat_map_key; try apply py_range_NoDup.
  - intros x _. unfold merge_links_at. short_list.
  - intros x y a b Hx Hy Ha Hb Hk. unfold merge_links_at in Ha, Hb.
    one_link Ha; one_link Hb; order_facts;
      cbn in Hk; injection Hk as Hk; lia.
  - intros x _. unfold merge_links_at. short_list.
  - intros x y a b Hx Hy Ha Hb Hk. unfold merge_links_at in Ha, Hb.
    one_link Ha; one_link Hb; order_facts;
      cbn in Hk; injection Hk as Hk; lia.
Qed.

Lemma same_links_NoDup (k : nat) (sd : side) (n : Z) :
  NoDup (map link_pre
           (flat_map (fun j => [link_across k sd (Z.to_nat j) (Z.to_nat j)])
              (py_range n)))
  /\
  NoDup (map link_succ
           (flat_map (fun j => [link_across k sd (Z.to_nat j) (Z.to_nat j)])
              (py_range n))).
Proof.
  split; apply NoDup_flat_map_key; try apply py_range_NoDup.
  - intros x _. cbn. repeat constructor. cbn. tauto.
  - intros x y a b Hx Hy [<- | []] [<- | []] Hk. order_facts.
    cbn in Hk. injection Hk as Hk. lia.
  - intros x _. cbn. repeat constructor. cbn. tauto.
  - intros x y a b Hx Hy [<- | []] [<- | []] Hk. order_facts.
    cbn in Hk. injection Hk as Hk. lia.
Qed.

(** Which loop runs at a boundary. *)

Lemma split_run (pre succ : Z -> result lane_id) (sd : side)
  (prev cur : LaneDef) (sub : Z) (acc : list link) :
  is_split cur = true -> sub_lane cur = Some sub ->
  link_boundary pre succ sd prev cur acc
  = for_each (py_range (n_lanes_end prev + 1))
      (split_body pre succ (changed_position sd sub)) acc.
Proof.
  unfold is_split. intros Hs Hsub.
  destruct sd; cbn [link_boundary];
    unfold link_right_boundary, link_left_boundary;
    rewrite Hs, Hsub; apply for_each_ext; intros a j _.
  - apply right_split_at_body.
  - apply left_split_at_body.
Qed.

Lemma merge_run (pre succ : Z -> result lane_id) (sd : side)
  (prev cur : LaneDef) (sub : Z) (acc : list link) :
  is_split cur = false -> is_merge prev = true -> sub_lane prev = Some sub ->
  link_boundary pre succ sd prev cur acc
  = for_each (py_range (n_lanes_end prev + 1))
      (merge_body pre succ (changed_position sd sub)) acc.
Proof.
  unfold is_split, is_merge. intros Hs Hm Hsub.
  destruct sd; cbn [link_boundary];
    unfold link_right_boundary, link_left_boundary;
    rewrite Hs, Hm, Hsub; apply for_each_ext; intros a j _.
  - apply right_merge_at_body.
  - apply left_merge_at_body.
Qed.

Lemma same_run (pre succ : Z -> result lane_id) (sd : side)
  (prev cur : LaneDef) (acc : list link) :
  is_split cur = false -> is_merge prev = false ->
  link_boundary pre succ sd prev cur acc
  = for_each (py_range (n_lanes_end prev)) (same_at pre succ) acc.
Proof.
  unfold is_split, is_merge. intros Hs Hm.
  destruct sd; cbn [link_boundary];
    unfold link_right_boundary, link_left_boundary;
    now rewrite Hs, Hm.
Qed.

(** C3 (as amended). At a boundary between two adjacent lane sections
    on one side, where the counts of the two descriptors agree
    ([n_lanes_start] of the successor is [n_lanes_end = n] of the
    predecessor) and at most one of them changes the count:
    - no change: the links are exactly lane [j] to lane [j] for every
      [j < n];
    - the successor is a split whose changed-lane index has the side's
      sign and denotes a position [p] in [0, n]: the links are exactly
      [j] to [j] below [p] and [j - 1] to [j] above [p], so the new lane
      [p] has no predecessor;
    - the predecessor is a merge with such an index: the links are
      exactly [j] to [j] below [p] and [j] to [j - 1] above [p], so the
      removed lane [p] has no successor;
    and in all three cases no lane is the predecessor of two links or
    the successor of two links. *)
Theorem link_boundary_single_change (sd : side) (prev cur : LaneDef)
  (k : nat) :
  let n := n_lanes_end prev in
  let run :=
    link_boundary (section_lane k sd (section_lane_count prev))
      (section_lane (S k) sd (section_lane_count cur)) sd prev cur [] in
  (0 <= n)%Z ->
  n_lanes_start cur = n ->
  (is_split cur = false -> is_merge prev = false ->
   exists links,
     run = Ok links /\
     (forall l, In l links <->
                exists j : nat, (Z.of_nat j < n)%Z /\
                                l = link_across k sd j j) /\
     NoDup (map link_pre links) /\ NoDup (map link_succ links)) /\
  (is_split cur = true -> is_merge prev = false ->
   forall sub, sub_lane cur = Some sub ->
   let p := changed_position sd sub in
   (0 <= p <= n)%Z ->
   exists links,
     run = Ok links /\
     (forall l, In l links <->
                exists i j : nat,
                  l = link_across k sd i j /\ (Z.of_nat j <= n)%Z /\
                  ((i = j /\ (Z.of_nat j < p)%Z) \/
                   (j = S i /\ (p < Z.of_nat j)%Z))) /\
     (forall a, ~ In (mkLink a (mkLaneId (S k) sd (Z.to_nat p))) links) /\
     NoDup (map link_pre links) /\ NoDup (map link_succ links)) /\
  (is_split cur = false -> is_merge prev = true ->
   forall sub, sub_lane prev = Some sub ->
   let p := changed_position sd sub in
   (0 <= p <= n)%Z ->
   exists links,
     run = Ok links /\
     (forall l, In l links <->
                exists i j : nat,
                  l = link_across k sd i j /\ (Z.of_nat i <= n)%Z /\
                  ((i = j /\ (Z.of_nat i < p)%Z) \/
                   (i = S j /\ (p < Z.of_nat i)%Z))) /\
     (forall b, ~ In (mkLink (mkLaneId k sd (Z.to_nat p)) b) links) /\
     NoDup (map link_pre links) /\ NoDup (map link_succ links)).
Proof.
  intros n run Hn Hcount. subst run. unfold section_lane_count.
  rewrite Hcount. fold n. split; [| split].
  - intros Hs Hm. rewrite (same_run _ _ _ _ _ _ Hs Hm). fold n.
    unfold is_split, is_merge in Hs, Hm. rewrite Hcount in Hs. fold n in Hm.
    rewrite Z.gtb_ltb in Hs. apply Z.ltb_ge in Hs, Hm.
    rewrite same_loop by lia. cbn [app]. eexists. split; [reflexivity |].
    split; [intros l; apply in_same_links | apply same_links_NoDup].
  - intros Hs Hm sub Hsub Hp.
    set (p := changed_position sd sub) in *.
    rewrite (split_run _ _ _ _ _ sub _ Hs Hsub). fold n p.
    unfold is_split, is_merge in Hs, Hm. rewrite Hcount in Hs. fold n in Hm.
    rewrite Z.gtb_ltb in Hs. apply Z.ltb_lt in Hs. apply Z.ltb_ge in Hm.
    rewrite split_loop by lia. cbn [app]. eexists. split; [reflexivity |].
    assert (Hin := fun l => in_split_links k sd n p l (proj1 Hp)).
    split; [exact Hin |]. split; [| apply split_links_NoDup; lia].
    intros a Ha. apply Hin in Ha as [i [j [Hl [_ Hcase]]]].
    unfold link_across in Hl. injection Hl as _ Hj. lia.
  - intros Hs Hm sub Hsub Hp.
    set (p := changed_position sd sub) in *.
    rewrite (merge_run _ _ _ _ _ sub _ Hs Hm Hsub). fold n p.
    unfold is_split, is_merge in Hs, Hm. rewrite Hcount in Hs. fold n in Hm.
    rewrite Z.gtb_ltb in Hs. apply Z.ltb_ge in Hs. apply Z.ltb_lt in Hm.
    rewrite merge_loop by lia. cbn [app]. eexists. split; [reflexivity |].
    assert (Hin := fun l => in_merge_links k sd n p l (proj1 Hp)).
    split; [exact Hin |]. split; [| apply merge_links_NoDup; lia].
    intros b Hb. apply Hin in Hb as [i [j [Hl [_ Hcase]]]].
    unfold link_across in Hl. injection Hl as Hi _. lia.
Qed.

(** The left side of the split scenario: two lanes on [0, 20), a third
    lane appearing on [20, 40) with changed-lane index 3. *)
Lemma link_boundary_single_change_witness :
  exists links,
    link_boundary (section_lane 0 LeftSide 2) (section_lane 1 LeftSide 3)
      LeftSide
      (mkLaneDef 0 20 2 2 None [3; 3]%Q [3; 3]%Q)
      (mkLaneDef 20 40 2 3 (Some 3%Z) [3; 3; 0]%Q [3; 3; 3]%Q) []
    = Ok links /\
    (forall a, ~ In (mkLink a (mkLaneId 1 LeftSide 2)) links) /\
    NoDup (map link_pre links) /\ NoDup (map link_succ links).
Proof.
  destruct (proj1 (proj2 (link_boundary_single_change LeftSide
              (mkLaneDef 0 20 2 2 None [3; 3]%Q [3; 3]%Q)
              (mkLaneDef 20 40 2 3 (Some 3%Z) [3; 3; 0]%Q [3; 3; 3]%Q) 0
              ltac:(cbn; lia) eq_refl))
              eq_refl eq_refl 3%Z eq_refl ltac:(cbn; lia))
    as [links [Hrun [_ [Hnew [Hpre Hsucc]]]]].
  exists links. split; [exact Hrun |]. split; [exact Hnew |].
  split; [exact Hpre | exact Hsucc].
Defined.

(** C3 (as stated) fails in two ways.
    - The index of the other side's sign: on the right side,
      [LaneDef(10, 20, 2, 3, 3)] has an index of absolute value 3, in
      [[1, 3]]; the builder reads it through [abs], the linker compares
      it with [-(j + 1)], links [j - 1] to [j] for every [j], and the
      subscript [-1] denotes the last lane: lane 1 of the first section
      precedes lane 0 and the new lane 2 of the second section.
    - Two count changes at one boundary: on the left side, after
      [LaneDef(0, 10, 3, 2, 1)] and [LaneDef(10, 20, 2, 3, 1)], only the
      split loop runs; lane 0 of the first section is the removed lane
      (position [changed_position LeftSide 1 = 0]) and yet it is linked,
      to lane 1 of the second section. *)
Lemma linker_links_outside_single_change :
  (exists lanes,
      create_lanes_merge_split
        (ListArg [LaneDef_init 10 20 2 3 (Some 3%Z) [] []]) (IntArg 1)
        30 std_roadmark_solid 3 None
      = Some (Ok lanes) /\
      In (link_across 0 RightSide 1 0) (lanelinker lanes) /\
      In (link_across 0 RightSide 1 2) (lanelinker lanes)) /\
  (exists lanes,
      create_lanes_merge_split (IntArg 1)
        (ListArg [LaneDef_init 0 10 3 2 (Some 1%Z) [] [];
                  LaneDef_init 10 20 2 3 (Some 1%Z) [] []])
        20 std_roadmark_solid 3 None
      = Some (Ok lanes) /\
      changed_position LeftSide 1 = 0%Z /\
      In (link_across 0 LeftSide 0 1) (lanelinker lanes)).
Proof.
  split.
  - eexists. split; [vm_compute; reflexivity |]. cbn. split.
    + left. reflexivity.
    + do 2 right. left. reflexivity.
  - eexists. split; [vm_compute; reflexivity |].
    split; [reflexivity |]. cbn. right. left. reflexivity.
Qed.

(* ================================================================= *)
(** ** A changed-lane index past the lanes *)

Lemma for_each_raise_inv {A S : Type} (xs : list A)
  (body : S -> A -> result S) (acc : S) (e : exn) :
  for_each xs body acc = Raise e ->
  exists a x, In x xs /\ body a x = Raise e.
Proof.
  revert acc. induction xs as [| x xs IH]; intros acc; cbn; [discriminate |].
  destruct (body acc x) as [acc' |] eqn:B; cbn.
  - intros H. apply IH in H as [a [y [Hy Hb]]]. exists a, y. auto.
  - intros [= <-]. exists acc, x. auto.
Qed.

(** A loop whose last turn raises [e], and whose earlier turns raise
    nothing else, raises [e]. *)
Lemma for_each_last_raises {A S : Type} (xs : list A) (x : A)
  (body : S -> A -> result S) (acc : S) (e : exn) :
  (forall a y e', In y xs -> body a y = Raise e' -> e' = e) ->
  (forall a, body a x = Raise e) ->
  for_each (xs ++ [x]) body acc = Raise e.
Proof.
  intros Hxs Hx. rewrite for_each_app.
  destruct (for_each xs body acc) as [acc' |] eqn:F; cbn.
  - now rewrite Hx.
  - apply for_each_raise_inv in F as [a [y [Hy Hb]]].
    f_equal. eapply Hxs; eauto.
Qed.

Lemma split_body_raises (k : nat) (sd : side) (P C : nat) (p : Z)
  (links : list link) (j : Z) (e : exn) :
  split_body (section_lane k sd P) (section_lane (S k) sd C) p links j
  = Raise e -> e = IndexError.
Proof.
  unfold split_body. destruct (j <? p)%Z; [apply add_link_raises |].
  destruct (j >? p)%Z; [apply add_link_raises | discriminate].
Qed.

Lemma merge_body_raises (k : nat) (sd : side) (P C : nat) (p : Z)
  (links : list link) (j : Z) (e : exn) :
  merge_body (section_lane k sd P) (section_lane (S k) sd C) p links j
  = Raise e -> e = IndexError.
Proof.
  unfold merge_body. destruct (j <? p)%Z; [apply add_link_raises |].
  destruct (j >? p)%Z; [apply add_link_raises | discriminate].
Qed.

(** C8 (as amended). At a boundary with one count change, where the
    counts of the two descriptors agree, a changed-lane index that has
    the side's sign and points past the lanes (its list position is
    greater than the lane count [n] at the boundary: [sub_lane > n + 1]
    on the left, [sub_lane < -(n + 1)] on the right) makes the linker
    raise [IndexError], whatever links were recorded before. *)
Theorem link_boundary_index_past_lanes (sd : side) (prev cur : LaneDef)
  (k : nat) (acc : list link) :
  let n := n_lanes_end prev in
  let run :=
    link_boundary (section_lane k sd (section_lane_count prev))
      (section_lane (S k) sd (section_lane_count cur)) sd prev cur acc in
  (0 <= n)%Z ->
  n_lanes_start cur = n ->
  (is_split cur = true -> is_merge prev = false ->
   forall sub, sub_lane cur = Some sub ->
               (n < changed_position sd sub)%Z ->
               run = Raise IndexError) /\
  (is_split cur = false -> is_merge prev = true ->
   forall sub, sub_lane prev = Some sub ->
               (n < changed_position sd sub)%Z ->
               run = Raise IndexError).
Proof.
  intros n run Hn Hcount. subst run. unfold section_lane_count.
  rewrite Hcount. fold n. split.
  - intros Hs Hm sub Hsub Hp.
    rewrite (split_run _ _ _ _ _ sub _ Hs Hsub). fold n.
    unfold is_merge in Hm. fold n in Hm. apply Z.ltb_ge in Hm.
    rewrite py_range_succ by exact Hn.
    apply for_each_last_raises.
    + intros a y e' _. apply split_body_raises.
    + intros a. unfold split_body.
      replace (n <? changed_position sd sub)%Z with true
        by (symmetry; apply Z.ltb_lt; lia).
      unfold add_link. rewrite section_lane_past_end by lia. reflexivity.
  - intros Hs Hm sub Hsub Hp.
    rewrite (merge_run _ _ _ _ _ sub _ Hs Hm Hsub). fold n.
    unfold is_split, is_merge in Hs, Hm. rewrite Hcount in Hs. fold n in Hm.
    rewrite Z.gtb_ltb in Hs. apply Z.ltb_ge in Hs. apply Z.ltb_lt in Hm.
    rewrite py_range_succ by exact Hn.
    apply for_each_last_raises.
    + intros a y e' _. apply merge_body_raises.
    + intros a. unfold merge_body.
      replace (n <? changed_position sd sub)%Z with true
        by (symmetry; apply Z.ltb_lt; lia).
      unfold add_link. rewrite section_lane_in_range by lia. cbn [bind].
      rewrite section_lane_past_end by lia. reflexivity.
Qed.

(** A third lane appearing on the left with changed-lane index 5. *)
Lemma link_boundary_index_past_lanes_witness :
  link_boundary (section_lane 0 LeftSide 2) (section_lane 1 LeftSide 3)
    LeftSide
    (mkLaneDef 0 10 2 2 None [3; 3]%Q [3; 3]%Q)
    (mkLaneDef 10 20 2 3 (Some 5%Z) [3; 3; 0]%Q [3; 3; 3]%Q) []
  = Raise IndexError.
Proof.
  exact (proj1 (link_boundary_index_past_lanes LeftSide
           (mkLaneDef 0 10 2 2 None [3; 3]%Q [3; 3]%Q)
           (mkLaneDef 10 20 2 3 (Some 5%Z) [3; 3; 0]%Q [3; 3; 3]%Q) 0 []
           ltac:(cbn; lia) eq_refl)
           eq_refl eq_refl 5%Z eq_refl ltac:(cbn; lia)).
Defined.

(** C8 (as stated) fails: the changed-lane index [0] is outside
    [[1, 3]], and with an end-of-road width the build of
    [LaneDef(10, 20, 2, 3, 0)] on the left of a 30 long road returns a
    lane structure; the subscript [j - 1 = -1] denotes the last lane, so
    lane 1 of the first section is recorded as predecessor of lane 0 and
    of lane 2 of the second section. *)
Lemma zero_index_links_silently :
  exists lanes,
    create_lanes_merge_split (IntArg 2)
      (ListArg [LaneDef_init 10 20 2 3 (Some 0%Z) [] []])
      30 std_roadmark_solid 3 (Some 4%Q)
    = Some (Ok lanes) /\
    In (link_across 0 LeftSide 1 0) (lanelinker lanes) /\
    In (link_across 0 LeftSide 1 2) (lanelinker lanes).
Proof.
  eexists. split; [vm_compute; reflexivity |].
  cbn. split.
  - do 4 right. left. reflexivity.
  - do 6 right. left. reflexivity.
Qed.

(** The builder creates [section_lane_count] lanes per side. *)
Lemma side_lanes_of_length
  (f : LaneDef -> Q -> option Q -> Z -> result Lane) (ld : LaneDef)
  (w : Q) (lwe : option Q) (lanes : list Lane) :
  side_lanes_of f ld w lwe = Ok lanes ->
  length lanes = section_lane_count ld.
Proof.
  unfold side_lanes_of, section_lane_count. intros H.
  apply for_each_map_inv in H as [ys [-> HF]].
  apply Forall2_length in HF. cbn. rewrite <- HF.
  apply py_range_length.
Qed.

(* ================================================================= *)
(** ** Invariants of the sweep *)

Lemma sweep_invariant (cr cl : option Z) (tot w : Q)
  (I : sweep_state -> Prop) :
  (forall st st', I st -> sweep_step cr cl tot w st = Ok st' -> I st') ->
  forall fuel st st',
    I st -> sweep cr cl tot w fuel st = Some (Ok st') -> I st'.
Proof.
  intros Hstep. induction fuel as [| fuel IH]; intros st st' HI; cbn [sweep].
  - destruct (Qltb (present_s st) tot); [discriminate |].
    now intros [= <-].
  - destruct (Qltb (present_s st) tot); [| now intros [= <-]].
    destruct (sweep_step cr cl tot w st) as [st1 |] eqn:S; [| discriminate].
    apply IH. eapply Hstep; eauto.
Qed.

Lemma sweep_exit (cr cl : option Z) (tot w : Q) :
  forall fuel st st',
    sweep cr cl tot w fuel st = Some (Ok st') ->
    Qltb (present_s st') tot = false.
Proof.
  induction fuel as [| fuel IH]; intros st st'; cbn [sweep].
  - destruct (Qltb (present_s st) tot) eqn:E; [discriminate |].
    now intros [= <-].
  - destruct (Qltb (present_s st) tot) eqn:E; [| now intros [= <-]].
    destruct (sweep_step cr cl tot w st) as [st1 |]; [| discriminate].
    apply IH.
Qed.

(** Where every turn taken under the invariant succeeds and keeps it,
    the sweep raises nothing and ends in a state that satisfies the
    invariant, at or past the end of the road. *)
Lemma sweep_no_raise (cr cl : option Z) (tot w : Q)
  (I : sweep_state -> Prop) :
  (forall st, I st -> Qltb (present_s st) tot = true ->
              exists st', sweep_step cr cl tot w st = Ok st' /\ I st') ->
  forall fuel st r,
    I st -> sweep cr cl tot w fuel st = Some r ->
    exists st', r = Ok st' /\ I st' /\ Qltb (present_s st') tot = false.
Proof.
  intros Hstep. induction fuel as [| fuel IH]; intros st r HI; cbn [sweep].
  - destruct (Qltb (present_s st) tot) eqn:E; [discriminate |].
    intros [= <-]. eauto.
  - destruct (Qltb (present_s st) tot) eqn:E; [| intros [= <-]; eauto].
    destruct (Hstep st HI E) as [st1 [-> HI1]]. now apply IH.
Qed.

(** What [_create_lane_lists] returns is the padded state of the sweep
    at its end. *)
Lemma create_lane_lists_inv (right left : lane_arg) (tot w : Q)
  (rr ll : list LaneDef) :
  _create_lane_lists right left tot w = Some (Ok (rr, ll)) ->
  exists st,
    sweep (const_lanes right) (const_lanes left) tot w
      (sweep_fuel (def_list right) (def_list left))
      (sweep_init right left) = Some (Ok st) /\
    rr = map _adjust_lane_widths (retlanes_right st) /\
    ll = map _adjust_lane_widths (retlanes_left st).
Proof.
  unfold _create_lane_lists.
  destruct (sweep _ _ _ _ _ _) as [[st | e] |]; try discriminate.
  intros [= <- <-]. eauto.
Qed.

(* ================================================================= *)
(** ** Lengths of the width lists *)


Lemma nonempty_false {A : Type} (l : list A) : nonempty l = false <-> l = [].
Proof. destruct l; cbn; split; congruence. Qed.


Lemma adjust_counts (d : LaneDef) :
  n_lanes_start (_adjust_lane_widths d) = n_lanes_start d /\
  n_lanes_end (_adjust_lane_widths d) = n_lanes_end d /\
  sub_lane (_adjust_lane_widths d) = sub_lane d /\
  s_start (_adjust_lane_widths d) = s_start d /\
  s_end (_adjust_lane_widths d) = s_end d.
Proof.
  unfold _adjust_lane_widths.
  destruct (truthy (sub_lane d)); [| tauto].
  destruct (nonempty (lane_end_widths d) && _); [cbn; tauto |].
  destruct (nonempty (lane_start_widths d) && _); cbn; tauto.
Qed.

Lemma nonempty_length {A : Type} (l : list A) :
  nonempty l = (1 <=? Z.of_nat (length l))%Z.
Proof.
  destruct l; [reflexivity |]. cbn [nonempty length].
  symmetry. apply Z.leb_le. lia.
Qed.

(** After normalisation, the tests of [_adjust_lane_widths] only depend
    on the counts. *)
Lemma normalized_padding_due (d : LaneDef) :
  normalized d ->
  truthy (sub_lane d) && merge_padding_due d = pads_end d /\
  truthy (sub_lane d) && negb (merge_padding_due d) && split_padding_due d
  = pads_start d.
Proof.
  intros [Hs [He [Hsw Hew]]].
  unfold merge_padding_due, split_padding_due, pads_end, pads_start.
  rewrite !nonempty_length, Hsw, Hew, !Z2Nat.id by assumption.
  destruct (truthy (sub_lane d)); cbn [andb]; [| tauto].
  destruct (Z.leb_spec 1 (n_lanes_end d)),
    (Z.ltb_spec (n_lanes_end d) (n_lanes_start d)),
    (Z.leb_spec 1 (n_lanes_start d)),
    (Z.ltb_spec (n_lanes_start d) (n_lanes_end d));
    cbn; split; try reflexivity; lia.
Qed.

Lemma adjust_padded (d : LaneDef) :
  normalized d -> padded_lengths (_adjust_lane_widths d).
Proof.
  intros Hn. destruct (normalized_padding_due d Hn) as [Hend Hstart].
  destruct Hn as [Hs [He [Hsw Hew]]].
  unfold padded_lengths, pads_start, pads_end.
  destruct (adjust_counts d) as [-> [-> [-> _]]].
  fold (pads_start d) (pads_end d). rewrite <- Hend, <- Hstart.
  unfold _adjust_lane_widths.
  destruct (truthy (sub_lane d)); cbn [andb]; [| lia].
  fold (merge_padding_due d) (split_padding_due d).
  destruct (merge_padding_due d); cbn [andb negb].
  - cbn. rewrite py_insert_length. lia.
  - destruct (split_padding_due d); cbn.
    + rewrite py_insert_length. lia.
    + lia.
Qed.


Lemma py_getitem_nat_inv {A : Type} (l : list A) (i : nat) (x : A) :
  py_getitem l (Z.of_nat i) = Ok x -> nth_error l i = Some x.
Proof.
  unfold py_getitem, norm_index.
  destruct ((0 <=? Z.of_nat i) && (Z.of_nat i <? Z.of_nat (length l)))%Z.
  - cbn. rewrite Nat2Z.id. destruct (nth_error l i); congruence.
  - replace (Z.of_nat i <? 0)%Z with false
      by (symmetry; apply Z.ltb_ge; lia).
    cbn. discriminate.
Qed.

Lemma py_getitem_last {A : Type} (l : list A) :
  py_getitem l (Z.of_nat (length l) - 1) = py_getitem l (-1).
Proof.
  unfold py_getitem. destruct l as [| x l]; [reflexivity |].
  rewrite norm_index_in_range by (cbn [length]; lia).
  rewrite norm_index_last by (cbn [length]; lia).
  do 2 f_equal. lia.
Qed.


Lemma Forall_nth_error {A : Type} (P : A -> Prop) (l : list A) (i : nat)
  (x : A) :
  Forall P l -> nth_error l i = Some x -> P x.
Proof.
  intros Hl Hx. apply nth_error_In in Hx.
  rewrite Forall_forall in Hl. auto.
Qed.

Lemma Forall_snoc {A : Type} (P : A -> Prop) (l : list A) (x : A) :
  Forall P l -> P x -> Forall P (l ++ [x]).
Proof. intros Hl Hx. apply Forall_app. split; auto. Qed.










(* ================================================================= *)
(** ** The expanded timelines tile the road *)

Lemma skipn_nth_error_cons {A : Type} (l : list A) (i : nat) (x : A) :
  nth_error l i = Some x -> skipn i l = x :: skipn (S i) l.
Proof.
  revert i. induction l as [| h t IH]; intros [| i]; cbn; try discriminate.
  - now intros [= ->].
  - intros H. now rewrite (IH i H).
Qed.

Lemma skipn_nth_error_nil {A : Type} (l : list A) (i : nat) :
  nth_error l i = None -> skipn i l = [].
Proof. intros H. apply skipn_all2. now apply nth_error_None. Qed.

Lemma skipn_set_nth_after {A : Type} (l : list A) (i : nat) (x : A) :
  skipn (S i) (set_nth l i x) = skipn (S i) l.
Proof.
  revert i. induction l as [| h t IH]; intros [| i]; cbn; try reflexivity.
  apply IH.
Qed.

Lemma set_nth_nonempty {A : Type} (l : list A) (i : nat) (x : A) :
  l <> [] -> set_nth l i x <> [].
Proof. destruct l, i; cbn; congruence. Qed.

Lemma ordered_from_head (lo lo' tot : Q) (side : list LaneDef) :
  ordered_from lo tot side ->
  match side with
  | [] => True
  | d :: _ => (lo' <= s_start d)%Q
  end ->
  ordered_from lo' tot side.
Proof. destruct side; cbn; tauto. Qed.

Lemma tiles_end_eq (lo hi hi' : Q) (tl : list LaneDef) :
  (hi == hi')%Q -> tiles lo hi tl -> tiles lo hi' tl.
Proof.
  intros E. revert lo. induction tl as [| d tl IH]; intros lo; cbn.
  - intros H. now rewrite H.
  - intros [H1 [H2 H3]]. auto.
Qed.

Lemma tiles_snoc (lo hi : Q) (tl : list LaneDef) (d : LaneDef) :
  tiles lo hi tl -> (s_start d == hi)%Q -> (s_start d < s_end d)%Q ->
  tiles lo (s_end d) (tl ++ [d]).
Proof.
  revert lo. induction tl as [| x tl IH]; intros lo; cbn.
  - intros H1 H2 H3. repeat split; auto. now rewrite H2, H1.
  - intros [H1 [H2 H3]] H4 H5. auto.
Qed.

Lemma tiles_map (f : LaneDef -> LaneDef) (lo hi : Q) (tl : list LaneDef) :
  (forall d, s_start (f d) = s_start d /\ s_end (f d) = s_end d) ->
  tiles lo hi tl -> tiles lo hi (map f tl).
Proof.
  intros Hf. revert lo. induction tl as [| d tl IH]; intros lo; cbn; auto.
  destruct (Hf d) as [-> ->]. intros [H1 [H2 H3]]. auto.
Qed.

Lemma same_boundaries_snoc (a b : list LaneDef) (x y : LaneDef) :
  same_boundaries a b ->
  (s_start x == s_start y)%Q -> (s_end x == s_end y)%Q ->
  same_boundaries (a ++ [x]) (b ++ [y]).
Proof.
  intros H H1 H2. apply Forall2_app; [exact H |].
  constructor; [split; assumption | constructor].
Qed.

Lemma same_boundaries_map (f : LaneDef -> LaneDef) (a b : list LaneDef) :
  (forall d, s_start (f d) = s_start d /\ s_end (f d) = s_end d) ->
  same_boundaries a b -> same_boundaries (map f a) (map f b).
Proof.
  intros Hf H. induction H as [| x y a b Hxy Hab IH]; cbn; constructor; auto.
  destruct (Hf x) as [-> ->], (Hf y) as [-> ->]. exact Hxy.
Qed.

Lemma aligned_tail_r (r : LaneDef) (R Lf : list LaneDef) :
  aligned (r :: R) Lf -> aligned R Lf.
Proof. intros H x y Hx Hy. apply H; [now right | exact Hy]. Qed.

Lemma aligned_tail_l (l : LaneDef) (R Lf : list LaneDef) :
  aligned R (l :: Lf) -> aligned R Lf.
Proof. intros H x y Hx Hy. apply H; [exact Hx | now right]. Qed.

Lemma LaneDef_init_bounds (s e : Q) (ns ne : Z) (sub : option Z)
  (sw ew : list Q) :
  s_start (LaneDef_init s e ns ne sub sw ew) = s /\
  s_end (LaneDef_init s e ns ne sub sw ew) = e.
Proof. split; reflexivity. Qed.

Lemma py_getitem_ok {A : Type} (l : list A) (i : nat) :
  i < length l -> exists x, py_getitem l (Z.of_nat i) = Ok x.
Proof.
  intros H. destruct (nth_error l i) as [x |] eqn:E.
  - exists x. now apply py_getitem_in_range.
  - apply nth_error_None in E. lia.
Qed.

(** Under the invariant, building a filler raises nothing. *)
Lemma filler_ok (w : Q) (c : option Z) (side : list LaneDef) (it : nat)
  (s e : Q) (n : Z) :
  it <= length side -> (c = None -> side <> []) ->
  exists f, filler w c side it s e n = Ok f /\ s_start f = s /\ s_end f = e.
Proof.
  intros Hit Hsome. unfold filler. destruct c as [k |].
  - eexists. split; [reflexivity |]. apply LaneDef_init_bounds.
  - specialize (Hsome eq_refl). unfold carried_filler.
    assert (Hlen : 0 < length side) by (destruct side; cbn; [congruence | lia]).
    destruct (it =? length side) eqn:E.
    + apply Nat.eqb_eq in E.
      destruct (py_getitem_ok side (it - 1) ltac:(lia)) as [x Hx].
      replace (Z.of_nat it - 1)%Z with (Z.of_nat (it - 1)) by lia.
      rewrite Hx. cbn [bind]. eexists. split; [reflexivity |].
      apply LaneDef_init_bounds.
    + apply Nat.eqb_neq in E.
      destruct (py_getitem_ok side it ltac:(lia)) as [x Hx].
      rewrite Hx. cbn [bind]. eexists. split; [reflexivity |].
      apply LaneDef_init_bounds.
Qed.

(** Under the invariant, the probe of a side finds a descriptor that
    starts here, or a later position that no pending descriptor of the
    side precedes. *)
Lemma probe_cases (tot : Q) (side : list LaneDef) (it : nat) (c : option Z)
  (p : Q) :
  (c = None -> side <> []) ->
  ordered_from p tot (skipn it side) ->
  (p < tot)%Q ->
  (exists d,
      nth_error side it = Some d /\
      probe_side tot side it c p = Ok (AddHere d) /\
      (s_start d == p)%Q) \/
  (exists next n,
      probe_side tot side it c p = Ok (Later next n) /\
      (p < next)%Q /\ (next <= tot)%Q /\
      match skipn it side with
      | [] => True
      | d :: _ => next = s_start d
      end).
Proof.
  intros Hsome Hord Hlt. unfold probe_side.
  destruct (nth_error side it) as [d |] eqn:E.
  - rewrite (skipn_nth_error_cons _ _ _ E) in *.
    destruct Hord as [H1 [H2 [H3 _]]].
    destruct (Qeq_bool (s_start d) p) eqn:Hq.
    + left. exists d. repeat split. now apply Qeq_bool_iff.
    + right. exists (s_start d), (n_lanes_start d).
      apply Qeq_bool_neq in Hq. repeat split; lra.
  - rewrite (skipn_nth_error_nil _ _ E). right.
    destruct c as [k |].
    + exists tot, k. repeat split; [exact Hlt | apply Qle_refl].
    + specialize (Hsome eq_refl).
      assert (Hlen : 0 < length side)
        by (destruct side; cbn; [congruence | lia]).
      destruct (py_getitem_ok side (length side - 1) ltac:(lia)) as [x Hx].
      replace (Z.of_nat (length side - 1)) with (Z.of_nat (length side) - 1)%Z
        in Hx by lia.
      rewrite py_getitem_last in Hx. rewrite Hx. cbn [bind].
      exists tot, (n_lanes_end x).
      repeat split; [exact Hlt | apply Qle_refl].
Qed.

Lemma ordered_from_le (lo lo' tot : Q) (side : list LaneDef) :
  ordered_from lo tot side -> (lo' <= lo)%Q -> ordered_from lo' tot side.
Proof.
  destruct side as [| d rest]; cbn; [tauto |].
  intros [H1 [H2 [H3 H4]]] Hle. repeat split; auto. lra.
Qed.

(** A pending descriptor of the other side that starts after the
    current position starts no earlier than the consumed one ends. *)
Lemma ordered_past_consumed (p tot : Q) (d : LaneDef) (this other : list LaneDef)
  (next : Q) :
  (s_start d == p)%Q -> (s_start d < s_end d)%Q -> (p < next)%Q ->
  (forall o, In o other -> co_located d o \/ co_located o d) ->
  ordered_from p tot other ->
  match other with
  | [] => True
  | o :: _ => next = s_start o
  end ->
  ordered_from (s_end d) tot other.
Proof.
  intros Hs Hlen Hnext Hal Hord Hhead.
  apply (ordered_from_head p); [exact Hord |].
  destruct other as [| o rest]; [exact I |]. subst next.
  destruct Hord as [_ [Ho _]].
  destruct (Hal o (or_introl eq_refl))
    as [[[H _] | [H | H]] | [[H _] | [H | H]]]; lra.
Qed.

Lemma sweep_step_tiling (cr cl : option Z) (tot w : Q) (st : sweep_state) :
  tiling_inv cr cl tot st ->
  Qltb (present_s st) tot = true ->
  exists st', sweep_step cr cl tot w st = Ok st' /\ tiling_inv cr cl tot st'.
Proof.
  intros [Hri Hli Hrs Hls Hro Hlo Hal Hw Htr Htl Hsb] Hlt.
  apply Qltb_true in Hlt. unfold sweep_step.
  destruct (probe_cases tot (right st) (r_it st) cr (present_s st)
              Hrs Hro Hlt)
    as [[dr [Dr [Pr Er]]] | [nr [kr [Pr [Hr1 [Hr2 Hr3]]]]]];
    destruct (probe_cases tot (left st) (l_it st) cl (present_s st)
                Hls Hlo Hlt)
      as [[dl [Dl [Pl El]]] | [nl [kl [Pl [Hl1 [Hl2 Hl3]]]]]];
    rewrite Pr, Pl; cbn [bind].
  - (* a descriptor starts here on both sides *)
    pose proof (nth_error_pending _ _ _ Dr) as Lr.
    pose proof (nth_error_pending _ _ _ Dl) as Ll.
    rewrite (skipn_nth_error_cons _ _ _ Dr) in Hro, Hal.
    rewrite (skipn_nth_error_cons _ _ _ Dl) in Hlo, Hal.
    destruct Hro as [Hr1 [Hr2 [Hr3 Hr4]]].
    destruct Hlo as [Hl1 [Hl2 [Hl3 Hl4]]].
    assert (Hend : (s_end dr == s_end dl)%Q).
    { destruct (Hal dr dl (or_introl eq_refl) (or_introl eq_refl))
        as [[_ H] | [H | H]]; [exact H | lra | lra]. }
    eexists. split; [reflexivity |].
    constructor;
      cbn [right left retlanes_right retlanes_left present_s r_it l_it];
      rewrite ?check_s_end, ?set_nth_length, ?Nat.add_1_r,
        ?skipn_set_nth_after.
    + lia.
    + lia.
    + intros H. apply set_nth_nonempty. auto.
    + intros H. apply set_nth_nonempty. auto.
    + apply (ordered_from_le (s_end dr)); [exact Hr4 | lra].
    + exact Hl4.
    + apply aligned_tail_r in Hal. now apply aligned_tail_l in Hal.
    + exact Hl3.
    + apply (tiles_end_eq _ (s_end (_check_lane_widths w dr))).
      * now rewrite check_s_end.
      * apply (tiles_snoc _ _ _ _ Htr); rewrite ?check_s_start, ?check_s_end;
          assumption.
    + rewrite <- (check_s_end w dl).
      apply (tiles_snoc _ _ _ _ Htl); rewrite ?check_s_start, ?check_s_end;
        assumption.
    + apply same_boundaries_snoc;
        rewrite ?check_s_start, ?check_s_end; [exact Hsb | lra | exact Hend].
  - (* only the right side has a descriptor starting here *)
    pose proof (nth_error_pending _ _ _ Dr) as Lr.
    rewrite (skipn_nth_error_cons _ _ _ Dr) in Hro, Hal.
    destruct Hro as [Ho1 [Ho2 [Ho3 Ho4]]].
    eexists. split; [reflexivity |].
    constructor;
      cbn [right left retlanes_right retlanes_left present_s r_it l_it];
      rewrite ?check_s_end, ?set_nth_length, ?Nat.add_1_r,
        ?skipn_set_nth_after.
    + lia.
    + exact Hli.
    + intros H. apply set_nth_nonempty. auto.
    + exact Hls.
    + exact Ho4.
    + apply (ordered_past_consumed (present_s st) tot dr
               (skipn (r_it st) (right st)) _ nl); auto.
      intros o Ho. left. apply Hal; [now left | exact Ho].
    + now apply aligned_tail_r in Hal.
    + exact Ho3.
    + rewrite <- (check_s_end w dr).
      apply (tiles_snoc _ _ _ _ Htr); rewrite ?check_s_start, ?check_s_end;
        assumption.
    + change (s_end dr)
        with (s_end (default_filler w (present_s st) (s_end dr) kl)) at 1.
      apply (tiles_snoc _ _ _ _ Htl); cbn; [reflexivity | lra].
    + apply same_boundaries_snoc;
        rewrite ?check_s_start, ?check_s_end; cbn;
        [exact Hsb | exact Er | reflexivity].
  - (* only the left side has a descriptor starting here *)
    pose proof (nth_error_pending _ _ _ Dl) as Ll.
    rewrite (skipn_nth_error_cons _ _ _ Dl) in Hlo, Hal.
    destruct Hlo as [Ho1 [Ho2 [Ho3 Ho4]]].
    eexists. split; [reflexivity |].
    constructor;
      cbn [right left retlanes_right retlanes_left present_s r_it l_it];
      rewrite ?check_s_end, ?set_nth_length, ?Nat.add_1_r,
        ?skipn_set_nth_after.
    + exact Hri.
    + lia.
    + exact Hrs.
    + intros H. apply set_nth_nonempty. auto.
    + apply (ordered_past_consumed (present_s st) tot dl
               (skipn (l_it st) (left st)) _ nr); auto.
      intros o Ho. right. apply Hal; [exact Ho | now left].
    + exact Ho4.
    + now apply aligned_tail_l in Hal.
    + exact Ho3.
    + change (s_end dl)
        with (s_end (default_filler w (present_s st) (s_end dl) kr)) at 1.
      apply (tiles_snoc _ _ _ _ Htr); cbn; [reflexivity | lra].
    + rewrite <- (check_s_end w dl).
      apply (tiles_snoc _ _ _ _ Htl); rewrite ?check_s_start, ?check_s_end;
        assumption.
    + apply same_boundaries_snoc;
        rewrite ?check_s_start, ?check_s_end; cbn;
        [exact Hsb | now symmetry | reflexivity].
  - (* no descriptor starts here *)
    destruct (filler_ok w cr (right st) (r_it st) (present_s st)
                (Qmin nl nr) kr Hri Hrs) as [fr [Fr [Frs Fre]]].
    destruct (filler_ok w cl (left st) (l_it st) (present_s st)
                (Qmin nl nr) kl Hli Hls) as [fl [Fl [Fls Fle]]].
    rewrite Fr, Fl. cbn [bind].
    pose proof (Q.le_min_l nl nr) as Hminl.
    pose proof (Q.le_min_r nl nr) as Hminr.
    pose proof (Q.min_glb_lt nl nr (present_s st) Hl1 Hr1) as Hmin.
    eexists. split; [reflexivity |].
    constructor;
      cbn [right left retlanes_right retlanes_left present_s r_it l_it];
      auto.
    + apply (ordered_from_head (present_s st)); [exact Hro |].
      destruct (skipn (r_it st) (right st)); [exact I | now subst nr].
    + apply (ordered_from_head (present_s st)); [exact Hlo |].
      destruct (skipn (l_it st) (left st)); [exact I | now subst nl].
    + lra.
    + rewrite <- Fre.
      apply (tiles_snoc _ _ _ _ Htr); rewrite ?Frs, ?Fre;
        [reflexivity | exact Hmin].
    + rewrite <- Fle.
      apply (tiles_snoc _ _ _ _ Htl); rewrite ?Fls, ?Fle;
        [reflexivity | exact Hmin].
    + apply same_boundaries_snoc; rewrite ?Frs, ?Fre, ?Fls, ?Fle;
        [exact Hsb | reflexivity | reflexivity].
Qed.

Lemma tiling_inv_init (rarg larg : lane_arg) (tot : Q) :
  (0 < tot)%Q ->
  valid_side tot rarg -> valid_side tot larg ->
  aligned (def_list rarg) (def_list larg) ->
  tiling_inv (const_lanes rarg) (const_lanes larg) tot
    (sweep_init rarg larg).
Proof.
  intros Htot Vr Vl Hal. unfold sweep_init.
  constructor; cbn [right left retlanes_right retlanes_left present_s
                      r_it l_it skipn tiles].
  - lia.
  - lia.
  - destruct rarg; cbn in *; [discriminate | tauto].
  - destruct larg; cbn in *; [discriminate | tauto].
  - destruct rarg; cbn in *; tauto.
  - destruct larg; cbn in *; tauto.
  - exact Hal.
  - lra.
  - reflexivity.
  - reflexivity.
  - constructor.
Qed.

(** C1 (as amended). For a positive road length and per-side input
    that is a lane count or a non-empty list of descriptors, each list
    in order, non-overlapping, of positive-length intervals within
    [0, road_length], and such that a right and a left descriptor
    cover the same interval or do not overlap (the co-location the
    docstring asks for): [_create_lane_lists] returns two sequences of
    the same length with the same [(s_start, s_end)] element for
    element, and the intervals of each sequence follow each other
    without gap or overlap from [0] to [road_length]. *)
Theorem create_lane_lists_tiles (right left : lane_arg) (tot w : Q) :
  (0 < tot)%Q ->
  valid_side tot right -> valid_side tot left ->
  aligned (def_list right) (def_list left) ->
  exists rr ll,
    _create_lane_lists right left tot w = Some (Ok (rr, ll)) /\
    length rr = length ll /\
    same_boundaries rr ll /\
    tiles 0 tot rr /\ tiles 0 tot ll.
Proof.
  intros Htot Vr Vl Hal.
  pose proof (tiling_inv_init right left tot Htot Vr Vl Hal) as Hinit.
  destruct (sweep_fuel_enough (const_lanes right) (const_lanes left) tot w
              (sweep_fuel (def_list right) (def_list left))
              (sweep_init right left)) as [r Hr].
  { left. unfold pending, sweep_fuel, sweep_init. cbn. lia. }
  destruct (sweep_no_raise _ _ tot w
              (tiling_inv (const_lanes right) (const_lanes left) tot)
              (fun st => sweep_step_tiling _ _ tot w st) _ _ _ Hinit Hr)
    as [st [-> [Hinv Hexit]]].
  apply Qltb_false in Hexit.
  destruct Hinv as [_ _ _ _ _ _ _ Hw Htr Htl Hsb].
  assert (Hat : (present_s st == tot)%Q) by lra.
  assert (Hkeep : forall d,
             s_start (_adjust_lane_widths d) = s_start d /\
             s_end (_adjust_lane_widths d) = s_end d).
  { intros d. destruct (adjust_counts d) as [_ [_ [_ H]]]. exact H. }
  exists (map _adjust_lane_widths (retlanes_right st)),
    (map _adjust_lane_widths (retlanes_left st)).
  split; [unfold _create_lane_lists; now rewrite Hr |].
  split.
  { rewrite !length_map. eapply Forall2_length; eauto. }
  split; [now apply same_boundaries_map |].
  split; apply tiles_map; auto; eapply tiles_end_eq; eauto.
Qed.

(** The split scenario. *)
Lemma create_lane_lists_tiles_witness :
  exists rr ll,
    _create_lane_lists (IntArg 2)
      (ListArg [LaneDef_init 20 40 2 3 (Some 3%Z) [] []]) 60 3
    = Some (Ok (rr, ll)) /\
    same_boundaries rr ll /\ tiles 0 60 rr /\ tiles 0 60 ll.
Proof.
  destruct (create_lane_lists_tiles (IntArg 2)
              (ListArg [LaneDef_init 20 40 2 3 (Some 3%Z) [] []]) 60 3)
    as [rr [ll [Hrun [_ [Hsame [Hr Hl]]]]]].
  - reflexivity.
  - exact I.
  - cbn. split; [discriminate |]. repeat split; cbn; discriminate.
  - intros r l [].
  - exists rr, ll. auto.
Defined.

(** C1 (as stated) fails: each side's list is in order, without overlap
    and inside the road, yet with a right descriptor on [0, 5) and a
    left one on [0, 10) of a 10 long road the returned sequences have
    different end positions, and the right one stops at 5. *)
Lemma unaligned_sides_differ :
  exists r l,
    _create_lane_lists (ListArg [LaneDef_init 0 5 1 1 None [] []])
      (ListArg [LaneDef_init 0 10 1 1 None [] []]) 10 3
    = Some (Ok ([r], [l])) /\
    ~ (s_end r == s_end l)%Q /\
    ~ tiles 0 10 [r].
Proof.
  do 2 eexists. split; [vm_compute; reflexivity |].
  cbn. split.
  - intros H. discriminate H.
  - intros [_ [_ H]]. discriminate H.
Qed.

(** With a right descriptor on [0, 10) and a left one on [5, 15) of a
    20 long road the sweep steps back from 10 to 5: the second interval
    of both sequences runs from 10 to 5. *)
Lemma overlapping_sides_step_back :
  exists r0 r1 r2 r3 ll,
    _create_lane_lists (ListArg [LaneDef_init 0 10 1 1 None [] []])
      (ListArg [LaneDef_init 5 15 1 1 None [] []]) 20 3
    = Some (Ok ([r0; r1; r2; r3], ll)) /\
    s_start r1 = 10%Q /\ s_end r1 = 5%Q.
Proof.
  do 5 eexists. split; [vm_compute; reflexivity |]. split; reflexivity.
Qed.

(* ================================================================= *)
(** ** The build is all or nothing *)

Lemma check_has_start_widths (w : Q) (d : LaneDef) :
  has_start_widths (_check_lane_widths w d).
Proof.
  unfold has_start_widths, _check_lane_widths.
  destruct (nonempty (lane_start_widths d)) eqn:E1; cbn;
    match goal with |- context [nonempty ?l] => destruct (nonempty l) end;
    cbn; intros H; auto using default_widths_nonempty;
    apply default_widths_nonempty; lia.
Qed.

Lemma init_same_has_start_widths (w s e : Q) (n : Z) (ws : list Q) :
  has_start_widths
    (LaneDef_init s e n n None
       (if nonempty ws then ws else default_widths w n)
       (if nonempty ws then ws else default_widths w n)).
Proof.
  unfold has_start_widths, LaneDef_init. cbn. intros H.
  destruct (nonempty ws) eqn:E; [exact E |].
  apply default_widths_nonempty. lia.
Qed.

Lemma default_filler_has_start_widths (w s e : Q) (n : Z) :
  has_start_widths (default_filler w s e n).
Proof.
  unfold has_start_widths. rewrite default_filler_fields. cbn.
  intros H. apply default_widths_nonempty. lia.
Qed.

Lemma filler_has_start_widths (w : Q) (c : option Z) (side : list LaneDef)
  (it : nat) (s e : Q) (n : Z) (f : LaneDef) :
  filler w c side it s e n = Ok f -> has_start_widths f.
Proof.
  unfold filler, carried_filler. destruct c as [k |].
  - intros [= <-]. apply default_filler_has_start_widths.
  - destruct (it =? length side).
    + destruct (py_getitem side (Z.of_nat it - 1)) as [d |]; cbn [bind];
        [| discriminate].
      intros [= <-]. apply init_same_has_start_widths.
    + destruct (py_getitem side (Z.of_nat it)) as [d |]; cbn [bind];
        [| discriminate].
      intros [= <-]. apply init_same_has_start_widths.
Qed.

Lemma sweep_step_emitted (cr cl : option Z) (tot w : Q)
  (st st' : sweep_state) :
  emitted_inv st -> sweep_step cr cl tot w st = Ok st' -> emitted_inv st'.
Proof.
  intros [Hlen [Hr Hl]]. unfold sweep_step.
  destruct (probe_side tot (right st) (r_it st) cr (present_s st))
    as [pr |]; cbn [bind]; [| discriminate].
  destruct (probe_side tot (left st) (l_it st) cl (present_s st))
    as [pl |]; cbn [bind]; [| discriminate].
  destruct pl as [dl | nl kl], pr as [dr | nr kr].
  - intros [= <-]. unfold emitted_inv. cbn. rewrite !length_app. cbn.
    repeat split;
      auto using Forall_snoc, check_has_start_widths.
  - intros [= <-]. unfold emitted_inv. cbn. rewrite !length_app. cbn.
    repeat split;
      auto using Forall_snoc, check_has_start_widths,
        default_filler_has_start_widths.
  - intros [= <-]. unfold emitted_inv. cbn. rewrite !length_app. cbn.
    repeat split;
      auto using Forall_snoc, check_has_start_widths,
        default_filler_has_start_widths.
  - destruct (filler w cr (right st) (r_it st) (present_s st)
                (Qmin nl nr) kr) as [fr |] eqn:Fr; cbn [bind];
      [| discriminate].
    destruct (filler w cl (left st) (l_it st) (present_s st)
                (Qmin nl nr) kl) as [fl |] eqn:Fl; cbn [bind];
      [| discriminate].
    apply filler_has_start_widths in Fr, Fl.
    intros [= <-]. unfold emitted_inv. cbn. rewrite !length_app. cbn.
    repeat split; auto using Forall_snoc.
Qed.

Lemma adjust_has_start_widths (d : LaneDef) :
  has_start_widths d -> has_start_widths (_adjust_lane_widths d).
Proof.
  unfold has_start_widths. destruct (adjust_counts d) as [-> _].
  intros H Hn. specialize (H Hn). unfold _adjust_lane_widths.
  destruct (truthy (sub_lane d)); [| exact H].
  destruct (nonempty (lane_end_widths d) && _); [exact H |].
  destruct (nonempty (lane_start_widths d) && _); [| exact H].
  cbn. unfold py_insert.
  destruct (firstn _ (lane_start_widths d)); reflexivity.
Qed.

Lemma create_lane_lists_emitted (rarg larg : lane_arg) (tot w : Q)
  (rr ll : list LaneDef) :
  _create_lane_lists rarg larg tot w = Some (Ok (rr, ll)) ->
  length rr = length ll /\
  Forall has_start_widths rr /\ Forall has_start_widths ll.
Proof.
  intros Hrun.
  apply create_lane_lists_inv in Hrun as [st [Hsweep [-> ->]]].
  apply (sweep_invariant _ _ tot w emitted_inv
           (fun s s' H => sweep_step_emitted _ _ _ _ s s' H)) in Hsweep.
  - destruct Hsweep as [Hlen [Hr Hl]]. rewrite !length_map.
    split; [exact Hlen |].
    split; apply Forall_map; eapply Forall_impl;
      eauto using adjust_has_start_widths.
  - unfold emitted_inv, sweep_init. cbn. auto.
Qed.

Lemma get_coeffs_ok (len a : Q) (z : bool) (b : Q) (c : Q * Q * Q * Q) :
  get_coeffs_for_poly3 len a z b = Ok c -> (0 < len)%Q.
Proof.
  unfold get_coeffs_for_poly3. destruct (Qle_bool len 0) eqn:E;
    [discriminate |].
  intros _. apply not_true_iff_false in E. rewrite Qle_bool_iff in E. lra.
Qed.

Lemma transition_lane_ok (ld : LaneDef) (i : Z) (z : bool) (rm : RoadMark)
  (lane : Lane) :
  transition_lane ld i z rm = Ok lane -> (s_start ld < s_end ld)%Q.
Proof.
  unfold transition_lane.
  destruct (py_getitem (lane_start_widths ld) i); cbn [bind];
    [| discriminate].
  destruct (py_getitem (lane_end_widths ld) i); cbn [bind];
    [| discriminate].
  destruct (get_coeffs_for_poly3 _ _ _ _) eqn:G; cbn [bind];
    [| discriminate].
  intros _. apply get_coeffs_ok in G. lra.
Qed.

Lemma plain_lane_ok (ld : LaneDef) (w : Q) (lwe : option Q) (i : Z)
  (rm : RoadMark) (lane : Lane) :
  nonempty (lane_start_widths ld) = true ->
  plain_lane ld w lwe i rm = Ok lane -> (s_start ld < s_end ld)%Q.
Proof.
  intros Hne. unfold plain_lane. rewrite Hne.
  destruct lwe as [e |]; [| apply transition_lane_ok].
  destruct (negb (Qeq_bool w e)); [| apply transition_lane_ok].
  destruct (get_coeffs_for_poly3 _ _ _ _) eqn:G; cbn [bind];
    [| discriminate].
  intros _. apply get_coeffs_ok in G. lra.
Qed.

Lemma side_lane_at_ok (ld : LaneDef) (w : Q) (lwe : option Q) (i : Z)
  (lane : Lane) :
  nonempty (lane_start_widths ld) = true ->
  right_lane_at ld w lwe i = Ok lane \/ left_lane_at ld w lwe i = Ok lane ->
  (s_start ld < s_end ld)%Q.
Proof.
  intros Hne. unfold right_lane_at, left_lane_at.
  intros [H | H]; revert H;
    repeat match goal with
      | |- context [and_at ?c ?k ?i] =>
          destruct (and_at c k i) as [[|] |]; cbn [bind]
      end;
    try discriminate;
    eauto using transition_lane_ok, plain_lane_ok.
Qed.

Lemma py_range_pos (m : Z) :
  (1 <= m)%Z -> exists rest, py_range m = 0%Z :: rest.
Proof.
  intros H. unfold py_range.
  replace (Z.to_nat m) with (S (Z.to_nat (m - 1))) by lia.
  cbn. eauto.
Qed.

Lemma side_lanes_of_ok
  (f : LaneDef -> Q -> option Q -> Z -> result Lane) (ld : LaneDef)
  (w : Q) (lwe : option Q) (lanes : list Lane) :
  (forall i lane, f ld w lwe i = Ok lane -> (s_start ld < s_end ld)%Q) ->
  side_lanes_of f ld w lwe = Ok lanes ->
  nondegenerate ld.
Proof.
  intros Hf Hrun Hn. unfold side_lanes_of in Hrun.
  apply for_each_map_inv in Hrun as [ys [_ HF]].
  destruct (py_range_pos (Z.max (n_lanes_start ld) (n_lanes_end ld))
              ltac:(lia)) as [rest E].
  rewrite E in HF. inversion HF as [| ? y ? ? Hy _]; subst.
  eapply Hf; eauto.
Qed.

Lemma build_lanesection_inv (rr ll : list LaneDef) (crm : RoadMark) (w : Q)
  (lwe : option Q) (ls : Z) (sec : LaneSection) :
  build_lanesection rr ll crm w lwe ls = Ok sec ->
  exists r l,
    py_getitem rr ls = Ok r /\ py_getitem ll ls = Ok l /\
    section_s sec = s_start l /\
    side_lanes_of right_lane_at r w lwe = Ok (rightlanes sec) /\
    side_lanes_of left_lane_at l w lwe = Ok (leftlanes sec).
Proof.
  unfold build_lanesection.
  destruct (py_getitem ll ls) as [l |] eqn:Gl; cbn [bind]; [| discriminate].
  destruct (py_getitem rr ls) as [r |] eqn:Gr; cbn [bind]; [| discriminate].
  destruct (side_lanes_of right_lane_at r w lwe) as [rights |] eqn:Sr;
    cbn [bind]; [| discriminate].
  destruct (side_lanes_of left_lane_at l w lwe) as [lefts |] eqn:Sl;
    cbn [bind]; [| discriminate].
  intros [= <-]. exists r, l. cbn. auto.
Qed.

Lemma Forall2_nth_error_r {A B : Type} (R : A -> B -> Prop) (xs : list A)
  (ys : list B) (i : nat) (y : B) :
  Forall2 R xs ys -> nth_error ys i = Some y ->
  exists x, nth_error xs i = Some x /\ R x y.
Proof.
  intros H. revert i. induction H as [| x y' xs ys Hxy _ IH]; intros [| i];
    cbn; try discriminate.
  - intros [= <-]. eauto.
  - apply IH.
Qed.

Lemma nth_error_py_range (n : Z) (i : nat) (x : Z) :
  nth_error (py_range n) i = Some x -> x = Z.of_nat i.
Proof.
  unfold py_range. rewrite nth_error_map.
  destruct (nth_error (seq 0 (Z.to_nat n)) i) as [k |] eqn:E; cbn;
    [| discriminate].
  intros [= <-]. f_equal.
  pose proof (nth_error_pending _ _ _ E) as Hi. rewrite length_seq in Hi.
  rewrite (nth_error_nth' _ 0 ltac:(rewrite length_seq; exact Hi)) in E.
  rewrite seq_nth in E by exact Hi. now injection E.
Qed.

(** Every lane section the builder returns was built for the intervals
    at its position, with all their lanes. *)
Lemma build_lanesections_inv (rr ll : list LaneDef) (crm : RoadMark)
  (w : Q) (lwe : option Q) (secs : list LaneSection) :
  Forall has_start_widths rr -> Forall has_start_widths ll ->
  build_lanesections rr ll crm w lwe = Ok secs ->
  length secs = length ll /\
  forall i sec,
    nth_error secs i = Some sec ->
    exists r l,
      nth_error rr i = Some r /\ nth_error ll i = Some l /\
      section_complete sec r l /\ nondegenerate r /\ nondegenerate l.
Proof.
  intros Hr Hl Hrun. unfold build_lanesections in Hrun.
  apply for_each_map_inv in Hrun as [ys [E HF]]. cbn in E. subst ys.
  split.
  { apply Forall2_length in HF. rewrite <- HF, py_range_length. lia. }
  intros i sec Hsec.
  destruct (Forall2_nth_error_r _ _ _ _ _ HF Hsec) as [ls [Hls Hb]].
  apply nth_error_py_range in Hls. subst ls.
  apply build_lanesection_inv in Hb as [r [l [Gr [Gl [Hs [Sr Sl]]]]]].
  apply py_getitem_nat_inv in Gr, Gl.
  exists r, l. split; [exact Gr |]. split; [exact Gl |].
  split; [| split].
  - unfold section_complete.
    rewrite (side_lanes_of_length _ _ _ _ _ Sr).
    rewrite (side_lanes_of_length _ _ _ _ _ Sl). auto.
  - intros Hn. apply (side_lanes_of_ok _ _ _ _ _ (fun i lane H =>
      side_lane_at_ok r w lwe i lane
        (Forall_nth_error _ _ _ _ Hr Gr Hn) (or_introl H)) Sr Hn).
  - intros Hn. apply (side_lanes_of_ok _ _ _ _ _ (fun i lane H =>
      side_lane_at_ok l w lwe i lane
        (Forall_nth_error _ _ _ _ Hl Gl Hn) (or_intror H)) Sl Hn).
Qed.

(** C6 (as amended). The build does not check the descriptors'
    intervals: for every input it ends with one outcome, and when that
    outcome is a lane structure it is complete, with one lane section
    per interval of the expanded timelines and
    [max(n_lanes_start, n_lanes_end)] lanes per side; every interval
    that has a lane at its start then has [s_start < s_end], because an
    interval of non-positive length makes the width-transition solver
    report an error, which aborts the build. *)
Theorem build_all_or_nothing (right_lane_def left_lane_def : lane_arg)
  (road_length : Q) (center_road_mark : RoadMark) (lane_width : Q)
  (lane_width_end : option Q) :
  exists outcome,
    create_lanes_merge_split right_lane_def left_lane_def road_length
      center_road_mark lane_width lane_width_end = Some outcome /\
    forall lanes,
      outcome = Ok lanes ->
      exists rr ll,
        _create_lane_lists right_lane_def left_lane_def road_length
          lane_width = Some (Ok (rr, ll)) /\
        length rr = length ll /\
        length (lanesections lanes) = length ll /\
        forall i sec,
          nth_error (lanesections lanes) i = Some sec ->
          exists r l,
            nth_error rr i = Some r /\ nth_error ll i = Some l /\
            section_complete sec r l /\ nondegenerate r /\ nondegenerate l.
Proof.
  destruct (create_lane_lists_returns right_lane_def left_lane_def
              road_length lane_width) as [r Hr].
  unfold create_lanes_merge_split. rewrite Hr.
  destruct r as [[rr ll] | e].
  - eexists. split; [reflexivity |]. intros lanes Hout.
    destruct (create_lane_lists_emitted _ _ _ _ _ _ Hr) as [Hlen [Er El]].
    destruct (build_lanesections rr ll center_road_mark lane_width
                lane_width_end) as [secs |] eqn:B; cbn [bind] in Hout;
      [| discriminate].
    destruct (link_side RightSide rr secs []) as [k1 |]; cbn [bind] in Hout;
      [| discriminate].
    destruct (link_side LeftSide ll secs k1) as [k2 |]; cbn [bind] in Hout;
      [| discriminate].
    injection Hout as <-. cbn [lanesections].
    destruct (build_lanesections_inv _ _ _ _ _ _ Er El B) as [Hsecs Hall].
    exists rr, ll. auto.
  - eexists. split; [reflexivity |]. discriminate.
Qed.

(** C6 (as stated) fails: a descriptor on [0, 20) of a road of length
    10 extends past the road, and the build returns a lane structure
    with one lane section. *)
Lemma past_road_length_accepted :
  exists lanes,
    create_lanes_merge_split
      (ListArg [LaneDef_init 0 20 1 1 None [] []]) (IntArg 1)
      10 std_roadmark_solid 3 None
    = Some (Ok lanes) /\
    length (lanesections lanes) = 1.
Proof.
  eexists. split; [vm_compute; reflexivity | reflexivity].
Qed.

(* ================================================================= *)
(** ** The split scenario, end to end *)

(** Two lanes on the right, and on the left
    [LaneDef(20, 40, 2, 3, sub_lane=3)], on a 60 long road with lane
    width 3: three lane sections at 0, 20 and 40; the third left lane
    of the middle section grows from width 0 with the cubic
    [9/400 x^2 - 6/8000 x^3]; it has no predecessor, and the three left
    lanes of the middle section continue into the last section. *)
Example split_scenario_build :
  exists s0 s1 s2 links,
    create_lanes_merge_split (IntArg 2)
      (ListArg [LaneDef_init 20 40 2 3 (Some 3%Z) [] []])
      60 std_roadmark_solid 3 None
    = Some (Ok (mkLanes [s0; s1; s2] links)) /\
    map section_s [s0; s1; s2] = [0; 20; 40]%Q /\
    map (fun s => length (leftlanes s)) [s0; s1; s2] = [2; 3; 3] /\
    nth_error (leftlanes s1) 2
    = Some (mkLane 0 0 (9 # 400) (-6 # 8000) [std_roadmark_solid]) /\
    filter (fun k => match on_side (link_pre k) with
                     | LeftSide => true
                     | RightSide => false
                     end) links
    = [link_across 0 LeftSide 0 0; link_across 0 LeftSide 1 1;
       link_across 1 LeftSide 0 0; link_across 1 LeftSide 1 1;
       link_across 1 LeftSide 2 2].
Proof.
  do 4 eexists. split; [vm_compute; reflexivity |].
  repeat split.
Qed.

(* ================================================================= *)
(** * Further properties of the code *)

(** ** Normalisation and padding, applied again *)

Lemma default_widths_empty_any (w w' : Q) (n : Z) :
  nonempty (default_widths w n) = false ->
  default_widths w' n = default_widths w n.
Proof.
  intros H. apply nonempty_false in H. rewrite H.
  pose proof (default_widths_length w n) as L. rewrite H in L. cbn in L.
  pose proof (default_widths_length w' n) as L'. rewrite <- L in L'.
  destruct (default_widths w' n); [reflexivity | discriminate].
Qed.

(** X1. [_check_lane_widths] is idempotent, and a second pass with any
    other default width changes nothing either: once a descriptor went
    through it, its width lists are fixed. *)
Theorem check_lane_widths_idempotent (w w' : Q) (d : LaneDef) :
  _check_lane_widths w' (_check_lane_widths w d) = _check_lane_widths w d.
Proof.
  destruct d as [s e ns ne sub sw ew]. unfold _check_lane_widths.
  cbn [lane_start_widths lane_end_widths n_lanes_start n_lanes_end
       set_start_widths set_end_widths].
  destruct (nonempty sw) eqn:Es;
    cbn [lane_start_widths lane_end_widths n_lanes_start n_lanes_end
         s_start s_end sub_lane set_start_widths set_end_widths];
    destruct (nonempty ew) eqn:Ee;
    cbn [lane_start_widths lane_end_widths n_lanes_start n_lanes_end
         s_start s_end sub_lane set_start_widths set_end_widths];
    rewrite ?Es, ?Ee;
    cbn [lane_start_widths lane_end_widths n_lanes_start n_lanes_end
         s_start s_end sub_lane set_start_widths set_end_widths];
    repeat match goal with
      | |- context [nonempty (default_widths ?x ?n)] =>
          let E := fresh "E" in
          destruct (nonempty (default_widths x n)) eqn:E;
          cbn [lane_start_widths lane_end_widths n_lanes_start n_lanes_end
               s_start s_end sub_lane set_start_widths set_end_widths]
      end;
    rewrite ?Es, ?Ee;
    repeat match goal with
      | H : nonempty (default_widths w ?n) = false |- _ =>
          rewrite (default_widths_empty_any w w' n H); clear H
      end;
    reflexivity.
Qed.

(** X2. For a normalised descriptor whose lane counts differ by at most
    one, [_adjust_lane_widths] is idempotent: the placeholder is
    inserted once, however often the method is called on the
    descriptor. *)
Theorem adjust_lane_widths_idempotent (d : LaneDef) :
  normalized d ->
  (Z.abs (n_lanes_start d - n_lanes_end d) <= 1)%Z ->
  _adjust_lane_widths (_adjust_lane_widths d) = _adjust_lane_widths d.
Proof.
  intros Hn Hone.
  pose proof (adjust_padded d Hn) as [Ps Pe].
  destruct (adjust_counts d) as [Cs [Ce [Csub _]]].
  destruct (truthy (sub_lane d)) eqn:T.
  2: { rewrite (adjust_falsy d T). now apply adjust_falsy. }
  set (d' := _adjust_lane_widths d) in *.
  unfold _adjust_lane_widths at 1. rewrite Csub, T.
  rewrite !nonempty_length, Ps, Pe, Cs, Ce.
  unfold pads_start, pads_end. rewrite Csub, Cs, Ce, T. cbn [andb].
  destruct Hn as [Hs [He _]].
  replace (_ && (Z.of_nat _ <? n_lanes_start d)%Z) with false.
  - replace (_ && (Z.of_nat _ <? n_lanes_end d)%Z) with false;
      [reflexivity |].
    symmetry. apply andb_false_iff.
    destruct (Z.leb_spec 1 (n_lanes_start d)),
      (Z.ltb_spec (n_lanes_start d) (n_lanes_end d)); cbn [andb];
      first [right; apply Z.ltb_ge; lia | left; apply Z.leb_gt; lia].
  - symmetry. apply andb_false_iff.
    destruct (Z.leb_spec 1 (n_lanes_end d)),
      (Z.ltb_spec (n_lanes_end d) (n_lanes_start d)); cbn [andb];
      first [right; apply Z.ltb_ge; lia | left; apply Z.leb_gt; lia].
Qed.

(** The split descriptor of the split scenario, normalised. *)
Lemma adjust_lane_widths_idempotent_witness :
  _adjust_lane_widths
    (_adjust_lane_widths
       (mkLaneDef 20 40 2 3 (Some 3%Z) [3; 3]%Q [3; 3; 3]%Q))
  = _adjust_lane_widths
      (mkLaneDef 20 40 2 3 (Some 3%Z) [3; 3]%Q [3; 3; 3]%Q).
Proof.
  apply adjust_lane_widths_idempotent.
  - unfold normalized. cbn. repeat split; lia.
  - cbn. lia.
Defined.

(** X3. A descriptor whose counts differ by two or more is padded again
    by a second call: for [LaneDef(0, 10, 3, 1, 3)] normalised with
    widths 3, the first call gives end widths [[3, 0]], the second
    [[3, 0, 0]].  (Stated for every normalised merge by two or more:
    the second call lengthens [lane_end_widths] once more.) *)
Theorem adjust_lane_widths_pads_again (d : LaneDef) :
  normalized d ->
  truthy (sub_lane d) = true ->
  (1 <= n_lanes_end d)%Z ->
  (n_lanes_end d + 2 <= n_lanes_start d)%Z ->
  length (lane_end_widths (_adjust_lane_widths (_adjust_lane_widths d)))
  = Z.to_nat (n_lanes_end d) + 2.
Proof.
  intros Hn T He Hs.
  pose proof (adjust_padded d Hn) as [_ Pe].
  destruct (adjust_counts d) as [Cs [Ce [Csub _]]].
  unfold pads_end in Pe. rewrite Csub, Cs, Ce, T in Pe. cbn [andb] in Pe.
  replace (1 <=? n_lanes_end d)%Z with true in Pe
    by (symmetry; apply Z.leb_le; lia).
  replace (n_lanes_end d <? n_lanes_start d)%Z with true in Pe
    by (symmetry; apply Z.ltb_lt; lia).
  cbn [andb] in Pe.
  set (d' := _adjust_lane_widths d) in *.
  unfold _adjust_lane_widths. rewrite Csub, T.
  rewrite nonempty_length, Pe, Cs.
  replace (1 <=? Z.of_nat (Z.to_nat (n_lanes_end d) + 1))%Z with true
    by (symmetry; apply Z.leb_le; lia).
  replace (Z.of_nat (Z.to_nat (n_lanes_end d) + 1) <? n_lanes_start d)%Z
    with true by (symmetry; apply Z.ltb_lt; lia).
  cbn [andb set_end_widths lane_end_widths].
  rewrite py_insert_length, Pe. lia.
Qed.

Lemma adjust_lane_widths_pads_again_witness :
  length (lane_end_widths
            (_adjust_lane_widths
               (_adjust_lane_widths
                  (mkLaneDef 0 10 3 1 (Some 3%Z) [3; 3; 3]%Q [3]%Q))))
  = 3.
Proof.
  apply (adjust_lane_widths_pads_again
           (mkLaneDef 0 10 3 1 (Some 3%Z) [3; 3; 3]%Q [3]%Q)).
  - unfold normalized. cbn. repeat split; lia.
  - reflexivity.
  - cbn. lia.
  - cbn. lia.
Defined.

(** ** The placeholder of an index past the widths *)

Lemma py_insert_past_end {A : Type} (l : list A) (i : Z) (x : A) :
  (Z.of_nat (length l) <= i)%Z -> py_insert l i x = l ++ [x].
Proof.
  intros H. unfold py_insert. rewrite insert_pos_nonneg by lia.
  rewrite Nat.min_r by lia.
  now rewrite firstn_all, skipn_all.
Qed.

(** X4. A changed-lane index that points past the width list to be
    padded raises nothing in [_adjust_lane_widths]: the zero placeholder
    is appended after the last width, for a merge to [lane_end_widths]
    and for a split to [lane_start_widths]. *)
Theorem adjust_index_past_widths_appends (self : LaneDef) (sub : Z) :
  sub_lane self = Some sub -> sub <> 0%Z ->
  (merge_padding_due self = true ->
   (Z.of_nat (length (lane_end_widths self)) <= Z.abs sub - 1)%Z ->
   _adjust_lane_widths self
   = set_end_widths self (lane_end_widths self ++ [0%Q])) /\
  (merge_padding_due self = false -> split_padding_due self = true ->
   (Z.of_nat (length (lane_start_widths self)) <= Z.abs sub - 1)%Z ->
   _adjust_lane_widths self
   = set_start_widths self (lane_start_widths self ++ [0%Q])).
Proof.
  intros Hs Hz. rewrite (adjust_unfold self sub Hs Hz). split.
  - intros -> Hlen. now rewrite py_insert_past_end.
  - intros -> -> Hlen. now rewrite py_insert_past_end.
Qed.

(** [LaneDef(10, 20, 2, 3, 5)] normalised: the index 5 is past the two
    start widths. *)
Lemma adjust_index_past_widths_appends_witness :
  _adjust_lane_widths (mkLaneDef 10 20 2 3 (Some 5%Z) [3; 3]%Q [3; 3; 3]%Q)
  = mkLaneDef 10 20 2 3 (Some 5%Z) [3; 3; 0]%Q [3; 3; 3]%Q.
Proof.
  exact (proj2 (adjust_index_past_widths_appends
                  (mkLaneDef 10 20 2 3 (Some 5%Z) [3; 3]%Q [3; 3; 3]%Q)
                  5%Z eq_refl ltac:(discriminate))
           eq_refl eq_refl ltac:(cbn; lia)).
Defined.

(** ** One list object given for both width lists *)

(** X5. The constructor stores a non-empty [lane_end_widths] argument
    as it is.  When the caller passes one non-empty list object for
    both width arguments, the descriptor's two width lists are that one
    object: whatever is inserted into [lane_start_widths] (the split
    placeholder of [_adjust_lane_widths], say) is seen in
    [lane_end_widths] too. *)
Theorem init_shares_given_list (h : Heap.store) (s e : Q) (ns ne : Z)
  (sub : option Z) (r : Heap.ref) :
  Heap.deref h r <> [] ->
  let h' := fst (Heap.init h s e ns ne sub r r) in
  let o := snd (Heap.init h s e ns ne sub r r) in
  h' = h /\
  Heap.o_lane_start_widths o = r /\ Heap.o_lane_end_widths o = r /\
  (forall (i : Z) (x : Q),
      Heap.deref (Heap.insert h' (Heap.o_lane_start_widths o) i x)
        (Heap.o_lane_end_widths o)
      = py_insert (Heap.deref h r) i x) /\
  (truthy sub = true ->
   (Z.of_nat (length (Heap.deref h r)) <? ns)%Z = false ->
   (Z.of_nat (length (Heap.deref h r)) <? ne)%Z = true ->
   length (Heap.deref (Heap._adjust_lane_widths h' o)
             (Heap.o_lane_end_widths o))
   = S (length (Heap.deref h r))).
Proof.
  intros Hne. rewrite (init_keeps_given_end_list h s e ns ne sub r r Hne).
  cbn [fst snd Heap.o_lane_start_widths Heap.o_lane_end_widths].
  pose proof (deref_nonempty_valid h r Hne) as Hvalid.
  assert (Hins : forall (i : Z) (x : Q),
             Heap.deref (Heap.insert h r i x) r
             = py_insert (Heap.deref h r) i x).
  { intros i x. unfold Heap.insert. now apply deref_assign_same. }
  repeat split; try apply Hins.
  intros T Hm Hsp. unfold Heap._adjust_lane_widths.
  cbn [Heap.o_sub_lane Heap.o_lane_end_widths Heap.o_lane_start_widths
       Heap.o_n_lanes_start Heap.o_n_lanes_end].
  rewrite T, Hm, Hsp, andb_false_r, andb_true_r.
  destruct (Heap.deref h r) eqn:E; [congruence |].
  cbn [nonempty]. rewrite Hins, ?E. apply py_insert_length.
Qed.

(** [w = [3, 3]; LaneDef(10, 20, 2, 3, 3, w, w)]: after the padding
    both width lists have three entries. *)
Lemma init_shares_given_list_witness :
  let h := [[3; 3]%Q] in
  let h' := fst (Heap.init h 10 20 2 3 (Some 3%Z) 0 0) in
  let o := snd (Heap.init h 10 20 2 3 (Some 3%Z) 0 0) in
  length (Heap.deref (Heap._adjust_lane_widths h' o)
            (Heap.o_lane_end_widths o)) = 3.
Proof.
  pose proof (init_shares_given_list [[3; 3]%Q] 10 20 2 3 (Some 3%Z) 0
                ltac:(discriminate)) as H.
  cbv zeta in H. destruct H as [_ [_ [_ [_ H]]]].
  exact (H eq_refl eq_refl eq_refl).
Defined.

(* ================================================================= *)
(** ** What the expansion does for every input *)

Lemma filler_bounds (w : Q) (c : option Z) (side : list LaneDef) (it : nat)
  (s e : Q) (n : Z) (f : LaneDef) :
  filler w c side it s e n = Ok f -> s_start f = s /\ s_end f = e.
Proof.
  unfold filler, carried_filler. destruct c as [k |].
  - intros [= <-]. apply LaneDef_init_bounds.
  - destruct (it =? length side).
    + destruct (py_getitem side (Z.of_nat it - 1)); cbn [bind];
        [| discriminate].
      intros [= <-]. apply LaneDef_init_bounds.
    + destruct (py_getitem side (Z.of_nat it)); cbn [bind];
        [| discriminate].
      intros [= <-]. apply LaneDef_init_bounds.
Qed.

Lemma chained_end_eq (lo hi hi' : Q) (tl : list LaneDef) :
  (hi == hi')%Q -> chained lo hi tl -> chained lo hi' tl.
Proof.
  intros E. revert lo. induction tl as [| d tl IH]; intros lo; cbn.
  - intros H. now rewrite H.
  - intros [H1 H2]. auto.
Qed.

Lemma chained_snoc (lo hi : Q) (tl : list LaneDef) (d : LaneDef) :
  chained lo hi tl -> (s_start d == hi)%Q ->
  chained lo (s_end d) (tl ++ [d]).
Proof.
  revert lo. induction tl as [| x tl IH]; intros lo; cbn.
  - intros H1 H2. split; [now rewrite H2, H1 | reflexivity].
  - intros [H1 H2] H3. auto.
Qed.

Lemma chained_map (f : LaneDef -> LaneDef) (lo hi : Q) (tl : list LaneDef) :
  (forall d, s_start (f d) = s_start d /\ s_end (f d) = s_end d) ->
  chained lo hi tl -> chained lo hi (map f tl).
Proof.
  intros Hf. revert lo. induction tl as [| d tl IH]; intros lo; cbn; auto.
  destruct (Hf d) as [-> ->]. intros [H1 H2]. auto.
Qed.

Lemma same_starts_snoc (a b : list LaneDef) (x y : LaneDef) :
  same_starts a b -> (s_start x == s_start y)%Q ->
  same_starts (a ++ [x]) (b ++ [y]).
Proof.
  intros H H1. apply Forall2_app; [exact H |].
  constructor; [assumption | constructor].
Qed.

Lemma same_starts_map (f : LaneDef -> LaneDef) (a b : list LaneDef) :
  (forall d, s_start (f d) = s_start d) ->
  same_starts a b -> same_starts (map f a) (map f b).
Proof.
  intros Hf H. induction H as [| x y a b Hxy Hab IH]; cbn; constructor; auto.
  now rewrite !Hf.
Qed.

Lemma sweep_step_starts (cr cl : option Z) (tot w : Q)
  (st st' : sweep_state) :
  starts_inv st -> sweep_step cr cl tot w st = Ok st' -> starts_inv st'.
Proof.
  intros [Hsame Hch]. unfold sweep_step.
  destruct (probe_side tot (right st) (r_it st) cr (present_s st))
    as [pr |] eqn:Pr; cbn [bind]; [| discriminate].
  destruct (probe_side tot (left st) (l_it st) cl (present_s st))
    as [pl |] eqn:Pl; cbn [bind]; [| discriminate].
  destruct pl as [dl | nl kl], pr as [dr | nr kr].
  - apply probe_side_add in Pr as [_ Er]. apply probe_side_add in Pl as [_ El].
    apply Qeq_bool_iff in Er, El.
    intros [= <-]. unfold starts_inv.
    cbn [retlanes_right retlanes_left present_s]. split.
    + apply same_starts_snoc; [exact Hsame |].
      rewrite !check_s_start. now rewrite Er, El.
    + apply (chained_snoc _ (present_s st)); [exact Hch | now rewrite check_s_start].
  - apply probe_side_add in Pl as [_ El]. apply Qeq_bool_iff in El.
    intros [= <-]. unfold starts_inv.
    cbn [retlanes_right retlanes_left present_s]. split.
    + apply same_starts_snoc; [exact Hsame |].
      rewrite check_s_start. cbn [default_filler LaneDef_init s_start].
      now symmetry.
    + apply (chained_snoc _ (present_s st)); [exact Hch | now rewrite check_s_start].
  - apply probe_side_add in Pr as [_ Er]. apply Qeq_bool_iff in Er.
    intros [= <-]. unfold starts_inv.
    cbn [retlanes_right retlanes_left present_s]. split.
    + apply same_starts_snoc; [exact Hsame |].
      rewrite check_s_start. cbn [default_filler LaneDef_init s_start].
      exact Er.
    + change (s_end (_check_lane_widths w dr))
        with (s_end (default_filler w (present_s st)
                       (s_end (_check_lane_widths w dr)) kl)) at 1.
      apply (chained_snoc _ (present_s st)); [exact Hch | reflexivity].
  - destruct (filler w cr (right st) (r_it st) (present_s st)
                (Qmin nl nr) kr) as [fr |] eqn:Fr; cbn [bind];
      [| discriminate].
    destruct (filler w cl (left st) (l_it st) (present_s st)
                (Qmin nl nr) kl) as [fl |] eqn:Fl; cbn [bind];
      [| discriminate].
    apply filler_bounds in Fr as [Frs Fre], Fl as [Fls Fle].
    intros [= <-]. unfold starts_inv.
    cbn [retlanes_right retlanes_left present_s]. split.
    + apply same_starts_snoc; [exact Hsame |]. now rewrite Frs, Fls.
    + rewrite <- Fle. apply (chained_snoc _ (present_s st)); [exact Hch | now rewrite Fls].
Qed.

(** X6. For every input on which [_create_lane_lists] returns, valid or
    not: the two sequences have the same length and start their
    intervals at the same positions, element for element; and the left
    sequence is contiguous, its first interval starting at [0], each
    further one where the one before ends, the last one ending at or
    past [tot_length].  (The same does not hold of the end positions
    nor of the right sequence, see [unaligned_sides_differ].) *)
Theorem create_lane_lists_starts (rarg larg : lane_arg) (tot w : Q)
  (rr ll : list LaneDef) :
  _create_lane_lists rarg larg tot w = Some (Ok (rr, ll)) ->
  length rr = length ll /\
  same_starts rr ll /\
  exists hi, chained 0 hi ll /\ (tot <= hi)%Q.
Proof.
  intros Hrun.
  apply create_lane_lists_inv in Hrun as [st [Hsweep [-> ->]]].
  pose proof (sweep_exit _ _ _ _ _ _ _ Hsweep) as Hexit.
  apply Qltb_false in Hexit.
  apply (sweep_invariant _ _ tot w starts_inv
           (fun s s' H => sweep_step_starts _ _ _ _ s s' H)) in Hsweep.
  2: { unfold starts_inv, sweep_init. cbn. split; [constructor | reflexivity]. }
  destruct Hsweep as [Hsame Hch].
  assert (Hkeep : forall d,
             s_start (_adjust_lane_widths d) = s_start d /\
             s_end (_adjust_lane_widths d) = s_end d).
  { intros d. destruct (adjust_counts d) as [_ [_ [_ H]]]. exact H. }
  split; [| split].
  - rewrite !length_map. eapply Forall2_length; eauto.
  - apply same_starts_map; [apply Hkeep | exact Hsame].
  - exists (present_s st). split; [| exact Hexit].
    now apply chained_map.
Qed.

(** Unaligned input: a right descriptor on [0, 5) and a left one on
    [0, 10) of a 10 long road. *)
Lemma create_lane_lists_starts_witness :
  match _create_lane_lists (ListArg [LaneDef_init 0 5 1 1 None [] []])
          (ListArg [LaneDef_init 0 10 1 1 None [] []]) 10 3 with
  | Some (Ok (rr, ll)) => length rr = length ll /\ same_starts rr ll
  | _ => False
  end.
Proof.
  destruct (_create_lane_lists (ListArg [LaneDef_init 0 5 1 1 None [] []])
              (ListArg [LaneDef_init 0 10 1 1 None [] []]) 10 3)
    as [[[rr ll] | e] |] eqn:E.
  - destruct (create_lane_lists_starts _ _ _ _ rr ll E) as [H1 [H2 _]].
    split; assumption.
  - vm_compute in E. discriminate E.
  - vm_compute in E. discriminate E.
Defined.

(** ** A side given as a lane count *)

Lemma default_filler_plain (w s e : Q) (n : Z) :
  plain_default w n (default_filler w s e n).
Proof.
  rewrite default_filler_fields. unfold plain_default. cbn. auto.
Qed.

Lemma adjust_plain_default (w : Q) (n : Z) (d : LaneDef) :
  plain_default w n d -> plain_default w n (_adjust_lane_widths d).
Proof.
  intros H. rewrite adjust_falsy; [exact H |].
  destruct H as [_ [_ [-> _]]]. reflexivity.
Qed.

Lemma probe_side_nil (tot : Q) (it : nat) (n : Z) (p : Q) :
  probe_side tot [] it (Some n) p = Ok (Later tot n).
Proof. unfold probe_side. now destruct it. Qed.

Lemma sweep_step_const_right (n : Z) (cl : option Z) (tot w : Q)
  (st st' : sweep_state) :
  right st = [] /\ Forall (plain_default w n) (retlanes_right st) ->
  sweep_step (Some n) cl tot w st = Ok st' ->
  right st' = [] /\ Forall (plain_default w n) (retlanes_right st').
Proof.
  intros [Hnil Hall]. unfold sweep_step.
  rewrite Hnil, probe_side_nil. cbn [bind].
  destruct (probe_side tot (left st) (l_it st) cl (present_s st))
    as [[dl | nl kl] |]; cbn [bind]; [| | discriminate].
  - intros [= <-]. cbn [right retlanes_right]. split; [reflexivity |].
    apply Forall_snoc; [exact Hall | apply default_filler_plain].
  - unfold filler at 1. cbn [bind].
    destruct (filler w cl (left st) (l_it st) (present_s st)
                (Qmin nl tot) kl); cbn [bind]; [| discriminate].
    intros [= <-]. cbn [right retlanes_right]. split; [reflexivity |].
    apply Forall_snoc; [exact Hall | apply default_filler_plain].
Qed.

Lemma sweep_step_const_left (cr : option Z) (n : Z) (tot w : Q)
  (st st' : sweep_state) :
  left st = [] /\ Forall (plain_default w n) (retlanes_left st) ->
  sweep_step cr (Some n) tot w st = Ok st' ->
  left st' = [] /\ Forall (plain_default w n) (retlanes_left st').
Proof.
  intros [Hnil Hall]. unfold sweep_step.
  destruct (probe_side tot (right st) (r_it st) cr (present_s st))
    as [[dr | nr kr] |]; cbn [bind]; [| | discriminate];
    rewrite Hnil, probe_side_nil; cbn [bind].
  - intros [= <-]. cbn [left retlanes_left]. split; [reflexivity |].
    apply Forall_snoc; [exact Hall | apply default_filler_plain].
  - destruct (filler w cr (right st) (r_it st) (present_s st)
                (Qmin tot nr) kr); cbn [bind]; [| discriminate].
    unfold filler. cbn [bind].
    intros [= <-]. cbn [left retlanes_left]. split; [reflexivity |].
    apply Forall_snoc; [exact Hall | apply default_filler_plain].
Qed.

(** X7. A side given as an integer [n] keeps [n] lanes in every
    interval of its expanded timeline, whatever the other side holds:
    each of its descriptors has [n_lanes_start = n_lanes_end = n], no
    changed lane, and [n] default widths at both ends. *)
Theorem create_lane_lists_constant_side (rarg larg : lane_arg) (tot w : Q)
  (rr ll : list LaneDef) :
  _create_lane_lists rarg larg tot w = Some (Ok (rr, ll)) ->
  (forall n, rarg = IntArg n -> Forall (plain_default w n) rr) /\
  (forall n, larg = IntArg n -> Forall (plain_default w n) ll).
Proof.
  intros Hrun.
  apply create_lane_lists_inv in Hrun as [st [Hsweep [-> ->]]].
  split; intros n ->; cbn [const_lanes] in Hsweep.
  - apply (sweep_invariant _ _ tot w
             (fun s => right s = [] /\
                       Forall (plain_default w n) (retlanes_right s))
             (fun s s' H => sweep_step_const_right n _ tot w s s' H))
      in Hsweep.
    + apply Forall_map. eapply Forall_impl; [| apply Hsweep].
      apply adjust_plain_default.
    + cbn. auto.
  - apply (sweep_invariant _ _ tot w
             (fun s => left s = [] /\
                       Forall (plain_default w n) (retlanes_left s))
             (fun s s' H => sweep_step_const_left _ n tot w s s' H))
      in Hsweep.
    + apply Forall_map. eapply Forall_impl; [| apply Hsweep].
      apply adjust_plain_default.
    + cbn. auto.
Qed.

(** The split scenario: the right side has two lanes throughout. *)
Lemma create_lane_lists_constant_side_witness :
  match _create_lane_lists (IntArg 2)
          (ListArg [LaneDef_init 20 40 2 3 (Some 3%Z) [] []]) 60 3 with
  | Some (Ok (rr, ll)) => Forall (plain_default 3 2) rr
  | _ => False
  end.
Proof.
  destruct (_create_lane_lists (IntArg 2)
              (ListArg [LaneDef_init 20 40 2 3 (Some 3%Z) [] []]) 60 3)
    as [[[rr ll] | e] |] eqn:E.
  - exact (proj1 (create_lane_lists_constant_side _ _ _ _ rr ll E)
             2%Z eq_refl).
  - vm_compute in E. discriminate E.
  - vm_compute in E. discriminate E.
Defined.

(** ** Empty lists and roads without length *)

(** X8. On a road of positive length an empty descriptor list, on
    either side, makes [_create_lane_lists] raise [IndexError] in the
    first turn of its loop (at [right[-1]] or [left[-1]]), and with it
    the whole build. *)
Theorem empty_list_raises (rarg larg : lane_arg) (tot w : Q)
  (crm : RoadMark) (lwe : option Q) :
  (0 < tot)%Q ->
  rarg = ListArg [] \/ larg = ListArg [] ->
  _create_lane_lists rarg larg tot w = Some (Raise IndexError) /\
  create_lanes_merge_split rarg larg tot crm w lwe = Some (Raise IndexError).
Proof.
  intros Htot Hempty.
  assert (Hstep : sweep_step (const_lanes rarg) (const_lanes larg) tot w
                    (sweep_init rarg larg) = Raise IndexError).
  { unfold sweep_step, sweep_init.
    cbn [right left r_it l_it present_s].
    destruct Hempty as [-> | ->].
    - reflexivity.
    - unfold probe_side at 1.
      destruct (nth_error (def_list rarg) 0) as [d |] eqn:E.
      + destruct (Qeq_bool (s_start d) 0); reflexivity.
      + destruct rarg as [n | [| d l]]; cbn in *;
          [reflexivity | reflexivity | discriminate]. }
  assert (Hrun : _create_lane_lists rarg larg tot w = Some (Raise IndexError)).
  { unfold _create_lane_lists, sweep_fuel.
    replace (2 * (length (def_list rarg) + length (def_list larg)) + 2)
      with (S (2 * (length (def_list rarg) + length (def_list larg)) + 1))
      by lia.
    cbn [sweep]. unfold sweep_init at 1. cbn [present_s].
    replace (Qltb 0 tot) with true by (symmetry; now apply Qltb_true).
    now rewrite Hstep. }
  split; [exact Hrun |].
  unfold create_lanes_merge_split. now rewrite Hrun.
Qed.

Lemma empty_list_raises_witness :
  create_lanes_merge_split (ListArg []) (IntArg 1) 10 std_roadmark_solid 3
    None
  = Some (Raise IndexError).
Proof.
  exact (proj2 (empty_list_raises (ListArg []) (IntArg 1) 10 3
                  std_roadmark_solid None ltac:(reflexivity)
                  (or_introl eq_refl))).
Defined.

(** X9. For a road length that is not positive the loop of
    [_create_lane_lists] is not entered: whatever the two sides hold,
    both timelines are empty and the build returns a lane structure
    without lane section and without link; nothing is reported. *)
Theorem nonpositive_length_builds_nothing (rarg larg : lane_arg) (tot w : Q)
  (crm : RoadMark) (lwe : option Q) :
  (tot <= 0)%Q ->
  _create_lane_lists rarg larg tot w = Some (Ok ([], [])) /\
  create_lanes_merge_split rarg larg tot crm w lwe
  = Some (Ok (mkLanes [] [])).
Proof.
  intros Htot.
  assert (Hrun : _create_lane_lists rarg larg tot w = Some (Ok ([], []))).
  { unfold _create_lane_lists.
    destruct (sweep_fuel (def_list rarg) (def_list larg));
      cbn [sweep]; unfold sweep_init at 1; cbn [present_s];
      replace (Qltb 0 tot) with false
        by (symmetry; now apply Qltb_false);
      reflexivity. }
  split; [exact Hrun |].
  unfold create_lanes_merge_split. now rewrite Hrun.
Qed.

Lemma nonpositive_length_builds_nothing_witness :
  create_lanes_merge_split (ListArg []) (IntArg 2) 0 std_roadmark_solid 3
    None
  = Some (Ok (mkLanes [] [])).
Proof.
  exact (proj2 (nonpositive_length_builds_nothing (ListArg []) (IntArg 2)
                  0 3 std_roadmark_solid None ltac:(discriminate))).
Defined.

(** ** How many intervals *)

Lemma sweep_step_appends (cr cl : option Z) (tot w : Q)
  (st st' : sweep_state) :
  sweep_step cr cl tot w st = Ok st' ->
  length (retlanes_right st') = S (length (retlanes_right st)) /\
  length (retlanes_left st') = S (length (retlanes_left st)).
Proof.
  unfold sweep_step.
  destruct (probe_side tot (right st) (r_it st) cr (present_s st))
    as [pr |]; cbn [bind]; [| discriminate].
  destruct (probe_side tot (left st) (l_it st) cl (present_s st))
    as [pl |]; cbn [bind]; [| discriminate].
  destruct pl as [dl | nl kl], pr as [dr | nr kr];
    try (intros [= <-]; cbn [retlanes_right retlanes_left];
         rewrite !length_app; cbn [length]; lia).
  destruct (filler w cr (right st) (r_it st) (present_s st)
              (Qmin nl nr) kr); cbn [bind]; [| discriminate].
  destruct (filler w cl (left st) (l_it st) (present_s st)
              (Qmin nl nr) kl); cbn [bind]; [| discriminate].
  intros [= <-]. cbn [retlanes_right retlanes_left].
  rewrite !length_app. cbn [length]. lia.
Qed.

Lemma sweep_count (cr cl : option Z) (tot w : Q) (fuel : nat) :
  forall st st',
    sweep cr cl tot w fuel st = Some (Ok st') ->
    length (retlanes_right st')
    <= length (retlanes_right st) + 2 * pending st + 1 /\
    (settled tot st ->
     length (retlanes_right st')
     <= length (retlanes_right st) + 2 * pending st).
Proof.
  induction fuel as [| fuel IH]; intros st st'; cbn [sweep].
  - destruct (Qltb (present_s st) tot); [discriminate |].
    intros [= <-]. lia.
  - destruct (Qltb (present_s st) tot) eqn:Hlt; [| intros [= <-]; lia].
    destruct (sweep_step cr cl tot w st) as [st1 |] eqn:Hstep;
      [| discriminate].
    intros Hrun. destruct (IH _ _ Hrun) as [Hany Hset].
    destruct (sweep_step_appends _ _ _ _ _ _ Hstep) as [Hlen _].
    destruct (sweep_step_progress _ _ _ _ _ _ Hstep)
      as [Hless | [Hsame [Hset1 [Hr Hl]]]].
    + lia.
    + specialize (Hset Hset1). split; [lia |].
      intros [Hend | [[d [Hd Hq]] | [d [Hd Hq]]]].
      * congruence.
      * rewrite (Hr d Hd) in Hq. discriminate.
      * rewrite (Hl d Hd) in Hq. discriminate.
Qed.

(** X10. The expansion returns at most [2 * N + 1] intervals per side,
    [N] being the number of descriptors given for both sides together:
    each descriptor is emitted once, with at most one filler before it
    and one after the last. *)
Theorem create_lane_lists_interval_count (rarg larg : lane_arg) (tot w : Q)
  (rr ll : list LaneDef) :
  _create_lane_lists rarg larg tot w = Some (Ok (rr, ll)) ->
  length rr <= 2 * (length (def_list rarg) + length (def_list larg)) + 1 /\
  length ll <= 2 * (length (def_list rarg) + length (def_list larg)) + 1.
Proof.
  intros Hrun.
  destruct (create_lane_lists_emitted _ _ _ _ _ _ Hrun) as [Hsame _].
  apply create_lane_lists_inv in Hrun as [st [Hsweep [-> ->]]].
  apply sweep_count in Hsweep as [Hcount _].
  rewrite !length_map in *. unfold pending, sweep_init in Hcount.
  cbn in Hcount. lia.
Qed.

Lemma create_lane_lists_interval_count_witness :
  match _create_lane_lists (IntArg 2)
          (ListArg [LaneDef_init 20 40 2 3 (Some 3%Z) [] []]) 60 3 with
  | Some (Ok (rr, ll)) => length rr <= 3 /\ length ll <= 3
  | _ => False
  end.
Proof.
  destruct (_create_lane_lists (IntArg 2)
              (ListArg [LaneDef_init 20 40 2 3 (Some 3%Z) [] []]) 60 3)
    as [[[rr ll] | e] |] eqn:E.
  - exact (create_lane_lists_interval_count _ _ _ _ rr ll E).
  - vm_compute in E. discriminate E.
  - vm_compute in E. discriminate E.
Defined.

(* ================================================================= *)
(** ** The lanes of one side of a section *)

Lemma poly_lane_roadmarks (coeff : Q * Q * Q * Q) (rm : RoadMark) :
  lane_roadmarks (poly_lane coeff rm) = [rm].
Proof. destruct coeff as [[[a b] c] d]. reflexivity. Qed.

Lemma transition_lane_roadmarks (ld : LaneDef) (i : Z) (z : bool)
  (rm : RoadMark) (lane : Lane) :
  transition_lane ld i z rm = Ok lane -> lane_roadmarks lane = [rm].
Proof.
  unfold transition_lane.
  destruct (py_getitem (lane_start_widths ld) i); cbn [bind];
    [| discriminate].
  destruct (py_getitem (lane_end_widths ld) i); cbn [bind];
    [| discriminate].
  destruct (get_coeffs_for_poly3 _ _ _ _); cbn [bind]; [| discriminate].
  intros [= <-]. apply poly_lane_roadmarks.
Qed.

Lemma plain_lane_roadmarks (ld : LaneDef) (w : Q) (lwe : option Q) (i : Z)
  (rm : RoadMark) (lane : Lane) :
  plain_lane ld w lwe i rm = Ok lane -> lane_roadmarks lane = [rm].
Proof.
  unfold plain_lane.
  destruct lwe as [e |].
  - destruct (negb (Qeq_bool w e)).
    + destruct (get_coeffs_for_poly3 _ _ _ _); cbn [bind]; [| discriminate].
      intros [= <-]. apply poly_lane_roadmarks.
    + destruct (nonempty (lane_start_widths ld));
        [apply transition_lane_roadmarks | now intros [= <-]].
  - destruct (nonempty (lane_start_widths ld));
      [apply transition_lane_roadmarks | now intros [= <-]].
Qed.

Lemma side_lane_at_roadmarks (ld : LaneDef) (w : Q) (lwe : option Q)
  (i : Z) (lane : Lane) :
  right_lane_at ld w lwe i = Ok lane \/ left_lane_at ld w lwe i = Ok lane ->
  lane_roadmarks lane = [outer_roadmark ld i].
Proof.
  unfold right_lane_at, left_lane_at.
  intros [H | H]; revert H;
    repeat match goal with
      | |- context [and_at ?c ?k ?i] =>
          destruct (and_at c k i) as [[|] |]; cbn [bind]
      end;
    try discriminate;
    eauto using transition_lane_roadmarks, plain_lane_roadmarks.
Qed.

(** X11. On each side of a lane section that is built, the outermost
    lane (the last one added) carries the standard solid road mark and
    every other lane the standard broken one, whichever branch of the
    width selection built the lane. *)
Theorem side_lanes_roadmarks (ld : LaneDef) (w : Q) (lwe : option Q)
  (lanes : list Lane) :
  side_lanes_of right_lane_at ld w lwe = Ok lanes \/
  side_lanes_of left_lane_at ld w lwe = Ok lanes ->
  forall (k : nat) (lane : Lane),
    nth_error lanes k = Some lane ->
    lane_roadmarks lane
    = [if k =? length lanes - 1 then std_roadmark_solid
       else std_roadmark_broken].
Proof.
  intros Hrun k lane Hk.
  assert (Hlen : length lanes = section_lane_count ld)
    by (destruct Hrun as [H | H]; eapply side_lanes_of_length; eauto).
  assert (Hlane : right_lane_at ld w lwe (Z.of_nat k) = Ok lane \/
                  left_lane_at ld w lwe (Z.of_nat k) = Ok lane).
  { destruct Hrun as [H | H]; [left | right];
      unfold side_lanes_of in H;
      apply for_each_map_inv in H as [ys [E HF]]; cbn in E; subst ys;
      destruct (Forall2_nth_error_r _ _ _ _ _ HF Hk) as [i [Hi Hb]];
      apply nth_error_py_range in Hi; now subst i. }
  rewrite (side_lane_at_roadmarks _ _ _ _ _ Hlane).
  unfold outer_roadmark. pose proof (nth_error_pending _ _ _ Hk) as Hlt.
  unfold section_lane_count in Hlen.
  destruct (Nat.eqb_spec k (length lanes - 1)) as [E | E];
    destruct (Z.eqb_spec (Z.of_nat k)
                (Z.max (n_lanes_start ld) (n_lanes_end ld) - 1));
    try reflexivity; lia.
Qed.

(** The three left lanes of the split interval of the split scenario. *)
Lemma side_lanes_roadmarks_witness :
  exists lanes,
    side_lanes_of left_lane_at
      (mkLaneDef 20 40 2 3 (Some 3%Z) [3; 3; 0]%Q [3; 3; 3]%Q) 3 None
    = Ok lanes /\
    map lane_roadmarks lanes
    = [[std_roadmark_broken]; [std_roadmark_broken]; [std_roadmark_solid]].
Proof.
  destruct (side_lanes_of left_lane_at
              (mkLaneDef 20 40 2 3 (Some 3%Z) [3; 3; 0]%Q [3; 3; 3]%Q) 3 None)
    as [lanes | e] eqn:E.
  - exists lanes. split; [reflexivity |].
    pose proof (side_lanes_roadmarks _ _ _ _ (or_intror E)) as H.
    pose proof (side_lanes_of_length _ _ _ _ _ E) as L.
    destruct lanes as [| l0 [| l1 [| l2 [| l3 rest]]]]; try discriminate L.
    cbn [map]. rewrite (H 0 l0 eq_refl), (H 1 l1 eq_refl), (H 2 l2 eq_refl).
    reflexivity.
  - vm_compute in E. discriminate E.
Defined.

Lemma side_lanes_first (f : LaneDef -> Q -> option Q -> Z -> result Lane)
  (ld : LaneDef) (w : Q) (lwe : option Q) (e : exn) :
  (1 <= Z.max (n_lanes_start ld) (n_lanes_end ld))%Z ->
  f ld w lwe 0%Z = Raise e ->
  side_lanes_of f ld w lwe = Raise e.
Proof.
  intros Hm Hf. unfold side_lanes_of.
  destruct (py_range_pos _ Hm) as [rest ->]. cbn [for_each].
  now rewrite Hf.
Qed.

(** X12. A descriptor that changes the lane count but carries no
    changed-lane index ([sub_lane] is [None]) cannot be built: as soon
    as its section has a lane, building either side raises [TypeError]
    at the first lane. *)
Theorem count_change_without_index_raises (ld : LaneDef) (w : Q)
  (lwe : option Q) :
  n_lanes_start ld <> n_lanes_end ld ->
  sub_lane ld = None ->
  (1 <= Z.max (n_lanes_start ld) (n_lanes_end ld))%Z ->
  side_lanes_of right_lane_at ld w lwe = Raise TypeError /\
  side_lanes_of left_lane_at ld w lwe = Raise TypeError.
Proof.
  intros Hne Hsub Hm.
  split; apply side_lanes_first; try exact Hm;
    unfold right_lane_at, left_lane_at; rewrite Hsub;
    rewrite Z.gtb_ltb;
    destruct (Z.ltb_spec (n_lanes_end ld) (n_lanes_start ld));
    destruct (Z.ltb_spec (n_lanes_start ld) (n_lanes_end ld));
    cbn; try reflexivity; lia.
Qed.

Lemma count_change_without_index_raises_witness :
  side_lanes_of left_lane_at
    (mkLaneDef 20 40 2 3 None [3; 3]%Q [3; 3; 3]%Q) 3 None
  = Raise TypeError.
Proof.
  exact (proj2 (count_change_without_index_raises
                  (mkLaneDef 20 40 2 3 None [3; 3]%Q [3; 3; 3]%Q) 3 None
                  ltac:(discriminate) eq_refl ltac:(discriminate))).
Defined.

Lemma for_each_map_total {A B : Type} (xs : list A) (g : A -> result B)
  (acc : list B) :
  (forall x, In x xs -> exists y, g x = Ok y) ->
  exists ys,
    for_each xs (fun acc x => y <- g x ;; Ok (acc ++ [y])) acc
    = Ok (acc ++ ys) /\
    length ys = length xs.
Proof.
  revert acc. induction xs as [| x xs IH]; intros acc H; cbn.
  - exists []. split; [now rewrite app_nil_r | reflexivity].
  - destruct (H x (or_introl eq_refl)) as [y Hy]. rewrite Hy. cbn [bind].
    destruct (IH (acc ++ [y]) (fun z Hz => H z (or_intror Hz)))
      as [ys [Hrun Hlen]].
    exists (y :: ys). split; [| cbn; lia].
    rewrite Hrun. now rewrite <- app_assoc.
Qed.

Lemma get_coeffs_total (len a : Q) (z : bool) (b : Q) :
  (0 < len)%Q -> exists c, get_coeffs_for_poly3 len a z b = Ok c.
Proof.
  intros H. unfold get_coeffs_for_poly3.
  replace (Qle_bool len 0) with false; [eauto |].
  symmetry. apply not_true_iff_false. rewrite Qle_bool_iff. lra.
Qed.

Lemma py_getitem_total {A : Type} (l : list A) (i : Z) :
  (0 <= i < Z.of_nat (length l))%Z -> exists x, py_getitem l i = Ok x.
Proof.
  intros H. destruct (py_getitem_ok l (Z.to_nat i) ltac:(lia)) as [x Hx].
  rewrite Z2Nat.id in Hx by lia. eauto.
Qed.

Lemma transition_lane_total (ld : LaneDef) (i : Z) (z : bool)
  (rm : RoadMark) :
  (s_start ld < s_end ld)%Q ->
  (0 <= i < Z.of_nat (length (lane_start_widths ld)))%Z ->
  (i < Z.of_nat (length (lane_end_widths ld)))%Z ->
  exists lane, transition_lane ld i z rm = Ok lane.
Proof.
  intros Hlen Hs He. unfold transition_lane.
  destruct (py_getitem_total (lane_start_widths ld) i Hs) as [w0 ->].
  destruct (py_getitem_total (lane_end_widths ld) i ltac:(lia)) as [w1 ->].
  cbn [bind].
  destruct (get_coeffs_total (s_end ld - s_start ld) w0 z w1 ltac:(lra))
    as [c ->].
  cbn [bind]. eauto.
Qed.

Lemma plain_lane_total (ld : LaneDef) (w : Q) (lwe : option Q) (i : Z)
  (rm : RoadMark) :
  (s_start ld < s_end ld)%Q ->
  (0 <= i < Z.of_nat (length (lane_start_widths ld)))%Z ->
  (i < Z.of_nat (length (lane_end_widths ld)))%Z ->
  exists lane, plain_lane ld w lwe i rm = Ok lane.
Proof.
  intros Hlen Hs He. unfold plain_lane.
  destruct lwe as [e |].
  - destruct (negb (Qeq_bool w e)).
    + destruct (get_coeffs_total (s_end ld - s_start ld) w false e
                  ltac:(lra)) as [c ->].
      cbn [bind]. eauto.
    + destruct (nonempty (lane_start_widths ld));
        [now apply transition_lane_total | eauto].
  - destruct (nonempty (lane_start_widths ld));
      [now apply transition_lane_total | eauto].
Qed.

Lemma and_at_total (c : bool) (sub : option Z) (i : Z) :
  (c = true -> sub <> None) ->
  (exists b, and_at c (abs_minus_one sub) i = Ok b) /\
  (exists b, and_at c (minus_one sub) i = Ok b).
Proof.
  intros H. unfold and_at. destruct c; [| eauto].
  destruct sub as [z |]; [cbn; eauto | exfalso; now apply H].
Qed.

(** X13. Building the lanes of a side raises nothing for a descriptor
    of positive length that has a start width and an end width for each
    of its [max(n_lanes_start, n_lanes_end)] lanes and, when it changes
    the count, a changed-lane index: each side then gets that many
    lanes. *)
Theorem side_lanes_built (ld : LaneDef) (w : Q) (lwe : option Q) :
  (s_start ld < s_end ld)%Q ->
  length (lane_start_widths ld) = section_lane_count ld ->
  length (lane_end_widths ld) = section_lane_count ld ->
  (n_lanes_start ld <> n_lanes_end ld -> sub_lane ld <> None) ->
  (exists lanes,
      side_lanes_of right_lane_at ld w lwe = Ok lanes /\
      length lanes = section_lane_count ld) /\
  (exists lanes,
      side_lanes_of left_lane_at ld w lwe = Ok lanes /\
      length lanes = section_lane_count ld).
Proof.
  intros Hlen Hs He Hsub. unfold section_lane_count in *.
  assert (Hmerge : (n_lanes_start ld >? n_lanes_end ld)%Z = true ->
                   sub_lane ld <> None).
  { rewrite Z.gtb_ltb. intros H. apply Z.ltb_lt in H. apply Hsub. lia. }
  assert (Hsplit : (n_lanes_start ld <? n_lanes_end ld)%Z = true ->
                   sub_lane ld <> None).
  { intros H. apply Z.ltb_lt in H. apply Hsub. lia. }
  assert (Hlane : forall i,
             In i (py_range (Z.max (n_lanes_start ld) (n_lanes_end ld))) ->
             (exists lane, right_lane_at ld w lwe i = Ok lane) /\
             (exists lane, left_lane_at ld w lwe i = Ok lane)).
  { intros i Hi. apply in_py_range in Hi.
    assert (Hi_s : (0 <= i < Z.of_nat (length (lane_start_widths ld)))%Z)
      by lia.
    assert (Hi_e : (i < Z.of_nat (length (lane_end_widths ld)))%Z) by lia.
    unfold right_lane_at, left_lane_at.
    destruct (and_at_total _ (sub_lane ld) i Hmerge) as [[bm ->] [bm' ->]].
    destruct (and_at_total _ (sub_lane ld) i Hsplit) as [[bs ->] [bs' ->]].
    cbn [bind].
    split.
    - destruct bm; [now apply transition_lane_total |].
      destruct bs; [now apply transition_lane_total |].
      now apply plain_lane_total.
    - destruct bs'; [now apply transition_lane_total |].
      destruct bm'; [now apply transition_lane_total |].
      now apply plain_lane_total. }
  split; unfold side_lanes_of.
  - destruct (for_each_map_total
                (py_range (Z.max (n_lanes_start ld) (n_lanes_end ld)))
                (right_lane_at ld w lwe) []
                (fun i Hi => proj1 (Hlane i Hi))) as [ys [Hrun Hl]].
    exists ys. split; [exact Hrun |]. now rewrite Hl, py_range_length.
  - destruct (for_each_map_total
                (py_range (Z.max (n_lanes_start ld) (n_lanes_end ld)))
                (left_lane_at ld w lwe) []
                (fun i Hi => proj2 (Hlane i Hi))) as [ys [Hrun Hl]].
    exists ys. split; [exact Hrun |]. now rewrite Hl, py_range_length.
Qed.

Lemma side_lanes_built_witness :
  exists lanes,
    side_lanes_of left_lane_at
      (mkLaneDef 20 40 2 3 (Some 3%Z) [3; 3; 0]%Q [3; 3; 3]%Q) 3 None
    = Ok lanes /\
    length lanes = 3.
Proof.
  exact (proj2 (side_lanes_built
                  (mkLaneDef 20 40 2 3 (Some 3%Z) [3; 3; 0]%Q [3; 3; 3]%Q)
                  3 None ltac:(reflexivity) eq_refl eq_refl
                  ltac:(discriminate))).
Defined.

(** X14. A lane cannot appear on a side that has none, nor can the only
    lane of a side vanish: for a normalised descriptor from 0 lanes to
    some, or from some to 0, whose changed lane is the innermost one,
    the empty width list gets no placeholder, and building the side
    raises [IndexError] at the first lane. *)
Theorem zero_lane_change_raises (ld : LaneDef) (sub : Z) (w : Q)
  (lwe : option Q) :
  normalized ld ->
  sub_lane ld = Some sub ->
  (n_lanes_start ld = 0%Z /\ (1 <= n_lanes_end ld)%Z) \/
  (n_lanes_end ld = 0%Z /\ (1 <= n_lanes_start ld)%Z) ->
  _adjust_lane_widths ld = ld /\
  (Z.abs sub = 1%Z ->
   side_lanes_of right_lane_at (_adjust_lane_widths ld) w lwe
   = Raise IndexError) /\
  (sub = 1%Z ->
   side_lanes_of left_lane_at (_adjust_lane_widths ld) w lwe
   = Raise IndexError).
Proof.
  intros [Hs [He [Hsw Hew]]] Hsub Hzero.
  assert (Hkeep : _adjust_lane_widths ld = ld).
  { unfold _adjust_lane_widths.
    destruct (truthy (sub_lane ld)); [| reflexivity].
    rewrite !nonempty_length, Hsw, Hew, !Z2Nat.id by assumption.
    destruct Hzero as [[Hz Hp] | [Hz Hp]];
      destruct (Z.leb_spec 1 (n_lanes_end ld)),
        (Z.leb_spec 1 (n_lanes_start ld)),
        (Z.ltb_spec (n_lanes_end ld) (n_lanes_start ld)),
        (Z.ltb_spec (n_lanes_start ld) (n_lanes_end ld));
      cbn; try reflexivity; lia. }
  rewrite Hkeep. split; [reflexivity |].
  assert (Hm : (1 <= Z.max (n_lanes_start ld) (n_lanes_end ld))%Z) by lia.
  assert (Hget : forall l : list Q, length l = Z.to_nat 0 ->
                                    py_getitem l 0 = Raise IndexError).
  { intros [| x l] H; [reflexivity | discriminate]. }
  split; intros Hpos; apply side_lanes_first; try exact Hm;
    unfold right_lane_at, left_lane_at; rewrite Hsub;
    unfold and_at, abs_minus_one, minus_one; cbn [bind];
    rewrite ?Hpos; cbn [Z.sub Z.add Z.opp Z.pos_sub Z.eqb];
    rewrite Z.gtb_ltb;
    destruct Hzero as [[Hz Hp] | [Hz Hp]];
    destruct (Z.ltb_spec (n_lanes_end ld) (n_lanes_start ld));
    destruct (Z.ltb_spec (n_lanes_start ld) (n_lanes_end ld));
    try lia; cbn [bind]; unfold transition_lane.
  - rewrite Hz in Hsw. now rewrite (Hget _ Hsw).
  - rewrite Hz in Hew.
    destruct (py_getitem_total (lane_start_widths ld) 0 ltac:(lia))
      as [x ->].
    cbn [bind]. now rewrite (Hget _ Hew).
  - rewrite Hz in Hsw. now rewrite (Hget _ Hsw).
  - rewrite Hz in Hew.
    destruct (py_getitem_total (lane_start_widths ld) 0 ltac:(lia))
      as [x ->].
    cbn [bind]. now rewrite (Hget _ Hew).
Qed.

(** [LaneDef(10, 20, 0, 1, 1)] normalised with width 3. *)
Lemma zero_lane_change_raises_witness :
  side_lanes_of left_lane_at
    (_adjust_lane_widths (mkLaneDef 10 20 0 1 (Some 1%Z) [] [3]%Q)) 3 None
  = Raise IndexError.
Proof.
  refine (proj2 (proj2 (zero_lane_change_raises
                          (mkLaneDef 10 20 0 1 (Some 1%Z) [] [3]%Q) 1 3 None
                          _ eq_refl _)) eq_refl).
  - unfold normalized. cbn. repeat split; lia.
  - left. cbn. split; [reflexivity | lia].
Defined.

(* ================================================================= *)
(** ** What the linker records *)

Lemma norm_index_nat_inv (len k pos : nat) :
  norm_index len (Z.of_nat k) = Ok pos -> pos = k.
Proof.
  unfold norm_index.
  destruct ((0 <=? Z.of_nat k) && (Z.of_nat k <? Z.of_nat len))%Z.
  - intros [= <-]. apply Nat2Z.id.
  - replace (Z.of_nat k <? 0)%Z with false
      by (symmetry; apply Z.ltb_ge; lia).
    cbn. discriminate.
Qed.

Lemma lane_at_inv (sd : side) (secs : list LaneSection) (k : nat) (j : Z)
  (id : lane_id) :
  lane_at sd secs (Z.of_nat k) j = Ok id ->
  exists sec,
    nth_error secs k = Some sec /\
    in_section id = k /\ on_side id = sd /\
    at_index id < length (side_lanes sd sec).
Proof.
  unfold lane_at.
  destruct (norm_index (length secs) (Z.of_nat k)) as [pos |] eqn:N;
    cbn [bind]; [| discriminate].
  apply norm_index_nat_inv in N. subst pos.
  destruct (nth_error secs k) as [sec |]; cbn [bind]; [| discriminate].
  destruct (norm_index (length (side_lanes sd sec)) j) as [idx |] eqn:E;
    cbn [bind]; [| discriminate].
  intros [= <-]. exists sec. cbn. repeat split.
  eapply norm_index_bound; eauto.
Qed.

Lemma add_link_inv (links out : list link) (pre succ : result lane_id) :
  add_link links pre succ = Ok out ->
  exists p s, pre = Ok p /\ succ = Ok s /\ out = links ++ [mkLink p s].
Proof.
  unfold add_link. destruct pre as [p |]; cbn [bind]; [| discriminate].
  destruct succ as [s |]; cbn [bind]; [| discriminate].
  intros [= <-]. eauto.
Qed.

(** A loop whose turns only append elements that satisfy [P]. *)
Lemma for_each_appends {A B : Type} (P : B -> Prop) (xs : list A)
  (body : list B -> A -> result (list B)) (acc out : list B) :
  (forall a x a', In x xs -> body a x = Ok a' ->
                  exists extra, a' = a ++ extra /\ Forall P extra) ->
  for_each xs body acc = Ok out ->
  exists extra, out = acc ++ extra /\ Forall P extra.
Proof.
  revert acc. induction xs as [| x xs IH]; intros acc Hbody; cbn.
  - intros [= <-]. exists []. split; [now rewrite app_nil_r | constructor].
  - destruct (body acc x) as [a' |] eqn:Hb; cbn [bind]; [| discriminate].
    intros H. destruct (Hbody _ _ _ (or_introl eq_refl) Hb) as [e1 [-> H1]].
    destruct (IH _ (fun a y a'' Hy => Hbody a y a'' (or_intror Hy)) H)
      as [e2 [-> H2]].
    exists (e1 ++ e2). split; [now rewrite app_assoc |].
    apply Forall_app. auto.
Qed.

Section LinkedLanes.

Variables (sd : side) (secs : list LaneSection) (k : nat).

Let pre := lane_at sd secs (Z.of_nat k).
Let succ := lane_at sd secs (Z.of_nat (S k)).

Lemma add_link_adjacent (links out : list link) (a b : Z) :
  add_link links (pre a) (succ b) = Ok out ->
  exists extra, out = links ++ extra /\ Forall (joins_adjacent sd secs) extra.
Proof.
  intros H. apply add_link_inv in H as [p [s [Hp [Hs ->]]]].
  apply lane_at_inv in Hp as [sp [Np [Ip [Op Ap]]]].
  apply lane_at_inv in Hs as [sc [Nc [Ic [Oc Ac]]]].
  exists [mkLink p s]. split; [reflexivity |].
  constructor; [| constructor].
  exists sp, sc. cbn [link_pre link_succ]. rewrite Ip, Ic.
  repeat split; assumption.
Qed.

Lemma keep_links_adjacent (links : list link) :
  exists extra,
    links = links ++ extra /\ Forall (joins_adjacent sd secs) extra.
Proof. exists []. split; [now rewrite app_nil_r | constructor]. Qed.

End LinkedLanes.

Lemma link_turn_adjacent (sd : side) (secs : list LaneSection) (k : nat)
  (sub : option Z) (a : list link) (j : Z) (a' : list link) :
  let pre := lane_at sd secs (Z.of_nat k) in
  let succ := lane_at sd secs (Z.of_nat (S k)) in
  same_at pre succ a j = Ok a' \/
  right_split_at pre succ sub a j = Ok a' \/
  right_merge_at pre succ sub a j = Ok a' \/
  left_split_at pre succ sub a j = Ok a' \/
  left_merge_at pre succ sub a j = Ok a' ->
  exists extra, a' = a ++ extra /\ Forall (joins_adjacent sd secs) extra.
Proof.
  intros pre succ.
  unfold same_at, right_split_at, right_merge_at, left_split_at,
    left_merge_at.
  intros [H | H]; [eapply add_link_adjacent; eauto |].
  destruct H as [H | [H | [H | H]]]; revert H;
    (destruct (sub_ltb sub _) as [[|] |]; cbn [bind];
     [apply add_link_adjacent | | discriminate]);
    (destruct (sub_gtb sub _) as [[|] |]; cbn [bind];
     [apply add_link_adjacent
     | intros [= <-]; apply keep_links_adjacent
     | discriminate]).
Qed.

Lemma link_boundary_adjacent (sd : side) (secs : list LaneSection) (k : nat)
  (prev cur : LaneDef) (links out : list link) :
  link_boundary (lane_at sd secs (Z.of_nat k))
    (lane_at sd secs (Z.of_nat (S k))) sd prev cur links = Ok out ->
  exists extra, out = links ++ extra /\ Forall (joins_adjacent sd secs) extra.
Proof.
  destruct sd; cbn [link_boundary];
    unfold link_right_boundary, link_left_boundary.
  - destruct (n_lanes_end cur >? n_lanes_start cur)%Z;
      [| destruct (n_lanes_end prev <? n_lanes_start prev)%Z];
      apply for_each_appends; intros a x a' _ H.
    + exact (link_turn_adjacent RightSide secs k (sub_lane cur) a x a'
               (or_intror (or_introl H))).
    + exact (link_turn_adjacent RightSide secs k (sub_lane prev) a x a'
               (or_intror (or_intror (or_introl H)))).
    + exact (link_turn_adjacent RightSide secs k None a x a' (or_introl H)).
  - destruct (n_lanes_end cur >? n_lanes_start cur)%Z;
      [| destruct (n_lanes_end prev <? n_lanes_start prev)%Z];
      apply for_each_appends; intros a x a' _ H.
    + exact (link_turn_adjacent LeftSide secs k (sub_lane cur) a x a'
               (or_intror (or_intror (or_intror (or_introl H))))).
    + exact (link_turn_adjacent LeftSide secs k (sub_lane prev) a x a'
               (or_intror (or_intror (or_intror (or_intror H))))).
    + exact (link_turn_adjacent LeftSide secs k None a x a' (or_introl H)).
Qed.

(** Every link one of the two linking loops records joins two lanes
    that exist, on the side the loop is about, in two lane sections that
    follow each other; the links given to the loop are kept, in
    front. *)
Lemma link_side_adjacent (sd : side) (lane_defs : list LaneDef)
  (secs : list LaneSection) (links out : list link) :
  link_side sd lane_defs secs links = Ok out ->
  exists extra, out = links ++ extra /\ Forall (joins_adjacent sd secs) extra.
Proof.
  unfold link_side. apply for_each_appends. intros a i a' Hi.
  destruct (py_getitem lane_defs i) as [cur |]; cbn [bind]; [| discriminate].
  destruct (py_getitem lane_defs (i - 1)) as [prev |]; cbn [bind];
    [| discriminate].
  intros H.
  apply in_map_iff in Hi as [n [<- Hn]]. apply in_seq in Hn.
  replace (Z.of_nat n - 1)%Z with (Z.of_nat (n - 1)) in H by lia.
  replace n with (S (n - 1)) in H at 2 by lia.
  exact (link_boundary_adjacent sd secs (n - 1) prev cur a a' H).
Qed.

(** X15. Whatever the input, every link of a lane structure the build
    returns joins two lanes that exist in the structure, both on the
    right or both on the left, of two lane sections that follow each
    other: no link skips a section, crosses the centre or names a lane
    that was not built. *)
Theorem built_links_join_adjacent_lanes
  (right_lane_def left_lane_def : lane_arg) (road_length : Q)
  (center_road_mark : RoadMark) (lane_width : Q)
  (lane_width_end : option Q) (lanes : Lanes) :
  create_lanes_merge_split right_lane_def left_lane_def road_length
    center_road_mark lane_width lane_width_end = Some (Ok lanes) ->
  Forall (fun l => joins_adjacent RightSide (lanesections lanes) l \/
                   joins_adjacent LeftSide (lanesections lanes) l)
    (lanelinker lanes).
Proof.
  unfold create_lanes_merge_split.
  destruct (_create_lane_lists right_lane_def left_lane_def road_length
              lane_width) as [[[rr ll] | e] |]; try discriminate.
  destruct (build_lanesections rr ll center_road_mark lane_width
              lane_width_end) as [secs |]; cbn [bind]; [| discriminate].
  destruct (link_side RightSide rr secs []) as [k1 |] eqn:L1; cbn [bind];
    [| discriminate].
  destruct (link_side LeftSide ll secs k1) as [k2 |] eqn:L2; cbn [bind];
    [| discriminate].
  intros [= <-]. cbn [lanesections lanelinker].
  apply link_side_adjacent in L1 as [e1 [-> H1]].
  apply link_side_adjacent in L2 as [e2 [-> H2]].
  cbn [app]. apply Forall_app. split.
  - eapply Forall_impl; [| exact H1]. intros l Hl. now left.
  - eapply Forall_impl; [| exact H2]. intros l Hl. now right.
Qed.

(** The split scenario. *)
Lemma built_links_join_adjacent_lanes_witness :
  match create_lanes_merge_split (IntArg 2)
          (ListArg [LaneDef_init 20 40 2 3 (Some 3%Z) [] []])
          60 std_roadmark_solid 3 None with
  | Some (Ok lanes) =>
      Forall (fun l => joins_adjacent RightSide (lanesections lanes) l \/
                       joins_adjacent LeftSide (lanesections lanes) l)
        (lanelinker lanes)
  | _ => False
  end.
Proof.
  destruct (create_lanes_merge_split (IntArg 2)
              (ListArg [LaneDef_init 20 40 2 3 (Some 3%Z) [] []])
              60 std_roadmark_solid 3 None) as [[lanes | e] |] eqn:E.
  - exact (built_links_join_adjacent_lanes _ _ _ _ _ _ lanes E).
  - vm_compute in E. discriminate E.
  - vm_compute in E. discriminate E.
Defined.
